(** * Form data store, reference resolver and schema fetch of prompt-tuner-v2

    A shallow embedding of the browser-side form layer:
    - [DataManager] (src/assets/js/data-manager.js): the Form Data Store;
    - [ImprovedDynamicFormGenerator.resolveReference] and
      [findInDefinitions] (src/assets/js/improved-dynamic-form-generator.js);
    - [DynamicWorkflowManager.selectUnionOption] and [renderUnionFields]
      (src/assets/js/llm-form-test.js);
    - [ArrayManager.fetchSchema] (src/assets/js/array-manager.js).

    After these come the other mutators and the reports of [DataManager],
    the schema checks and the component mapping of the generator, and the
    methods of the two managers that load a schema, select a variant, add
    an item and export.

    Conventions of the embedding.
    - A JavaScript value is a tree ([value]): [undefined], [null], booleans,
      numbers (the integers and [NaN]; no operation below looks at a
      fraction), strings, dense arrays and plain objects.  Objects are finite
      maps from own property names to values, so two objects are equal when
      they are deep-equal whatever the order of their keys.  The sharing of
      one array or object between two places of the heap is not part of the
      model.
    - A plain object also answers to the names of the members of
      [Object.prototype] ([object_prototype_names]), which are no values of
      the model.  [DataManager.getFormDataForSchema_any],
      [DataManager.addArrayItem], [ArrayManager.fetchSchema] and
      [setNestedValue] follow the code under these names too, and have no
      image where the code goes on with such a member.  The other
      definitions read the properties that an object holds: they are the
      methods under names that the object holds or does not inherit, and
      the statements that range over names say which names they are about.
      The members of the other built-in prototypes (array methods read as
      data ...) are not part of the model.
    - A string is a sequence of 8-bit code units; case conversions act on the
      ASCII letters.
    - A method is a computation in the monad [JS S] over the fields [S] of
      its object: it ends with a result or with a thrown exception, and in
      both cases leaves a state behind, so that what a method did before it
      threw stays visible.
    - The platform ([JSON.stringify], [JSON.parse], [fetch], the clock, HTML
      generation) enters as parameters. *)

From Stdlib Require Import Ascii.
From stdpp Require Import gmap strings list fin_maps pretty countable.

#[local] Set Warnings "-register-all".
#[local] Open Scope Z_scope.

(** ** JavaScript values *)

Inductive value : Type :=
  | VUndefined
  | VNull
  | VBool (b : bool)
  | VNum (n : Z)
  | VNaN
  | VStr (s : string)
  | VArr (l : list value)
  | VObj (o : gmap string value).

(** ToBoolean. *)
Definition truthy (v : value) : bool :=
  match v with
  | VUndefined | VNull | VNaN => false
  | VBool b => b
  | VNum n => negb (n =? 0)
  | VStr s => negb (String.eqb s "")
  | VArr _ | VObj _ => true
  end.

(** [a || b] *)
Definition or_else (a b : value) : value := if truthy a then a else b.

(** [typeof v === 'object'] *)
Definition typeof_object (v : value) : bool :=
  match v with VNull | VArr _ | VObj _ => true | _ => false end.

(** ** Exceptions and the method monad *)

Inductive exn : Type :=
  | TypeError
  | SyntaxError
  | Error (msg : string).

Inductive outcome (A : Type) : Type :=
  | Ok (a : A)
  | Throw (e : exn).
Arguments Ok {A} a.
Arguments Throw {A} e.

Definition JS (S A : Type) : Type := S → outcome A * S.

#[global] Instance JS_ret {S} : MRet (JS S) := λ A a s, (Ok a, s).
#[global] Instance JS_bind {S} : MBind (JS S) := λ A B f m s,
  match m s with
  | (Ok a, s') => f a s'
  | (Throw e, s') => (Throw e, s')
  end.

Definition throw {S A} (e : exn) : JS S A := λ s, (Throw e, s).
Definition get_state {S} : JS S S := λ s, (Ok s, s).
Definition put_state {S} (s : S) : JS S unit := λ _, (Ok tt, s).

(** [try { body } catch (error) { handler }]: the handler starts from the
    state the body had reached when it threw. *)
Definition try_catch {S A} (body : JS S A) (handler : exn → JS S A) : JS S A :=
  λ s, match body s with
       | (Ok a, s') => (Ok a, s')
       | (Throw e, s') => handler e s'
       end.

(** Lifting of a computation that does not touch the state. *)
Definition lift {S A} (r : outcome A) : JS S A := λ s, (r, s).

(** ** Strings *)

Definition is_upper (c : ascii) : bool :=
  let n := N_of_ascii c in ((65 <=? n) && (n <=? 90))%N.
Definition is_lower (c : ascii) : bool :=
  let n := N_of_ascii c in ((97 <=? n) && (n <=? 122))%N.
Definition lower_ascii (c : ascii) : ascii :=
  if is_upper c then ascii_of_N (N_of_ascii c + 32) else c.
Definition upper_ascii (c : ascii) : ascii :=
  if is_lower c then ascii_of_N (N_of_ascii c - 32) else c.

(** [s.toLowerCase()] on the ASCII letters *)
Fixpoint toLowerCase (s : string) : string :=
  match s with
  | EmptyString => EmptyString
  | String c s' => String (lower_ascii c) (toLowerCase s')
  end.

(** [s.startsWith(p)] *)
Definition startsWith (s p : string) : bool := String.prefix p s.

Fixpoint string_drop (n : nat) (s : string) : string :=
  match n, s with
  | O, _ => s
  | S n', String _ s' => string_drop n' s'
  | S _, EmptyString => EmptyString
  end.

(** [s.replace(pat, '')] for a string pattern: the first occurrence of
    [pat] is removed. *)
Fixpoint replace_first (pat s : string) : string :=
  if String.prefix pat s then string_drop (String.length pat) s
  else match s with
       | EmptyString => EmptyString
       | String c s' => String c (replace_first pat s')
       end.

(** The part of [s] after its last ['/'] when it has one: [None] otherwise. *)
Fixpoint after_last_slash (s : string) : option string :=
  match s with
  | EmptyString => None
  | String c s' =>
      match after_last_slash s' with
      | Some r => Some r
      | None => if Ascii.eqb c "/" then Some s' else None
      end
  end.

(** [s.split('/').pop()] *)
Definition last_segment (s : string) : string :=
  default s (after_last_slash s).

(** The first line of [s]: [.] in a regular expression stops at a line
    terminator. *)
Fixpoint first_line (s : string) : string :=
  match s with
  | EmptyString => EmptyString
  | String c s' =>
      if Ascii.eqb c "010" || Ascii.eqb c "013" then EmptyString
      else String c (first_line s')
  end.

(** [ref.replace(/^#\/.*\//, '')]: a leading ["#/"] is removed together
    with everything up to the last ['/'] of the first line, when there is
    one. *)
Definition strip_pointer_path (ref : string) : string :=
  if String.prefix "#/" ref then
    let rest := string_drop 2 ref in
    match after_last_slash (first_line rest) with
    | Some tail =>
        string_drop (String.length (first_line rest) - String.length tail) rest
    | None => ref
    end
  else ref.

(** [str.replace(/([A-Z])/g, '_$1')] *)
Fixpoint underscore_capitals (s : string) : string :=
  match s with
  | EmptyString => EmptyString
  | String c s' =>
      if is_upper c then String "_" (String c (underscore_capitals s'))
      else String c (underscore_capitals s')
  end.

(** [str.replace(/^_/, '')] *)
Definition drop_leading_underscore (s : string) : string :=
  match s with
  | String "_" s' => s'
  | _ => s
  end.

(** [str.replace(/([A-Z])/g, '_$1').toLowerCase().replace(/^_/, '')], for a
    string of ASCII characters: [toLowerCase] here leaves every other
    character as it is. *)
Definition camelToSnake (str : string) : string :=
  drop_leading_underscore (toLowerCase (underscore_capitals str)).

(** [str.replace(/_([a-z])/g, (match, letter) => letter.toUpperCase())] *)
Fixpoint snakeToCamel (str : string) : string :=
  match str with
  | EmptyString => EmptyString
  | String c s' =>
      if Ascii.eqb c "_" then
        match s' with
        | String d s'' =>
            if is_lower d then String (upper_ascii d) (snakeToCamel s'')
            else String c (snakeToCamel s')
        | EmptyString => String c EmptyString
        end
      else String c (snakeToCamel s')
  end.

(** The ASCII characters, and the strings made of characters that meet
    [p]. *)
Definition is_ascii (c : ascii) : bool := (N_of_ascii c <? 128)%N.

Fixpoint all_chars (p : ascii → bool) (s : string) : bool :=
  match s with
  | EmptyString => true
  | String c s' => p c && all_chars p s'
  end.

(** ** Property access *)

Fixpoint digits_value (s : string) (acc : N) : option N :=
  match s with
  | EmptyString => Some acc
  | String c s' =>
      let n := N_of_ascii c in
      if ((48 <=? n) && (n <=? 57))%N then digits_value s' (10 * acc + (n - 48))%N
      else None
  end.

(** The array index a property name stands for: the name must be the
    canonical decimal form of the index. *)
Definition index_of_key (k : string) : option nat :=
  match k with
  | EmptyString => None
  | _ =>
      n ← digits_value k 0%N;
      if decide (pretty n = k) then Some (N.to_nat n) else None
  end.

Definition char_value (c : ascii) : value := VStr (String c EmptyString).

(** [v[k]] for a [v] that is neither [null] nor [undefined]: own
    properties only. *)
Definition get_own (v : value) (k : string) : value :=
  match v with
  | VObj o => default VUndefined (o !! k)
  | VArr l =>
      if String.eqb k "length" then VNum (Z.of_nat (length l))
      else default VUndefined (i ← index_of_key k; l !! i)
  | VStr s =>
      if String.eqb k "length" then VNum (Z.of_nat (String.length s))
      else default VUndefined (i ← index_of_key k; char_value <$> String.get i s)
  | _ => VUndefined
  end.

(** [v[k]]: reading a property of [null] or [undefined] is a TypeError. *)
Definition get (v : value) (k : string) : outcome value :=
  match v with
  | VUndefined | VNull => Throw TypeError
  | _ => Ok (get_own v k)
  end.

(** [v?.[k]] *)
Definition get_opt (v : value) (k : string) : value :=
  match v with
  | VUndefined | VNull => VUndefined
  | _ => get_own v k
  end.

(** [{ ...v }]: the own enumerable properties of [v]; the indices of an
    array or of a string, nothing for the other primitives. *)
Definition spread (v : value) : gmap string value :=
  match v with
  | VObj o => o
  | VArr l => list_to_map (imap (λ i x, (pretty i, x)) l)
  | VStr s =>
      list_to_map (imap (λ i c, (pretty i, char_value c)) (String.list_ascii_of_string s))
  | _ => ∅
  end.

(** [a === s] for a string [s] *)
Definition strict_eq_string (a : value) (s : string) : bool :=
  match a with
  | VStr s' => String.eqb s' s
  | _ => false
  end.

(** ** Arrays *)

(** [Array.prototype.splice(start, deleteCount)] without inserted items, on
    integer arguments: a negative start counts from the end, and both
    arguments are clamped to the array. *)
Definition splice (l : list value) (start deleteCount : Z) : list value :=
  let len := Z.of_nat (length l) in
  let actualStart :=
    if start <? 0 then Z.max (len + start) 0 else Z.min start len in
  let actualDeleteCount := Z.min (Z.max deleteCount 0) (len - actualStart) in
  take (Z.to_nat actualStart) l
    ++ drop (Z.to_nat (actualStart + actualDeleteCount)) l.

(** ** Names inherited from [Object.prototype]

    The store, the caches and the sections of a schema document are plain
    objects, made by [{}] or by [JSON.parse]: a read [o[k]] that finds no
    property [k] of [o] itself goes on in [Object.prototype], where it
    finds a function under each of the names below, and [Object.prototype]
    itself under [__proto__].  Every one of these members is truthy. *)
Definition object_prototype_names : list string :=
  [ "constructor"; "__proto__"; "hasOwnProperty"; "isPrototypeOf";
    "propertyIsEnumerable"; "toLocaleString"; "toString"; "valueOf";
    "__defineGetter__"; "__defineSetter__"; "__lookupGetter__";
    "__lookupSetter__" ].

(** [o] holds no property [k] of its own, and a read of [o[k]] finds the
    member of [Object.prototype]. *)
Definition inherits {A} (o : gmap string A) (k : string) : bool :=
  match o !! k with
  | Some _ => false
  | None => bool_decide (k ∈ object_prototype_names)
  end.

(** ** Assignment to a property

    [target[k] = v] in strict code (the body of a class is strict): a
    property of [null], of [undefined] or of a primitive cannot be set,
    which is a TypeError.  The arrays of the embedding are dense and have
    no named properties, so an assignment that would give an array a named
    property, set its [length] or leave a hole below the written index has
    no image: [None]. *)

Definition array_put (l : list value) (i : nat) (v : value)
  : option (list value) :=
  if decide (i < length l)%nat then Some (<[i := v]> l)
  else if decide (i = length l) then Some (l ++ [v])
  else None.

Definition set_prop (target : value) (k : string) (v : value)
  : option (outcome value) :=
  match target with
  | VObj o => Some (Ok (VObj (<[k := v]> o)))
  | VArr l => i ← index_of_key k; l' ← array_put l i v; Some (Ok (VArr l'))
  | _ => Some (Throw TypeError)
  end.

(** [target[i]] for a number [i] and a [target] that is neither [null] nor
    [undefined]. *)
Definition get_index (target : value) (i : nat) : value :=
  match target with
  | VArr l => default VUndefined (l !! i)
  | VObj o => default VUndefined (o !! pretty i)
  | VStr s => default VUndefined (char_value <$> String.get i s)
  | _ => VUndefined
  end.

(** [target[i] = v] for a number [i] *)
Definition set_index (target : value) (i : nat) (v : value)
  : option (outcome value) :=
  match target with
  | VArr l => l' ← array_put l i v; Some (Ok (VArr l'))
  | VObj o => Some (Ok (VObj (<[pretty i := v]> o)))
  | _ => Some (Throw TypeError)
  end.

(** Methods that assign to properties: [None] when an assignment has no
    image in the embedding. *)
Definition JSp (S A : Type) : Type := S → option (outcome A * S).

#[global] Instance JSp_ret {S} : MRet (JSp S) := λ A a s, Some (Ok a, s).
#[global] Instance JSp_bind {S} : MBind (JSp S) := λ A B f m s,
  match m s with
  | Some (Ok a, s') => f a s'
  | Some (Throw e, s') => Some (Throw e, s')
  | None => None
  end.

Definition covered {S A} (m : JS S A) : JSp S A := λ s, Some (m s).

Definition assigned {S} (r : option (outcome value)) : JSp S value :=
  λ s, match r with Some o => Some (o, s) | None => None end.

(** The method goes on with a member of [Object.prototype] in the place of
    a value of the embedding. *)
Definition no_image {S A} : JSp S A := λ _, None.

(** ** DataManager: the Form Data Store

    [formData] maps a schema name to that schema's Form Data Tree, an object.
    [saveToStorage] mirrors the map to [localStorage] inside a [try]/[catch]
    that swallows every failure; it never reads the mirror back and leaves
    [formData] alone. *)

Module DataManager.

Abbreviation tree := (gmap string value).
Abbreviation store := (gmap string (gmap string value)).

Definition saveToStorage : JS store unit := mret tt.

(** [this.formData[currentSchema] || {}] for a name that [formData] holds,
    or that it does not inherit: the tree under the name, the empty object
    when there is none. *)
Definition getFormDataForSchema (currentSchema : string) (fd : store) : tree :=
  default ∅ (fd !! currentSchema).

(** What [getFormDataForSchema] returns for any name: a tree, or the member
    of [Object.prototype] that [formData] inherits under the name. *)
Inductive returned : Type :=
  | Tree (t : tree)
  | Member (name : string).

(** [this.formData[currentSchema] || {}] for every name: [formData] is a
    plain object, and the member that it inherits is truthy, so it is the
    member that is returned. *)
Definition getFormDataForSchema_any (currentSchema : string) (fd : store)
  : returned :=
  if inherits fd currentSchema then Member currentSchema
  else Tree (default ∅ (fd !! currentSchema)).

(** [if (!this.formData[currentSchema]) this.formData[currentSchema] = {}] *)
Definition ensureSchema (currentSchema : string) : JS store tree :=
  fd ← get_state;
  match fd !! currentSchema with
  | Some t => mret t
  | None => put_state (<[currentSchema := ∅]> fd);; mret ∅
  end.

(** [this.formData[currentSchema][fieldName] = v], the schema entry being
    there. *)
Definition setField (currentSchema fieldName : string) (v : value)
  : JS store unit :=
  fd ← get_state;
  put_state (<[currentSchema := <[fieldName := v]> (default ∅ (fd !! currentSchema))]> fd).

(** [this.formData[currentSchema][fieldName]] *)
Definition field (t : tree) (fieldName : string) : value :=
  default VUndefined (t !! fieldName).

Definition updateFormData (currentSchema fieldName : string) (v : value)
  : JS store unit :=
  _ ← ensureSchema currentSchema;
  setField currentSchema fieldName v;;
  saveToStorage.

(** Under a schema name that [formData] inherits, the method goes on
    inside the member of [Object.prototype]: no image.  Under a field name
    that the tree inherits, the member is truthy, so no array is created,
    and it has no [push]. *)
Definition addArrayItem (currentSchema fieldName : string) (itemData : value)
  : JSp store nat :=
  fd ← covered get_state;
  if inherits fd currentSchema then no_image
  else
    t ← covered (ensureSchema currentSchema);
    if inherits t fieldName then covered (throw TypeError)
    else
      stored ← covered
                 (if truthy (field t fieldName) then mret (field t fieldName)
                  else setField currentSchema fieldName (VArr []);; mret (VArr []));
      match stored with
      | VArr l =>
          let itemIndex := length l in
          covered (setField currentSchema fieldName (VArr (l ++ [itemData]));;
                   saveToStorage;;
                   mret itemIndex)
      | _ => covered (throw TypeError) (* [push] is not a function *)
      end.

Definition removeArrayItem (currentSchema fieldName : string) (itemIndex : Z)
  : JS store unit :=
  fd ← get_state;
  let stored := t ← fd !! currentSchema; Some (field t fieldName) in
  match stored with
  | Some v =>
      if truthy v then
        match v with
        | VArr l =>
            setField currentSchema fieldName (VArr (splice l itemIndex 1));;
            saveToStorage
        | _ => throw TypeError (* [splice] is not a function *)
        end
      else mret tt
  | None => mret tt
  end.

(** The array that [addArrayItem] and [updateArrayItemData] find under a
    field: the stored array, the empty one when nothing (or a falsy value)
    is found, and [None] when something else is found, be it stored or a
    member of [Object.prototype] that the schema name or the field name
    inherits. *)
Definition stored_items (fd : store) (currentSchema fieldName : string)
  : option (list value) :=
  if inherits fd currentSchema
     || inherits (getFormDataForSchema currentSchema fd) fieldName
  then None
  else
    let v := field (getFormDataForSchema currentSchema fd) fieldName in
    if truthy v then match v with VArr l => Some l | _ => None end
    else Some [].

(** [Initialize with default values if not already set]: the field is
    overwritten unless it already holds an object. *)
Definition initializeUnionFormData (currentSchema fieldName : string)
    (schema : value) : JS store unit :=
  t ← ensureSchema currentSchema;
  (if negb (truthy (field t fieldName)) || negb (typeof_object (field t fieldName))
   then
     default_values ← lift (get schema "default_values");
     setField currentSchema fieldName
       (VObj (spread (or_else default_values (VObj ∅))))
   else mret tt);;
  saveToStorage.

(** What [exportData] returns. *)
Record export_file : Type := {
  content : string;
  filename : string;
  mimeType : string
}.

(** The part of [s] before its first ['T']: [s.split('T')[0]]. *)
Fixpoint before_T (s : string) : string :=
  match s with
  | EmptyString => EmptyString
  | String c s' => if Ascii.eqb c "T" then EmptyString else String c (before_T s')
  end.

Section JSON.

(** The platform's JSON text codec: [JSON.stringify(v, null, 2)] for an
    object [v], and [JSON.parse], [None] standing for its SyntaxError.
    [convertToCSV] is the exporter of the other format. *)
Variable JSON_stringify : value → string.
Variable JSON_parse : string → option value.
Variable convertToCSV : gmap string value → string.

(** [now] and [today] are the two readings of the clock,
    [new Date().toISOString()], in their order. *)
Definition exportData (now today : string) (currentSchema format : string)
  : JS store export_file :=
  fd ← get_state;
  let data := getFormDataForSchema currentSchema fd in
  if bool_decide (size data = 0%nat) then throw (Error "No data to export")
  else
    let exportData := VObj (<["timestamp" := VStr now]>
                           (<["workflow_name" := VStr currentSchema]>
                           (<["form_data" := VObj data]> ∅))) in
    let fmt := toLowerCase format in
    if String.eqb fmt "json" then
      mret {| content := JSON_stringify exportData;
              filename := currentSchema +:+ "-data-" +:+ before_T today +:+ ".json";
              mimeType := "application/json" |}
    else if String.eqb fmt "csv" then
      mret {| content := convertToCSV data;
              filename := currentSchema +:+ "-data-" +:+ before_T today +:+ ".csv";
              mimeType := "text/csv" |}
    else throw (Error ("Unsupported export format: " +:+ format)).

(** [mergeStrategy] is [None] when the argument is left out: the default
    ['replace'] applies. *)
Definition importData (currentSchema : string) (importedData : value)
    (mergeStrategy : option string) : JS store unit :=
  let mergeStrategy := default "replace" mergeStrategy in
  if negb (truthy importedData) then throw (Error "No data provided for import")
  else
    dataToImport ←
      match importedData with
      | VStr text =>
          match JSON_parse text with
          | Some v => mret v
          | None => throw (Error "Invalid JSON format")
          end
      | _ => mret importedData
      end;
    form_data ← lift (get dataToImport "form_data");
    let dataToImport := if truthy form_data then form_data else dataToImport in
    (if String.eqb mergeStrategy "replace" then
       fd ← get_state;
       put_state (<[currentSchema := spread dataToImport]> fd)
     else if String.eqb mergeStrategy "merge" then
       t ← ensureSchema currentSchema;
       fd ← get_state;
       put_state (<[currentSchema := spread dataToImport ∪ t]> fd)
     else throw (Error ("Unsupported merge strategy: " +:+ mergeStrategy)));;
    saveToStorage.


End JSON.

End DataManager.

(** ** ImprovedDynamicFormGenerator: reference resolution *)

Module ImprovedDynamicFormGenerator.

(** The fields of the generator that resolution reads and writes:
    [rawSchema] is [null] until a schema is loaded, [referenceCache] is a
    [Map] from [$ref] strings to resolved definitions.  [log] only writes to
    the console. *)
Record generator : Type := {
  rawSchema : value;
  referenceCache : gmap string value
}.

(** The loop over the name variations: [schemas] first, then
    [definitions], for each variation in turn.  The two sections are read by
    the properties that they hold; [plain_name] below says for which names
    this is what the code finds. *)
Fixpoint findVariation (raw : value) (variations : list string)
  : outcome (option value) :=
  match variations with
  | [] => Ok None
  | variation :: rest =>
      match get raw "schemas" with
      | Throw e => Throw e
      | Ok schemas =>
          if truthy (get_opt schemas variation) then Ok (Some (get_own schemas variation))
          else
            match get raw "definitions" with
            | Throw e => Throw e
            | Ok definitions =>
                if truthy (get_opt definitions variation)
                then Ok (Some (get_own definitions variation))
                else findVariation raw rest
            end
      end
  end.

Definition variations (defName : string) : list string :=
  [ defName;
    "RootModel_" +:+ defName;
    replace_first "RootModel_" defName;
    camelToSnake defName;
    snakeToCamel defName ].

(** [findInDefinitions] reads [this.rawSchema] and nothing else. *)
Definition findInDefinitions (raw : value) (defName : string) : outcome value :=
  match get raw "definitions" with
  | Throw e => Throw e
  | Ok definitions =>
      if truthy (get_opt definitions defName) then Ok (get_own definitions defName)
      else
        match get raw "schemas" with
        | Throw e => Throw e
        | Ok schemas =>
            if truthy (get_opt schemas defName) then Ok (get_own schemas defName)
            else
              match findVariation raw (variations defName) with
              | Throw e => Throw e
              | Ok (Some found) => Ok found
              | Ok None => Ok VNull
              end
        end
  end.

(** The four branches of [resolveReference] after the cache lookup. *)
Definition lookupReference (raw : value) (ref : string) : outcome value :=
  if startsWith ref "#/$defs/" then
    findInDefinitions raw (replace_first "#/$defs/" ref)
  else if startsWith ref "#/definitions/" then
    findInDefinitions raw (replace_first "#/definitions/" ref)
  else if startsWith ref "#/schemas/" then
    match get raw "schemas" with
    | Throw e => Throw e
    | Ok schemas => Ok (get_opt schemas (replace_first "#/schemas/" ref))
    end
  else
    let refName := strip_pointer_path ref in
    match get raw "schemas" with
    | Throw e => Throw e
    | Ok schemas =>
        if truthy (get_opt schemas refName) then Ok (get_opt schemas refName)
        else findInDefinitions raw refName
    end.

Definition resolveReference (ref : string) : JS generator value :=
  g ← get_state;
  match referenceCache g !! ref with
  | Some cached => mret cached
  | None =>
      resolvedSchema ← lift (lookupReference (rawSchema g) ref);
      (if truthy resolvedSchema then
         put_state {| rawSchema := rawSchema g;
                      referenceCache := <[ref := resolvedSchema]> (referenceCache g) |}
       else mret tt);;
      mret resolvedSchema
  end.

Definition first_match (candidates : list value) : value :=
  default VNull (head (filter (λ v, truthy v = true) candidates)).

(** The names on which the lookups above are those of the code.  [schemas]
    and [definitions] are plain objects, read here by their own properties:
    under the name of a member of [Object.prototype] the code finds that
    member, so neither the name nor one of its variations may be such a
    name.  And [toLowerCase] is the conversion of the ASCII letters here,
    so the name is made of ASCII characters. *)
Definition plain_name (defName : string) : Prop :=
  all_chars is_ascii defName = true
  ∧ Forall (λ variation, variation ∉ object_prototype_names) (variations defName).

(** The places [findInDefinitions] looks at, in its order, in a loaded
    schema document. *)
Definition candidates (raw : value) (defName : string) : list value :=
  let definitions := get_own raw "definitions" in
  let schemas := get_own raw "schemas" in
  get_opt definitions defName :: get_opt schemas defName
    :: flat_map (λ variation, [get_opt schemas variation; get_opt definitions variation])
         (variations defName).

(** The resolver as section 4.1 of the specification words it: strip the
    known path prefix to obtain a bare name, look the bare name up in the
    model map, then retry with the name variants in order; the first match
    wins and not-found is [null]. *)
Definition spec_bare_name (ref : string) : string :=
  if startsWith ref "#/$defs/" then string_drop 8 ref
  else if startsWith ref "#/definitions/" then string_drop 14 ref
  else if startsWith ref "#/schemas/" then string_drop 10 ref
  else ref.

Definition spec_resolve (doc : value) (ref : string) : value :=
  let name := spec_bare_name ref in
  let models := get_opt doc "schemas" in
  first_match (get_opt models <$> name :: variations name).

End ImprovedDynamicFormGenerator.

(** ** DynamicWorkflowManager: selecting a union variant *)

Module DynamicWorkflowManager.

(** The fields of the manager that the selection of a union option reads
    and writes.  [dataManager] is [None] while the dependency is [null].
    [currentSchema] is the name of the selected workflow, as it is used for
    a property key.
    [fieldCache] holds, under the key [<schema>_<field>_union], the record
    [{ field, unionOptions, allSchemas }] that [generateUnionSelectField]
    saved.  [dom] gives the [innerHTML] of the elements of the page by their
    [id]. *)
Record manager : Type := {
  dataManager : option (gmap string (gmap string value));
  currentSchema : string;
  schemaCache : gmap string value;
  fieldCache : gmap string value;
  dom : gmap string string
}.

Definition set_dataManager (fd : gmap string (gmap string value)) (m : manager)
  : manager :=
  {| dataManager := Some fd; currentSchema := currentSchema m;
     schemaCache := schemaCache m; fieldCache := fieldCache m; dom := dom m |}.

Definition set_dom (d : gmap string string) (m : manager) : manager :=
  {| dataManager := dataManager m; currentSchema := currentSchema m;
     schemaCache := schemaCache m; fieldCache := fieldCache m; dom := d |}.

(** [if (this.dataManager) { this.dataManager.method(...) }] *)
Definition delegate (method : JS (gmap string (gmap string value)) unit)
  : JS manager unit :=
  λ m, match dataManager m with
       | Some fd => let '(r, fd') := method fd in (r, set_dataManager fd' m)
       | None => (Ok tt, m)
       end.

Definition updateFormData (fieldName : string) (v : value) : JS manager unit :=
  m ← get_state;
  delegate (DataManager.updateFormData (currentSchema m) fieldName v).

Definition initializeUnionFormData (fieldName : string) (schema : value)
  : JS manager unit :=
  m ← get_state;
  delegate (DataManager.initializeUnionFormData (currentSchema m) fieldName schema).

(** [unionOptions.find(option => option.value === selectedValue)] on the
    items of an array. *)
Fixpoint find_option (options : list value) (selectedValue : string)
  : outcome value :=
  match options with
  | [] => Ok VUndefined
  | option :: rest =>
      match get option "value" with
      | Throw e => Throw e
      | Ok v => if strict_eq_string v selectedValue then Ok option
                else find_option rest selectedValue
      end
  end.

(** Lines 1009 to 1038 of [renderUnionFields]: the schema of the selected
    option, [None] for each of the early [return]s. *)
Definition selectedUnionSchema (m : manager) (fieldName selectedValue : string)
  : outcome (option value) :=
  let fieldKey := currentSchema m +:+ "_" +:+ fieldName +:+ "_union" in
  let cachedData := default VUndefined (fieldCache m !! fieldKey) in
  if negb (truthy cachedData) then Ok None
  else
    let unionOptions := get_own cachedData "unionOptions" in
    let allSchemas := get_own cachedData "allSchemas" in
    match unionOptions with
    | VArr options =>
        match find_option options selectedValue with
        | Throw e => Throw e
        | Ok selectedOption =>
            if negb (truthy selectedOption) then Ok None
            else
              let schemaRef := get_own selectedOption "schema_ref" in
              if negb (truthy schemaRef) then Ok None
              else
                match schemaRef with
                | VStr ref =>
                    let schemaName := last_segment ref in
                    match get allSchemas schemaName with
                    | Throw e => Throw e
                    | Ok direct =>
                        let selectedSchema :=
                          or_else direct
                            (or_else
                               (get_opt (get_opt (get_own allSchemas "RootModel")
                                                 "definitions") schemaName)
                               (get_opt
                                  (get_opt
                                     (get_opt
                                        (get_opt
                                           (default VUndefined
                                              (schemaCache m !! currentSchema m))
                                           "schemas")
                                        "RootModel")
                                     "definitions")
                                  schemaName)) in
                        if negb (truthy selectedSchema) then Ok None
                        else Ok (Some selectedSchema)
                    end
                | _ => Throw TypeError (* [split] is not a function *)
                end
        end
    | _ => Throw TypeError (* [find] is not a function *)
    end.

(** Whatever happens to the store between two selections, the edits of
    the fields of the selected variant among the rest. *)
Definition edit_store
    (edits : gmap string (gmap string value) → gmap string (gmap string value))
    (m : manager) : manager :=
  match dataManager m with
  | Some fd => set_dataManager (edits fd) m
  | None => m
  end.

Section Rendering.

(** The markup of the fields of a variant, or the exception that building
    it raised. *)
Variable generateUnionSchemaFields : string → value → value → outcome string.

Definition renderUnionFields (fieldName selectedValue : string)
  : JS manager unit :=
  try_catch
    (m ← get_state;
     found ← lift (selectedUnionSchema m fieldName selectedValue);
     match found with
     | None => mret tt
     | Some selectedSchema =>
         let cachedData :=
           default VUndefined
             (fieldCache m !! (currentSchema m +:+ "_" +:+ fieldName +:+ "_union")) in
         let allSchemas := get_own cachedData "allSchemas" in
         let container := "union-fields-" +:+ fieldName in
         (if bool_decide (is_Some (dom m !! container))
          then put_state (set_dom (<[container := ""]> (dom m)) m)
          else mret tt);;
         fieldsHtml ← lift (generateUnionSchemaFields fieldName selectedSchema allSchemas);
         m' ← get_state;
         (if bool_decide (is_Some (dom m' !! container))
          then put_state (set_dom (<[container := fieldsHtml]> (dom m')) m')
          else mret tt);;
         initializeUnionFormData fieldName selectedSchema
     end)
    (λ _, mret tt).

(** The marking of the clicked option card is left out: it touches the
    classes of the cards only. *)
Definition selectUnionOption (fieldName selectedValue : string)
  : JS manager unit :=
  updateFormData fieldName (VStr selectedValue);;
  renderUnionFields fieldName selectedValue.

(** What the store holds for a field of the current schema. *)
Definition stored (m : manager) (fieldName : string) : option value :=
  fd ← dataManager m; t ← fd !! currentSchema m; t !! fieldName.

(** The default fields a variant declares: what [{ ...(schema.default_values
    || {}) }] copies. *)
Definition declared_defaults (schema : value) : gmap string value :=
  spread (or_else (get_own schema "default_values") (VObj ∅)).

(** The entry of the [fieldCache] that [renderUnionFields] reads for a
    field. *)
Definition cached_union (m : manager) (fieldName : string) : value :=
  default VUndefined
    (fieldCache m !! (currentSchema m +:+ "_" +:+ fieldName +:+ "_union")).

(** The options of a cached entry name their schemas by names that a plain
    object does not inherit: [allSchemas[schemaName]] then finds what
    [allSchemas] holds and nothing else. *)
Definition plain_refs (cachedData : value) : bool :=
  match get_own cachedData "unionOptions" with
  | VArr options =>
      forallb (λ option,
                 match get_own option "schema_ref" with
                 | VStr ref =>
                     negb (bool_decide (last_segment ref ∈ object_prototype_names))
                 | _ => true
                 end) options
  | _ => true
  end.

(** What the selection of an option leaves under the field: the declared
    defaults of the schema of the option when that schema is found and its
    fields are rendered, the bare value of the option in every other
    case. *)
Definition variant_data (m : manager) (fieldName selectedValue : string)
  : value :=
  match selectedUnionSchema m fieldName selectedValue with
  | Ok (Some selectedSchema) =>
      match generateUnionSchemaFields fieldName selectedSchema
              (get_own (cached_union m fieldName) "allSchemas") with
      | Ok _ => VObj (declared_defaults selectedSchema)
      | Throw _ => VStr selectedValue
      end
  | _ => VStr selectedValue
  end.

End Rendering.

End DynamicWorkflowManager.

(** ** ArrayManager: fetching a schema *)

Module ArrayManager.

(** What [fetch] and [response.json()] come to: the request fails, or a
    response arrives with its status and its body, [None] for a body that
    is not JSON. *)
Inductive fetched : Type :=
  | NetworkError
  | Response (status : Z) (json : option value).

(** [response.ok] *)
Definition ok (status : Z) : bool := (200 <=? status) && (status <=? 299).

Record arrayManager : Type := {
  schemaCache : gmap string value;
  API_BASE_URL : string
}.

Section Network.

(** The network, by URL. *)
Variable fetch : string → fetched.

(** [schemaCache] is a plain object: under a name that it inherits,
    [this.schemaCache[workflowName]] is a member of [Object.prototype],
    which is truthy and is returned in the place of a schema, without a
    fetch: no image. *)
Definition fetchSchema (workflowName : string) : JSp arrayManager value :=
  a ← covered get_state;
  if inherits (schemaCache a) workflowName then no_image
  else
    let cached := default VUndefined (schemaCache a !! workflowName) in
    if truthy cached then mret cached
    else
      covered
        (try_catch
           (match fetch (API_BASE_URL a +:+ "/schema/" +:+ workflowName +:+ "/") with
            | NetworkError => throw TypeError
            | Response status body =>
                if negb (ok status)
                then throw (Error ("HTTP error! status: " +:+ pretty status))
                else
                  match body with
                  | None => throw SyntaxError
                  | Some schema =>
                      put_state {| schemaCache := <[workflowName := schema]> (schemaCache a);
                                   API_BASE_URL := API_BASE_URL a |};;
                      mret schema
                  end
            end)
           (λ _, throw (Error ("Schema fetch failed: " +:+ workflowName)))).

End Network.

End ArrayManager.

(** ** DataManager: the other mutators of the store

    The mutators under names of schemas, fields and properties that the
    objects hold or do not inherit, and that are not [__proto__] where they
    are assigned to. *)

Module DataManagerFields.
Import DataManager.

Definition initializeFormData (currentSchema : string) (model : value)
  : JS store unit :=
  t ← ensureSchema currentSchema;
  default_values ← lift (get model "default_values");
  (if truthy default_values then
     (* [Object.assign(this.formData[currentSchema], model.default_values)] *)
     fd ← get_state;
     put_state (<[currentSchema := spread default_values ∪ t]> fd)
   else mret tt);;
  saveToStorage.

(** [if (currentSchema)] holds for every name but the empty one. *)
Definition resetFormData (currentSchema : string) : JS store unit :=
  (if negb (String.eqb currentSchema "") then
     fd ← get_state;
     put_state (<[currentSchema := ∅]> fd)
   else mret tt);;
  saveToStorage.

Definition clearAll : JS store unit :=
  put_state ∅;;
  saveToStorage.

(** [if (!this.formData[cs]) this.formData[cs] = {};
     if (!this.formData[cs][f]) this.formData[cs][f] = init],
    and what is then found under the field. *)
Definition ensureField (currentSchema fieldName : string) (init : value)
  : JS store value :=
  t ← ensureSchema currentSchema;
  if truthy (field t fieldName) then mret (field t fieldName)
  else setField currentSchema fieldName init;; mret init.


Definition updateUnionFieldData
    (currentSchema parentFieldName propName : string) (v : value)
  : JSp store unit :=
  parent ← covered (ensureField currentSchema parentFieldName (VObj ∅));
  parent' ← assigned (set_prop parent propName v);
  covered (setField currentSchema parentFieldName parent';; saveToStorage).

(** The opening of the methods on an array item: the schema, the field and
    the item at [itemIndex] are created when they are missing.  Returns what
    the field holds and the item. *)
Definition ensureArrayItem (currentSchema fieldName : string) (itemIndex : nat)
  : JSp store (value * value) :=
  items ← covered (ensureField currentSchema fieldName (VArr []));
  if truthy (get_index items itemIndex) then mret (items, get_index items itemIndex)
  else
    items' ← assigned (set_index items itemIndex (VObj ∅));
    covered (setField currentSchema fieldName items');;
    mret (items', VObj ∅).

Definition updateArrayItemData (currentSchema fieldName : string)
    (itemIndex : nat) (propName : string) (v : value) : JSp store unit :=
  '(items, item) ← ensureArrayItem currentSchema fieldName itemIndex;
  items' ← (if String.eqb propName "" then assigned (set_index items itemIndex v)
            else
              item' ← assigned (set_prop item propName v);
              assigned (set_index items itemIndex item'));
  covered (setField currentSchema fieldName items';; saveToStorage).

(** [item[parentPropName][nestedPropName] = v], the object under
    [parentPropName] being created when nothing is there.  An object that
    is already there is written in place, and the items that were made
    from one [default_values] share the objects nested in it: values are
    trees here, so what such a write does to the other items has no image,
    and the statements about this assignment keep to the objects that the
    call creates or that belong to one item. *)
Definition assign_nested (item : value) (parentPropName nestedPropName : string)
    (v : value) : option (outcome value) :=
  let nested := get_own item parentPropName in
  match (if truthy nested then Some (Ok item)
         else set_prop item parentPropName (VObj ∅)) with
  | Some (Ok item1) =>
      match set_prop (get_own item1 parentPropName) nestedPropName v with
      | Some (Ok nested') => set_prop item1 parentPropName nested'
      | r => r
      end
  | r => r
  end.

Definition updateArrayItemNestedObjectFieldData (currentSchema fieldName : string)
    (itemIndex : nat) (parentPropName nestedPropName : string) (v : value)
  : JSp store unit :=
  '(items, item) ← ensureArrayItem currentSchema fieldName itemIndex;
  item' ← assigned (assign_nested item parentPropName nestedPropName v);
  items' ← assigned (set_index items itemIndex item');
  covered (setField currentSchema fieldName items';; saveToStorage).


Definition initializeArrayItemUnionFormData (currentSchema fieldName : string)
    (itemIndex : nat) (propName : string) (schema : value) : JSp store unit :=
  '(items, item) ← ensureArrayItem currentSchema fieldName itemIndex;
  (if negb (truthy (get_own item propName))
      || negb (typeof_object (get_own item propName))
   then
     default_values ← covered (lift (get schema "default_values"));
     item' ← assigned (set_prop item propName
                         (VObj (spread (or_else default_values (VObj ∅)))));
     items' ← assigned (set_index items itemIndex item');
     covered (setField currentSchema fieldName items')
   else mret tt);;
  covered saveToStorage.

(** What the store holds under a property of an item of an array field. *)
Definition stored_item (fd : store) (currentSchema fieldName : string)
    (itemIndex : nat) : option value :=
  t ← fd !! currentSchema;
  match t !! fieldName with
  | Some (VArr l) => l !! itemIndex
  | _ => None
  end.

End DataManagerFields.

(** ** Names in camel case and in snake case *)

(** A match of [/_([a-z])/] somewhere in [s]. *)
Fixpoint has_underscore_lower (s : string) : bool :=
  match s with
  | EmptyString => false
  | String c s' =>
      (Ascii.eqb c "_" && match s' with
                          | String d _ => is_lower d
                          | EmptyString => false
                          end)
      || has_underscore_lower s'
  end.

(** [s] starts with the character [c]. *)
Definition starts_with_char (p : ascii → bool) (s : string) : bool :=
  match s with
  | String c _ => p c
  | EmptyString => false
  end.

(** ** ImprovedDynamicFormGenerator: schema checks and component mapping *)

Module SchemaAnalysis.
Import ImprovedDynamicFormGenerator.

(** [Object.keys(v).length] for a [v] that is not [null] or [undefined]:
    the own properties of an object, the indices of an array or of a
    string. *)
Definition keys_count (v : value) : nat :=
  match v with
  | VObj o => size o
  | VArr l => length l
  | VStr s => String.length s
  | _ => 0%nat
  end.

(** What [validateSchemaIntegrity] returns. *)
Record validation : Type := {
  isValid : bool;
  errors : list string
}.

Definition validateSchemaIntegrity (schema : value) : validation :=
  if negb (truthy schema) || negb (typeof_object schema) then
    {| isValid := false; errors := ["Schema must be a valid object"] |}
  else
    let errors1 :=
      if negb (truthy (get_own schema "workflow_name"))
      then ["Schema must have a workflow_name"] else [] in
    let schemas := get_own schema "schemas" in
    let errors2 :=
      if negb (truthy schemas) || negb (typeof_object schemas)
      then ["Schema must have a schemas object"]
      else if bool_decide (keys_count schemas = 0%nat)
           then ["Schema must contain at least one model definition"]
           else [] in
    {| isValid := bool_decide (length (errors1 ++ errors2) = 0%nat);
       errors := errors1 ++ errors2 |}.

(** [this.rawSchema = schema], the first statement of [generateForm]: the
    cache of resolved references is kept as it is. *)
Definition load (schema : value) (g : generator) : generator :=
  {| rawSchema := schema; referenceCache := referenceCache g |}.

Fixpoint literal_lookup (m : list (string * string)) (k : string) : value :=
  match m with
  | [] => VUndefined
  | (k', v) :: rest => if String.eqb k' k then VStr v else literal_lookup rest k
  end.

(** [m[k]] for an object literal [m] whose properties have names that are
    neither numbers nor one of ["undefined"], ["null"], ["true"], ["false"],
    ["NaN"]: a key [k] that is a scalar other than a string names no
    property.  A string that names a member of [Object.prototype] finds a
    function, and the key of an array or of an object goes through its own
    conversion to a string: these two have no image, [None]. *)
Definition literal_get (m : list (string * string)) (k : value) : option value :=
  match k with
  | VStr s =>
      if bool_decide (s ∈ object_prototype_names) then None
      else Some (literal_lookup m s)
  | VArr _ | VObj _ => None
  | _ => Some VUndefined
  end.

Definition componentMap : list (string * string) :=
  [ ("text_input", "text"); ("number_input", "number");
    ("textarea", "textarea"); ("select", "select");
    ("checkbox", "checkbox"); ("radio", "radio");
    ("date_input", "date"); ("email_input", "email");
    ("url_input", "url"); ("array", "dynamic-array");
    ("union_select", "select") ].

Definition mapUIComponent (fieldDef : value) : option (outcome value) :=
  match fieldDef with
  | VUndefined | VNull => Some (Throw TypeError)
  | _ =>
      let uiComponent := get_own fieldDef "ui_component" in
      let type := get_own fieldDef "type" in
      let format := get_own fieldDef "format" in
      mapped ← literal_get componentMap uiComponent;
      if truthy mapped then Some (Ok mapped)
      else if strict_eq_string type "string" then
        if strict_eq_string format "email" then Some (Ok (VStr "email"))
        else if strict_eq_string format "date" then Some (Ok (VStr "date"))
        else if strict_eq_string format "url" then Some (Ok (VStr "url"))
        else if strict_eq_string format "textarea" then Some (Ok (VStr "textarea"))
        else Some (Ok (VStr "text"))
      else if strict_eq_string type "number" || strict_eq_string type "integer"
      then Some (Ok (VStr "number"))
      else if strict_eq_string type "boolean" then Some (Ok (VStr "checkbox"))
      else if strict_eq_string type "array" then Some (Ok (VStr "dynamic-array"))
      else if truthy (get_own fieldDef "enum") then Some (Ok (VStr "select"))
      else Some (Ok (VStr "text"))
  end.

Definition inputTypeMap : list (string * string) :=
  [ ("text", "text"); ("number", "number"); ("email", "email");
    ("date", "date"); ("url", "url"); ("checkbox", "checkbox");
    ("radio", "radio") ].

Definition mapInputType (fieldDef : value) : option (outcome value) :=
  match mapUIComponent fieldDef with
  | Some (Ok component) =>
      mapped ← literal_get inputTypeMap component;
      Some (Ok (or_else mapped (VStr "text")))
  | r => r
  end.

(** The keys for which [literal_get] has an image. *)
Definition plain_key (k : value) : bool :=
  match k with
  | VStr s => negb (bool_decide (s ∈ object_prototype_names))
  | VArr _ | VObj _ => false
  | _ => true
  end.

(** The values of the [type] attribute that [mapInputType] produces. *)
Definition input_types : list string :=
  [ "text"; "number"; "email"; "date"; "url"; "checkbox"; "radio" ].

End SchemaAnalysis.

(** ** Collecting form data from the page, checking the items of an array *)

Module FormCollection.

(** [s.split(sep)] for a separator of one character: never empty. *)
Fixpoint split_on (sep : ascii) (s : string) : list string :=
  match s with
  | EmptyString => [EmptyString]
  | String c s' =>
      if Ascii.eqb c sep then EmptyString :: split_on sep s'
      else match split_on sep s' with
           | first :: rest => String c first :: rest
           | [] => [String c EmptyString]
           end
  end.

(** [parts.join(sep)] *)
Fixpoint join (sep : string) (parts : list string) : string :=
  match parts with
  | [] => EmptyString
  | [part] => part
  | part :: rest => part +:+ sep +:+ join sep rest
  end.

(** [DynamicWorkflowManager.parseFieldNameFromId] *)
Definition parseFieldNameFromId (elementId : string) : string :=
  if startsWith elementId "field-" then replace_first "field-" elementId
  else if startsWith elementId "nested-" then
    join "." (split_on "-" (replace_first "nested-" elementId))
  else
    let parts := split_on "-" elementId in
    if bool_decide (2 ≤ length parts)%nat then default elementId (list.last parts)
    else elementId.

(** The loop and the last assignment of [setNestedValue], on the keys that
    are left: an object is put under a key that holds nothing or holds a
    scalar, and the walk goes on inside what the key holds.  A member of
    [Object.prototype] that is found under a key is a function, which is
    not of type ['object'], so it is replaced as a scalar is.  The key
    [__proto__] is the exception: it reads and sets the prototype of the
    object, the walk goes on inside [Object.prototype] and the assignment
    lands there or is dropped, which has no image. *)
Fixpoint set_path (current : value) (keys : list string) (v : value)
  : option (outcome value) :=
  match keys with
  | [] => Some (Ok current)
  | [key] =>
      if String.eqb key "__proto__" then None else set_prop current key v
  | key :: rest =>
      if String.eqb key "__proto__" then None
      else
        match (if negb (truthy (get_own current key))
                  || negb (typeof_object (get_own current key))
               then set_prop current key (VObj ∅)
               else Some (Ok current)) with
        | Some (Ok current1) =>
            match set_path (get_own current1 key) rest v with
            | Some (Ok child) => set_prop current1 key child
            | r => r
            end
        | r => r
        end
  end.

(** [DynamicWorkflowManager.setNestedValue]: the object after the call. *)
Definition setNestedValue (obj : value) (path : string) (v : value)
  : option (outcome value) :=
  set_path obj (split_on "." path) v.

(** [obj[k1][k2]...], [undefined] as soon as a step finds nothing. *)
Fixpoint get_path (obj : value) (keys : list string) : value :=
  match keys with
  | [] => obj
  | key :: rest => get_path (get_opt obj key) rest
  end.

(** No array is met on the way along the keys, the last one apart. *)
Fixpoint no_array_on (current : value) (keys : list string) : bool :=
  match keys with
  | [] | [_] => true
  | key :: rest =>
      match get_own current key with
      | VArr _ => false
      | child => no_array_on child rest
      end
  end.

(** [typeof item === 'object' && item !== null
     && Object.keys(item).length === 0] *)
Definition is_empty_item (item : value) : bool :=
  match item with
  | VObj o => bool_decide (size o = 0%nat)
  | VArr l => bool_decide (length l = 0%nat)
  | _ => false
  end.

(** [ArrayManager.validateArrayData] *)
Definition validateArrayData (currentSchema fieldName : string) (data : value)
  : SchemaAnalysis.validation :=
  match data with
  | VArr l =>
      let errors :=
        omap id (imap (λ index item,
                         if is_empty_item item
                         then Some (fieldName +:+ "[" +:+ pretty index +:+ "] is empty")
                         else None) l) in
      {| SchemaAnalysis.isValid := bool_decide (length errors = 0%nat);
         SchemaAnalysis.errors := errors |}
  | _ =>
      {| SchemaAnalysis.isValid := false;
         SchemaAnalysis.errors := [fieldName +:+ " must be an array"] |}
  end.

End FormCollection.

(** ** DynamicWorkflowManager and ArrayManager: loading a schema, adding an
    item

    The two managers work on the same objects: the [DataManager], the
    [schemaCache] and the [fieldCache] of the workflow manager are handed to
    the array manager when it is built, so one state stands for both.  The
    fields that only hold markup and flags for the page ([formTitle],
    [dynamicFormHtml], [showFormHeader], [showFormActions]) are written and
    never read by the methods below: they are left out, and so is the
    markup that [addArrayItem] inserts into the page.  The timers that the
    methods start fire after the method has ended and are not part of it.
    A method that waits for the network is followed from its start to its
    end: what other handlers do to the state while it waits is not part of
    it either. *)

Module WorkflowPage.
Import DynamicWorkflowManager.

Definition set_currentSchema (name : string) (m : manager) : manager :=
  {| dataManager := dataManager m; currentSchema := name;
     schemaCache := schemaCache m; fieldCache := fieldCache m; dom := dom m |}.

Definition set_schemaCache (c : gmap string value) (m : manager) : manager :=
  {| dataManager := dataManager m; currentSchema := currentSchema m;
     schemaCache := c; fieldCache := fieldCache m; dom := dom m |}.

Definition set_fieldCache (c : gmap string value) (m : manager) : manager :=
  {| dataManager := dataManager m; currentSchema := currentSchema m;
     schemaCache := schemaCache m; fieldCache := c; dom := dom m |}.

(** Both constructors set this address. *)
Definition API_BASE_URL : string :=
  "http://localhost:8000/api/v1/custom-workflows".

(** [str.replace(/_/g, ' ')] *)
Fixpoint underscores_to_spaces (s : string) : string :=
  match s with
  | EmptyString => EmptyString
  | String c s' =>
      String (if Ascii.eqb c "_" then " "%char else c) (underscores_to_spaces s')
  end.

(** [\w] *)
Definition is_word (c : ascii) : bool :=
  let n := N_of_ascii c in
  is_upper c || is_lower c || ((48 <=? n) && (n <=? 57))%N || Ascii.eqb c "_".

(** [str.replace(/\b\w/g, l => l.toUpperCase())]: the first character of
    each run of word characters is put in upper case.  [prev] tells whether
    the character before is a word character. *)
Fixpoint capitalize_words (prev : bool) (s : string) : string :=
  match s with
  | EmptyString => EmptyString
  | String c s' =>
      String (if is_word c && negb prev then upper_ascii c else c)
             (capitalize_words (is_word c) s')
  end.

Definition getSchemaTitle (schema : value) (workflowName : string)
  : outcome value :=
  match get schema "title" with
  | Throw e => Throw e
  | Ok title =>
      if truthy title && negb (strict_eq_string title "RootModel") then Ok title
      else Ok (VStr (capitalize_words false (underscores_to_spaces workflowName)))
  end.

(** [DynamicWorkflowManager.initializeFormData] *)
Definition initializeFormData (model : value) : JS manager unit :=
  m ← get_state;
  delegate (DataManagerFields.initializeFormData (currentSchema m) model).

(** [DynamicWorkflowManager.resetFormData] *)
Definition resetFormData : JS manager unit :=
  m ← get_state;
  delegate (DataManagerFields.resetFormData (currentSchema m)).

(** [try { body } catch (error) { handler }] for the methods that assign to
    properties. *)
Definition try_catch_p {S A} (body : JSp S A) (handler : exn → JSp S A)
  : JSp S A :=
  λ s, match body s with
       | Some (Ok a, s') => Some (Ok a, s')
       | Some (Throw e, s') => handler e s'
       | None => None
       end.

(** [this.dataManager.method(...)] without a test of [this.dataManager]:
    a TypeError when it is [null]. *)
Definition on_dataManager {A} (method : JSp (gmap string (gmap string value)) A)
  : JSp manager A :=
  λ m, match dataManager m with
       | Some fd =>
           match method fd with
           | Some (r, fd') => Some (r, set_dataManager fd' m)
           | None => None
           end
       | None => Some (Throw TypeError, m)
       end.

Section Loading.

(** The network, by URL. *)
Variable fetch : string → ArrayManager.fetched.

(** The generation of markup: [generateFormFromSchema model allSchemas] and
    [generateArrayItemHtml currentSchema fieldName itemIndex itemSchema
    allSchemas] read the manager, give the markup or throw, and leave their
    entries in the [fieldCache], which is what they return with the
    outcome. *)
Variable generateFormFromSchema :
  manager → value → value → outcome string * gmap string value.
Variable generateArrayItemHtml :
  manager → string → string → nat → value → value
  → outcome string * gmap string value.

(** [fetchSchema], the same in both managers, under a name that
    [schemaCache] holds or does not inherit. *)
Definition fetchSchema (workflowName : string) : JS manager value :=
  m ← get_state;
  let cached := default VUndefined (schemaCache m !! workflowName) in
  if truthy cached then mret cached
  else
    try_catch
      (match fetch (API_BASE_URL +:+ "/schema/" +:+ workflowName +:+ "/") with
       | ArrayManager.NetworkError => throw TypeError
       | ArrayManager.Response status body =>
           if negb (ArrayManager.ok status)
           then throw (Error ("HTTP error! status: " +:+ pretty status))
           else
             match body with
             | None => throw SyntaxError
             | Some schema =>
                 put_state (set_schemaCache (<[workflowName := schema]> (schemaCache m)) m);;
                 mret schema
             end
       end)
      (λ _, throw (Error ("Schema fetch failed: " +:+ workflowName))).

Definition loadSchemaForm (schemaName : string) : JS manager unit :=
  try_catch
    (schema ← fetchSchema schemaName;
     schemas ← lift (get schema "schemas");
     rootModel ← lift (get schemas "RootModel");
     _ ← lift (getSchemaTitle rootModel schemaName);
     m ← get_state;
     let '(formHtml, fieldCache') := generateFormFromSchema m rootModel schemas in
     put_state (set_fieldCache fieldCache' m);;
     _ ← lift formHtml;
     initializeFormData rootModel)
    (λ _, mret tt).

Definition selectSchema (schemaName : string) : JS manager unit :=
  m ← get_state;
  put_state (set_currentSchema schemaName m);;
  loadSchemaForm schemaName;;
  resetFormData.

(** [ArrayManager.addArrayItem] *)
Definition addArrayItem (currentSchema fieldName : string) (field : value)
  : JSp manager unit :=
  try_catch_p
    (schema ← covered (fetchSchema currentSchema);
     m ← covered get_state;
     if negb (bool_decide (is_Some (dom m !! ("array-" +:+ fieldName))))
     then mret tt
     else
       itemIndex ← on_dataManager
                     (DataManager.addArrayItem currentSchema fieldName (VObj ∅));
       items ← covered (lift (get field "items"));
       let ref := get_opt items "$ref" in
       if negb (truthy ref) then mret tt
       else
         match ref with
         | VStr r =>
             let schemaName := last_segment r in
             schemas ← covered (lift (get schema "schemas"));
             direct ← covered (lift (get schemas schemaName));
             let itemSchema :=
               or_else direct
                 (get_opt (get_opt (get_own schemas "RootModel") "definitions")
                          schemaName) in
             if negb (truthy itemSchema) then mret tt
             else
               m1 ← covered get_state;
               let '(itemHtml, fieldCache') :=
                 generateArrayItemHtml m1 currentSchema fieldName itemIndex
                   itemSchema schemas in
               covered (put_state (set_fieldCache fieldCache' m1));;
               _ ← covered (lift itemHtml);
               default_values ← covered (lift (get itemSchema "default_values"));
               let itemData := VObj (spread (or_else default_values (VObj ∅))) in
               on_dataManager
                 (DataManagerFields.updateArrayItemData currentSchema fieldName
                    itemIndex "" itemData)
         | _ => covered (throw TypeError) (* [split] is not a function *)
         end)
    (λ _, mret tt).

(** [ArrayManager.addArrayItemByName] *)
Definition addArrayItemByName (currentSchema fieldName : string)
  : JSp manager unit :=
  m ← covered get_state;
  let field :=
    default VUndefined (fieldCache m !! (currentSchema +:+ "_" +:+ fieldName)) in
  if negb (truthy field) then mret tt
  else addArrayItem currentSchema fieldName field.

End Loading.

Section UnionSelect.

(** The markup of a union field: the cards of the options and the container
    of the fields of the variant.  It is built after the entry of the
    [fieldCache] has been written, and building it may throw. *)
Variable unionSelectMarkup : string → value → value → outcome string.


End UnionSelect.

(** The schema of the items of an array field, as [addArrayItem] looks it
    up in a schema document:
    [schema.schemas[schemaName] || schema.schemas.RootModel?.definitions?.[schemaName]]
    for the last segment of [field.items.$ref]. *)
Definition item_schema (schema field : value) : value :=
  match get_opt (get_own field "items") "$ref" with
  | VStr r =>
      if String.eqb r "" then VUndefined
      else
        let schemas := get_own schema "schemas" in
        or_else (get_own schemas (last_segment r))
          (get_opt (get_opt (get_own schemas "RootModel") "definitions")
                   (last_segment r))
  | _ => VUndefined
  end.

(** The field definition names the schema of its items by a name that a
    plain object does not inherit: [schema.schemas[schemaName]] then finds
    what the schema document holds and nothing else. *)
Definition plain_item_ref (field : value) : bool :=
  match get_opt (get_own field "items") "$ref" with
  | VStr r => negb (bool_decide (last_segment r ∈ object_prototype_names))
  | _ => true
  end.

(** Lines 475 to 504 of [ArrayManager.renderArrayItemUnionFields]: the
    schema of the selected option, [None] for each of the early
    [return]s. *)
Definition selectedArrayItemUnionSchema (m : manager)
    (currentSchema fieldName : string) (itemIndex : nat)
    (propName selectedValue : string) : outcome (option value) :=
  let cacheKey := currentSchema +:+ "_" +:+ fieldName +:+ "_"
                  +:+ pretty itemIndex +:+ "_" +:+ propName +:+ "_union" in
  let cachedData := default VUndefined (fieldCache m !! cacheKey) in
  if negb (truthy cachedData) then Ok None
  else
    let unionOptions := get_own cachedData "unionOptions" in
    let allSchemas := get_own cachedData "allSchemas" in
    match unionOptions with
    | VArr options =>
        match find_option options selectedValue with
        | Throw e => Throw e
        | Ok selectedOption =>
            if negb (truthy selectedOption) then Ok None
            else
              let schemaRef := get_own selectedOption "schema_ref" in
              if negb (truthy schemaRef) then Ok None
              else
                match schemaRef with
                | VStr ref =>
                    let schemaName := last_segment ref in
                    match get allSchemas schemaName with
                    | Throw e => Throw e
                    | Ok direct =>
                        let selectedSchema :=
                          or_else direct
                            (or_else
                               (get_opt (get_opt (get_own allSchemas "RootModel")
                                                 "definitions") schemaName)
                               (get_opt
                                  (get_opt
                                     (get_opt
                                        (get_opt
                                           (default VUndefined
                                              (schemaCache m !! currentSchema))
                                           "schemas")
                                        "RootModel")
                                     "definitions")
                                  schemaName)) in
                        if negb (truthy selectedSchema) then Ok None
                        else Ok (Some selectedSchema)
                    end
                | _ => Throw TypeError (* [split] is not a function *)
                end
        end
    | _ => Throw TypeError (* [find] is not a function *)
    end.

Section ArrayItemUnion.

(** The markup of the fields of a variant inside an array item, or the
    exception that building it raised. *)
Variable generateArrayItemUnionSchemaFields :
  string → string → nat → string → value → outcome string.

(** [ArrayManager.renderArrayItemUnionFields] *)
Definition renderArrayItemUnionFields (currentSchema fieldName : string)
    (itemIndex : nat) (propName selectedValue : string) : JSp manager unit :=
  try_catch_p
    (m ← covered get_state;
     found ← covered (lift (selectedArrayItemUnionSchema m currentSchema
                              fieldName itemIndex propName selectedValue));
     match found with
     | None => mret tt
     | Some selectedSchema =>
         let container := "union-fields-" +:+ fieldName +:+ "-"
                          +:+ pretty itemIndex +:+ "-" +:+ propName in
         covered (if bool_decide (is_Some (dom m !! container))
                  then put_state (set_dom (<[container := ""]> (dom m)) m)
                  else mret tt);;
         fieldsHtml ← covered (lift (generateArrayItemUnionSchemaFields
                                       currentSchema fieldName itemIndex
                                       propName selectedSchema));
         m' ← covered get_state;
         covered (if bool_decide (is_Some (dom m' !! container))
                  then put_state (set_dom (<[container := fieldsHtml]> (dom m')) m')
                  else mret tt);;
         on_dataManager
           (DataManagerFields.initializeArrayItemUnionFormData currentSchema
              fieldName itemIndex propName selectedSchema)
     end)
    (λ _, mret tt).

(** [ArrayManager.selectArrayItemUnionOption]; the marking of the clicked
    card touches the classes of the cards only and is left out. *)
Definition selectArrayItemUnionOption (currentSchema fieldName : string)
    (itemIndex : nat) (propName selectedValue : string) : JSp manager unit :=
  on_dataManager
    (DataManagerFields.updateArrayItemData currentSchema fieldName itemIndex
       propName (VStr selectedValue));;
  renderArrayItemUnionFields currentSchema fieldName itemIndex propName
    selectedValue.

(** What the selection of an option leaves under the property of the item:
    the declared defaults of the schema of the option when that schema is
    found and its fields are rendered, the bare value of the option in
    every other case. *)
Definition item_variant_data (m : manager) (currentSchema fieldName : string)
    (itemIndex : nat) (propName selectedValue : string) : value :=
  match selectedArrayItemUnionSchema m currentSchema fieldName itemIndex
          propName selectedValue with
  | Ok (Some selectedSchema) =>
      match generateArrayItemUnionSchemaFields currentSchema fieldName
              itemIndex propName selectedSchema with
      | Ok _ => VObj (declared_defaults selectedSchema)
      | Throw _ => VStr selectedValue
      end
  | _ => VStr selectedValue
  end.

End ArrayItemUnion.

(** The entry of the [fieldCache] that [renderArrayItemUnionFields] reads
    for a property of an item. *)
Definition cached_item_union (m : manager) (currentSchema fieldName : string)
    (itemIndex : nat) (propName : string) : value :=
  default VUndefined
    (fieldCache m !! (currentSchema +:+ "_" +:+ fieldName +:+ "_"
                      +:+ pretty itemIndex +:+ "_" +:+ propName +:+ "_union")).

(** What [DynamicWorkflowManager.exportData] lets the user see: nothing, a
    dialog with a message, or the download of a file. *)
Inductive notice : Type :=
  | NoNotice
  | Alert (msg : string)
  | Download (file : DataManager.export_file).

Section Exporting.

Variable JSON_stringify : value → string.
Variable convertToCSV : gmap string value → string.

(** What [collectFormDataFromDOM] gathers from the page: an object, whatever
    happens while it reads the page. *)
Variable collected : gmap string value.

(** [downloadFile] builds a link to the file and clicks on it. *)
Variable downloadFile : DataManager.export_file → outcome unit.

(** The text of the exceptions that the platform raises. *)
Variable platform_message : exn → string.

(** [error.message] *)
Definition message (e : exn) : string :=
  match e with
  | Error msg => msg
  | _ => platform_message e
  end.

(** [DynamicWorkflowManager.getFormDataForSchema]: the tree of the store,
    and what is on the page when that tree is empty or there is no store. *)
Definition getFormDataForSchema (m : manager) : gmap string value :=
  match dataManager m with
  | Some fd =>
      let storedData := DataManager.getFormDataForSchema (currentSchema m) fd in
      if bool_decide (size storedData = 0%nat) then collected else storedData
  | None => collected
  end.

(** [DynamicWorkflowManager.exportData]; [now] and [today] are the two
    readings of the clock that [DataManager.exportData] makes. *)
Definition exportData (now today : string) (m : manager) : notice :=
  if String.eqb (currentSchema m) ""
     || bool_decide (size (getFormDataForSchema m) = 0%nat)
  then Alert "No data to export. Please fill out the form first."
  else
    match dataManager m with
    | Some fd =>
        match DataManager.exportData JSON_stringify convertToCSV now today
                (currentSchema m) "json" fd with
        | (Ok exportResult, _) =>
            match downloadFile exportResult with
            | Ok _ => Download exportResult
            | Throw e => Alert ("Export failed: " +:+ message e)
            end
        | (Throw e, _) => Alert ("Export failed: " +:+ message e)
        end
    | None => NoNotice
    end.

End Exporting.

(** The fields that [fetchAvailableWorkflows] works on, next to those of
    the manager. *)
Record workflows : Type := {
  core : manager;
  availableWorkflows : list value;
  schemasLoaded : bool;
  isLoadingWorkflows : bool
}.

Definition set_core (m : manager) (w : workflows) : workflows :=
  {| core := m; availableWorkflows := availableWorkflows w;
     schemasLoaded := schemasLoaded w;
     isLoadingWorkflows := isLoadingWorkflows w |}.

Definition set_availableWorkflows (l : list value) (w : workflows) : workflows :=
  {| core := core w; availableWorkflows := l;
     schemasLoaded := schemasLoaded w;
     isLoadingWorkflows := isLoadingWorkflows w |}.

Definition set_schemasLoaded (b : bool) (w : workflows) : workflows :=
  {| core := core w; availableWorkflows := availableWorkflows w;
     schemasLoaded := b; isLoadingWorkflows := isLoadingWorkflows w |}.

Definition set_isLoadingWorkflows (b : bool) (w : workflows) : workflows :=
  {| core := core w; availableWorkflows := availableWorkflows w;
     schemasLoaded := schemasLoaded w; isLoadingWorkflows := b |}.

(** A method of the manager, run on its fields. *)
Definition on_core {A} (method : JS manager A) : JS workflows A :=
  λ w, let '(r, m) := method (core w) in (r, set_core m w).

(** [try { body } finally { cleanup }] for a [cleanup] that only assigns
    to fields. *)
Definition finally {S A} (body : JS S A) (cleanup : S → S) : JS S A :=
  λ s, let '(r, s') := body s in (r, cleanup s').

(** [this.availableWorkflows.push(workflow)] *)
Definition push_workflow (workflow : value) : JS workflows unit :=
  w ← get_state;
  put_state (set_availableWorkflows (availableWorkflows w ++ [workflow]) w).

(** [s.includes(sub)] *)
Fixpoint includes (s sub : string) : bool :=
  String.prefix sub s
  || match s with
     | EmptyString => false
     | String _ s' => includes s' sub
     end.

Definition createFallbackTitle (workflowName : string) : string :=
  let title := capitalize_words false (underscores_to_spaces workflowName) in
  if includes workflowName "copy" then title
  else if String.eqb workflowName "bike_insights" then "Bike Insights Original"
  else title.

(** The names that [fetchAvailableWorkflows] goes through. *)
Definition workflowNames : list string :=
  [ "bike_insights"; "restaurant_recommender"; "bike_stock"; "bike_sales" ].

Section Workflows.

Variable fetch : string → ArrayManager.fetched.

(** The body of the loop of [fetchAvailableWorkflows] for one name. *)
Definition loadWorkflow (workflowName : string) : JS workflows unit :=
  try_catch
    (schema ← on_core (fetchSchema fetch workflowName);
     schemas ← lift (get schema "schemas");
     rootModel ← lift (get schemas "RootModel");
     schemaTitle ← lift (getSchemaTitle rootModel workflowName);
     description ← lift (get rootModel "description");
     push_workflow
       (VObj (<["name" := VStr workflowName]>
              (<["title" := schemaTitle]>
              (<["description" :=
                   or_else description
                     (VStr ("Dynamic " +:+ underscores_to_spaces workflowName
                            +:+ " workflow"))]> ∅)))))
    (λ _,
       let fallbackTitle := createFallbackTitle workflowName in
       push_workflow
         (VObj (<["name" := VStr workflowName]>
                (<["title" := VStr fallbackTitle]>
                (<["description" :=
                     VStr (fallbackTitle +:+ " workflow (schema unavailable)")]> ∅))))).

Fixpoint loadWorkflows (names : list string) : JS workflows unit :=
  match names with
  | [] => mret tt
  | workflowName :: rest => loadWorkflow workflowName;; loadWorkflows rest
  end.

(** [fetchAvailableWorkflows]; the [finally] clause runs whatever way the
    [try] statement ends. *)
Definition fetchAvailableWorkflows : JS workflows unit :=
  w ← get_state;
  if isLoadingWorkflows w then mret tt
  else
    put_state (set_isLoadingWorkflows true w);;
    finally
      (try_catch
         (w ← get_state;
          put_state (set_schemasLoaded false (set_availableWorkflows [] w));;
          loadWorkflows workflowNames;;
          w' ← get_state;
          put_state (set_schemasLoaded true w'))
         (λ _,
            w ← get_state;
            put_state (set_schemasLoaded true (set_availableWorkflows [] w))))
      (set_isLoadingWorkflows false).

End Workflows.

(** The manager works on the schema [name] and has a store that agrees
    with [fd] on every other schema. *)
Definition works_on (name : string) (fd : gmap string (gmap string value))
    (m : manager) : Prop :=
  currentSchema m = name
  ∧ ∃ fd', dataManager m = Some fd'
           ∧ ∀ other, other ≠ name → fd' !! other = fd !! other.

(** A method keeps a property of the state, whatever way it ends. *)
Definition keeps {A} (P : manager → Prop) (method : JS manager A) : Prop :=
  ∀ m, P m → P (method m).2.

(** A method leaves the store, the schema at work and the page alone. *)
Definition same_store (m m' : manager) : Prop :=
  dataManager m' = dataManager m ∧ currentSchema m' = currentSchema m
  ∧ dom m' = dom m.

(** A method that assigns to properties ends, in a state and with an
    outcome that meet [Q]. *)
Definition ends_with {A} (Q : outcome A → manager → Prop)
    (method : JSp manager A) (m : manager) : Prop :=
  ∃ r m', method m = Some (r, m') ∧ Q r m'.

(** From [m] to [m'] the array under the field has got the object [x] as
    one more item at its end, and nothing else has changed in the store. *)
Definition item_added (currentSchema fieldName : string)
    (x : gmap string value) (m m' : manager) : Prop :=
  ∃ fd l,
    dataManager m = Some fd
    ∧ DataManager.stored_items fd currentSchema fieldName = Some l
    ∧ dataManager m'
      = Some (<[currentSchema :=
                  <[fieldName := VArr (l ++ [VObj x])]>
                    (DataManager.getFormDataForSchema currentSchema fd)]> fd).

(** From [m] to [m'] the store is unchanged, or the array under the field
    has got one more item: the empty object, or a copy of the declared
    defaults of the schema of the items. *)
Definition one_item_more (currentSchema fieldName : string)
    (itemSchema : value) (m m' : manager) : Prop :=
  dataManager m' = dataManager m
  ∨ item_added currentSchema fieldName ∅ m m'
  ∨ (truthy itemSchema = true
     ∧ item_added currentSchema fieldName (declared_defaults itemSchema) m m').

End WorkflowPage.

(** ** A union field between selections and edits *)

Module UnionField.
Import DynamicWorkflowManager.

(** [DynamicWorkflowManager.updateUnionFieldData], the handler of the inputs
    of the selected variant. *)
Definition updateUnionFieldData (parentFieldName propName : string) (v : value)
  : JSp manager unit :=
  λ m, match dataManager m with
       | Some fd =>
           match DataManagerFields.updateUnionFieldData (currentSchema m)
                   parentFieldName propName v fd with
           | Some (r, fd') => Some (r, set_dataManager fd' m)
           | None => None
           end
       | None => Some (Ok tt, m)
       end.

(** What [updateUnionFieldData] leaves under a field that held [current]:
    the property is set in the object that the field holds, or in a new
    object when the field holds nothing; a field that holds a string stays
    as it is, the assignment being a TypeError. *)
Definition edited (current : option value) (edit : string * value)
  : option value :=
  let parent := match current with
                | Some x => if truthy x then x else VObj ∅
                | None => VObj ∅
                end in
  match set_prop parent edit.1 edit.2 with
  | Some (Ok parent') => Some parent'
  | _ => current
  end.

(** What a union field has been through: what the last selection of one of
    its options left under it, [None] before the first selection, and the
    edits of properties made since. *)
Record variant : Type := {
  selection : option value;
  edits : list (string * value)
}.

Section Variants.

Variable generateUnionSchemaFields : string → value → value → outcome string.

(** The states of a union field, with what the field has been through.  The
    page starts with nothing stored for the field, which is also where
    [selectSchema] ends, and where a reset of the form leads back to.  The
    selection of an option of the field starts a new variant; an edit of a
    property of the field is added to the edits of the variant at hand;
    selections and edits on other fields, and whatever else leaves alone
    what is stored under the field (the handlers of the other fields, the
    additions and removals of array items), do not count.  The store is
    there, and the names of the schema at work and of the fields are names
    that a plain object does not inherit. *)
Inductive reachable (fieldName : string) : manager → variant → Prop :=
  | reachable_unselected m :
      stored m fieldName = None →
      reachable fieldName m {| selection := None; edits := [] |}
  | reachable_select m s selectedValue :
      reachable fieldName m s →
      is_Some (dataManager m) →
      currentSchema m ∉ object_prototype_names →
      plain_refs (cached_union m fieldName) = true →
      reachable fieldName
        (selectUnionOption generateUnionSchemaFields fieldName selectedValue m).2
        {| selection := Some (variant_data generateUnionSchemaFields m fieldName
                                selectedValue);
           edits := [] |}
  | reachable_edit m s propName v r m' :
      reachable fieldName m s →
      is_Some (dataManager m) →
      currentSchema m ∉ object_prototype_names →
      propName ≠ "__proto__" →
      updateUnionFieldData fieldName propName v m = Some (r, m') →
      reachable fieldName m'
        {| selection := selection s; edits := edits s ++ [(propName, v)] |}
  | reachable_select_other m s otherField selectedValue :
      reachable fieldName m s →
      otherField ≠ fieldName →
      currentSchema m ∉ object_prototype_names →
      reachable fieldName
        (selectUnionOption generateUnionSchemaFields otherField selectedValue m).2 s
  | reachable_edit_other m s otherField propName v r m' :
      reachable fieldName m s →
      otherField ≠ fieldName →
      otherField ∉ object_prototype_names →
      currentSchema m ∉ object_prototype_names →
      updateUnionFieldData otherField propName v m = Some (r, m') →
      reachable fieldName m' s
  | reachable_reset m s :
      reachable fieldName m s →
      currentSchema m ≠ "" →
      currentSchema m ∉ object_prototype_names →
      reachable fieldName (WorkflowPage.resetFormData m).2
        {| selection := None; edits := [] |}
  | reachable_other m s m' :
      reachable fieldName m s →
      stored m' fieldName = stored m fieldName →
      reachable fieldName m' s.

(** A union field holds at most one variant: what the last selection left
    under it, with the edits made since, and nothing else. *)
Definition holds_one_variant (m : manager) (fieldName : string) (s : variant)
  : Prop :=
  stored m fieldName = foldl edited (selection s) (edits s).

End Variants.

End UnionField.

(** ** DataManager: statistics *)

Module DataManagerReports.
Import DataManager.

(** The counters of [getDataStats]. *)
Record stats : Type := {
  totalFields : nat;
  filledFields : nat;
  emptyFields : nat;
  arrayFields : nat;
  objectFields : nat;
  simpleFields : nat
}.

Definition no_stats : stats :=
  {| totalFields := 0; filledFields := 0; emptyFields := 0;
     arrayFields := 0; objectFields := 0; simpleFields := 0 |}.

(** [stats.totalFields++; stats.emptyFields++] *)
Definition count_empty (st : stats) : stats :=
  {| totalFields := S (totalFields st); filledFields := filledFields st;
     emptyFields := S (emptyFields st); arrayFields := arrayFields st;
     objectFields := objectFields st; simpleFields := simpleFields st |}.

(** [stats.totalFields++; stats.filledFields++; stats.arrayFields++] *)
Definition count_array (st : stats) : stats :=
  {| totalFields := S (totalFields st); filledFields := S (filledFields st);
     emptyFields := emptyFields st; arrayFields := S (arrayFields st);
     objectFields := objectFields st; simpleFields := simpleFields st |}.

Definition count_object (st : stats) : stats :=
  {| totalFields := S (totalFields st); filledFields := S (filledFields st);
     emptyFields := emptyFields st; arrayFields := arrayFields st;
     objectFields := S (objectFields st); simpleFields := simpleFields st |}.

Definition count_simple (st : stats) : stats :=
  {| totalFields := S (totalFields st); filledFields := S (filledFields st);
     emptyFields := emptyFields st; arrayFields := arrayFields st;
     objectFields := objectFields st; simpleFields := S (simpleFields st) |}.

(** The body of the loop of [analyzeObject] for the value of one entry.  The
    counters only go up by one, so the order in which [Object.entries] lists
    the entries does not show in the result. *)
Fixpoint analyzeEntry (v : value) (st : stats) : stats :=
  match v with
  | VNull | VUndefined => count_empty st
  | VStr s => if String.eqb s "" then count_empty st else count_simple st
  | VArr _ => count_array st
  | VObj o => map_fold (λ _ x acc, analyzeEntry x acc) (count_object st) o
  | VBool _ | VNum _ | VNaN => count_simple st
  end.

Definition analyzeObject (obj : gmap string value) (st : stats) : stats :=
  map_fold (λ _ x acc, analyzeEntry x acc) st obj.

(** [getDataStats] reads the store and leaves it alone. *)
Definition getDataStats (currentSchema : string) (fd : store) : stats :=
  analyzeObject (getFormDataForSchema currentSchema fd) no_stats.

(** The two sums that the counters keep. *)
Definition balanced (st : stats) : Prop :=
  totalFields st = (filledFields st + emptyFields st)%nat
  ∧ filledFields st = (arrayFields st + objectFields st + simpleFields st)%nat.

End DataManagerReports.

(** ** JSON data *)

(** The values that JSON text can carry as they are: no [undefined] and no
    [NaN] anywhere inside.  These are the JSON-serializable values. *)
Fixpoint json_data (v : value) : bool :=
  match v with
  | VUndefined | VNaN => false
  | VNull | VBool _ | VNum _ | VStr _ => true
  | VArr l => forallb json_data l
  | VObj o => map_fold (λ _ x acc, json_data x && acc) true o
  end.

Fixpoint value_size (v : value) : nat :=
  match v with
  | VArr l => S (foldr (λ x acc, value_size x + acc)%nat 0%nat l)
  | VObj o => S (map_fold (λ _ x acc, value_size x + acc)%nat 0%nat o)
  | _ => 1%nat
  end.

(** A text codec that meets the two laws asked of [JSON.stringify] and
    [JSON.parse] below.  Its text is not JSON syntax: a value is numbered
    through a generic tree and the number is written in binary.  It gives
    the parameters of the store an instance to run with. *)
Module TextCodec.

Definition leaf : Type := bool + (Z + string).

Fixpoint to_tree (v : value) : gen_tree leaf :=
  match v with
  | VUndefined => GenNode 0 []
  | VNull => GenNode 1 []
  | VNaN => GenNode 2 []
  | VBool b => GenLeaf (inl b)
  | VNum n => GenLeaf (inr (inl n))
  | VStr s => GenLeaf (inr (inr s))
  | VArr l => GenNode 3 (to_tree <$> l)
  | VObj o =>
      GenNode 4
        (map_fold (λ k x acc, GenNode 5 [GenLeaf (inr (inr k)); to_tree x] :: acc) [] o)
  end.

Fixpoint of_tree (t : gen_tree leaf) : value :=
  match t with
  | GenLeaf (inl b) => VBool b
  | GenLeaf (inr (inl n)) => VNum n
  | GenLeaf (inr (inr s)) => VStr s
  | GenNode 1 _ => VNull
  | GenNode 2 _ => VNaN
  | GenNode 3 ts => VArr (of_tree <$> ts)
  | GenNode 4 ts =>
      VObj (list_to_map
              ((λ m, match m with
                     | GenNode _ [GenLeaf (inr (inr k)); x] => (k, of_tree x)
                     | _ => (EmptyString, VUndefined)
                     end) <$> ts))
  | GenNode _ _ => VUndefined
  end.

Fixpoint pos_text (p : positive) : string :=
  match p with
  | xH => "."
  | xO q => String "0" (pos_text q)
  | xI q => String "1" (pos_text q)
  end.

Fixpoint text_pos (s : string) : option positive :=
  match s with
  | String c s' =>
      if Ascii.eqb c "0" then xO <$> text_pos s'
      else if Ascii.eqb c "1" then xI <$> text_pos s'
      else if Ascii.eqb c "." then
        match s' with EmptyString => Some xH | _ => None end
      else None
  | EmptyString => None
  end.

Definition stringify (v : value) : string := pos_text (encode (to_tree v)).

Definition parse (s : string) : option value :=
  p ← text_pos s; t ← decode p; Some (of_tree t).

Definition csv (_ : gmap string value) : string := "".

End TextCodec.

(** * Properties *)

(** Unfolding of the monad, for computations on a given state. *)
Ltac js_unfold :=
  unfold mbind, mret, JS_bind, JS_ret, get_state, put_state, throw, lift,
    try_catch in *.
Ltac js_simpl := js_unfold; simpl in *.

Ltac jsp_simpl :=
  unfold mbind, mret, JSp_bind, JSp_ret, covered, assigned, no_image, JS_bind,
    JS_ret, get_state, put_state, throw, lift, try_catch in *;
  simpl in *.

(** ** Worked examples *)

Example camelToSnake_BikeStock : camelToSnake "BikeStock" = "bike_stock".
Proof. reflexivity. Qed.

Example camelToSnake_capitals : camelToSnake "ABC" = "a_b_c".
Proof. reflexivity. Qed.

Example snakeToCamel_bike_stock : snakeToCamel "bike_stock" = "bikeStock".
Proof. reflexivity. Qed.

Example snakeToCamel_double_underscore : snakeToCamel "a__b" = "a_B".
Proof. reflexivity. Qed.

Example strip_pointer_path_nested :
  strip_pointer_path "#/components/x/Store" = "Store".
Proof. reflexivity. Qed.

Example strip_pointer_path_single : strip_pointer_path "#/Store" = "#/Store".
Proof. reflexivity. Qed.

Example last_segment_ref : last_segment "#/$defs/Road" = "Road".
Proof. reflexivity. Qed.

Example replace_first_inside :
  replace_first "RootModel_" "xRootModel_Store" = "xStore".
Proof. reflexivity. Qed.

Example index_of_key_canonical :
  index_of_key "12" = Some 12%nat ∧ index_of_key "012" = None
  ∧ index_of_key "" = None.
Proof. vm_compute. auto. Qed.

Example spread_array :
  spread (VArr [VNum 7; VNum 8]) = {[ "0" := VNum 7; "1" := VNum 8 ]}.
Proof. vm_compute. reflexivity. Qed.

Example splice_negative :
  splice [VNum 1; VNum 2; VNum 3] (-1) 1 = [VNum 1; VNum 2].
Proof. reflexivity. Qed.

(** ** Arrays *)

Lemma splice_one_inside (l : list value) (i : Z) :
  0 ≤ i < Z.of_nat (length l) →
  splice l i 1 = take (Z.to_nat i) l ++ drop (S (Z.to_nat i)) l.
Proof.
  intros Hi. unfold splice.
  replace (i <? 0) with false by lia.
  rewrite Z.min_l by lia.
  rewrite (Z.max_l 1 0) by lia.
  rewrite Z.min_l by lia.
  do 2 f_equal. lia.
Qed.


Lemma remove_at_length (l : list value) (i : nat) :
  (i < length l)%nat →
  S (length (take i l ++ drop (S i) l)) = length l.
Proof. intros Hi. rewrite length_app, length_take, length_drop. lia. Qed.

Lemma remove_at_below (l : list value) (i j : nat) :
  (j < i)%nat → (i < length l)%nat →
  (take i l ++ drop (S i) l) !! j = l !! j.
Proof.
  intros Hj Hi. rewrite lookup_app_l by (rewrite length_take; lia).
  by rewrite lookup_take_lt.
Qed.

Lemma remove_at_above (l : list value) (i j : nat) :
  (i ≤ j)%nat → (i < length l)%nat →
  (take i l ++ drop (S i) l) !! j = l !! S j.
Proof.
  intros Hj Hi. rewrite lookup_app_r by (rewrite length_take; lia).
  rewrite length_take, lookup_drop. f_equal. lia.
Qed.

(** ** JSON data and the text codec *)

Lemma size_member (o : gmap string value) k v :
  o !! k = Some v → (value_size v < value_size (VObj o))%nat.
Proof.
  intros Hk. simpl.
  rewrite (map_fold_delete_L _ _ k v o); [lia | | done].
  intros; lia.
Qed.

Lemma size_item (l : list value) v :
  v ∈ l → (value_size v < value_size (VArr l))%nat.
Proof.
  simpl. induction 1; simpl; lia.
Qed.

Lemma value_ind_deep (P : value → Prop) :
  P VUndefined → P VNull → (∀ b, P (VBool b)) → (∀ n, P (VNum n)) → P VNaN →
  (∀ s, P (VStr s)) →
  (∀ l, Forall P l → P (VArr l)) →
  (∀ o, map_Forall (λ _ v, P v) o → P (VObj o)) →
  ∀ v, P v.
Proof.
  intros Hu Hn Hb Hz Hnan Hs Ha Ho v.
  remember (value_size v) as n eqn:Hsz. revert v Hsz.
  induction n as [n IH] using lt_wf_ind. intros v ->.
  destruct v; auto.
  - apply Ha, list.Forall_forall. intros x Hx.
    apply (IH (value_size x)); [by apply size_item | done].
  - apply Ho. intros k x Hk.
    apply (IH (value_size x)); [by eapply size_member | done].
Qed.

Lemma json_data_object (o : gmap string value) :
  json_data (VObj o) = true ↔ map_Forall (λ _ v, json_data v = true) o.
Proof.
  simpl.
  apply (map_fold_weak_ind
           (λ r m, r = true ↔ map_Forall (λ _ v, json_data v = true) m)).
  - split; [intros _; apply map_Forall_empty | done].
  - intros k x m r Hk IH. rewrite map_Forall_insert by done.
    rewrite andb_true_iff. by rewrite IH.
Qed.

Module TextCodecProps.
Import TextCodec.

Lemma text_pos_text (p : positive) : text_pos (pos_text p) = Some p.
Proof. induction p as [p IH|p IH|]; simpl; [by rewrite IH..|done]. Qed.

Lemma members_of_tree (o : gmap string value) :
  map_Forall (λ _ v, of_tree (to_tree v) = v) o →
  list_to_map
    ((λ m, match m with
           | GenNode _ [GenLeaf (inr (inr k)); x] => (k, of_tree x)
           | _ => (EmptyString, VUndefined)
           end) <$>
     map_fold (λ k x acc, GenNode 5 [GenLeaf (inr (inr k)); to_tree x] :: acc) [] o)
  = o.
Proof.
  intros Hall.
  transitivity (list_to_map (map_to_list o) : gmap string value);
    [|apply list_to_map_to_list].
  f_equal. rewrite map_fold_foldr.
  assert (Hl : Forall (λ kv, of_tree (to_tree kv.2) = kv.2) (map_to_list o)).
  { apply list.Forall_forall. intros [k v] Hkv. apply elem_of_map_to_list in Hkv.
    by apply (Hall k v). }
  induction Hl as [|[k v] l Hv _ IH]; [done|].
  cbn [foldr uncurry]. rewrite fmap_cons. cbn [snd] in Hv.
  rewrite IH. cbn beta iota. by rewrite Hv.
Qed.

Lemma of_to_tree (v : value) : of_tree (to_tree v) = v.
Proof.
  induction v as [| | | | | |l IH|o IH] using value_ind_deep; try reflexivity.
  - change (VArr (of_tree <$> (to_tree <$> l)) = VArr l). f_equal.
    induction IH as [|x l Hx _ IHl]; [done|].
    rewrite !fmap_cons. by rewrite Hx, IHl.
  - cbn [to_tree of_tree]. f_equal. by apply members_of_tree.
Qed.

Lemma parse_stringify (v : value) : parse (stringify v) = Some v.
Proof.
  unfold parse, stringify. rewrite text_pos_text. simpl.
  rewrite decode_encode. simpl. by rewrite of_to_tree.
Qed.

Lemma parse_empty : parse "" = None.
Proof. reflexivity. Qed.

End TextCodecProps.

(** ** Inherited names *)

Lemma inherits_held {A} (o : gmap string A) (k : string) (a : A) :
  o !! k = Some a → inherits o k = false.
Proof. unfold inherits. by intros ->. Qed.

Lemma inherits_plain {A} (o : gmap string A) (k : string) :
  k ∉ object_prototype_names → inherits o k = false.
Proof.
  intros Hk. unfold inherits. destruct (o !! k); [done|].
  by apply bool_decide_eq_false_2.
Qed.

(** ** The Form Data Store *)

Module DataManagerProps.
Import DataManager.

(** On a name that the store holds or does not inherit, the method returns
    the tree that [getFormDataForSchema] stands for. *)
Lemma getFormDataForSchema_any_plain (fd : gmap string (gmap string value))
    (currentSchema : string) :
  inherits fd currentSchema = false →
  getFormDataForSchema_any currentSchema fd
  = Tree (getFormDataForSchema currentSchema fd).
Proof. unfold getFormDataForSchema_any. by intros ->. Qed.

(** C7, as amended.  Reading the tree of a schema that has no entry in the
    Form Data Store, under a name that is not the name of a member of
    [Object.prototype], gives an empty object: neither a failure nor
    [undefined]. *)
Theorem getFormDataForSchema_unknown (fd : gmap string (gmap string value))
    (currentSchema : string) :
  fd !! currentSchema = None →
  currentSchema ∉ object_prototype_names →
  getFormDataForSchema_any currentSchema fd = Tree ∅
  ∧ getFormDataForSchema currentSchema fd = ∅
  ∧ VObj (getFormDataForSchema currentSchema fd) ≠ VUndefined.
Proof.
  intros Hno Hplain.
  rewrite getFormDataForSchema_any_plain by by apply inherits_plain.
  unfold getFormDataForSchema. rewrite Hno. by repeat split.
Qed.

Lemma getFormDataForSchema_unknown_witness :
  getFormDataForSchema_any "bike_insights" {[ "other" := {[ "a" := VNum 1 ]} ]}
  = Tree ∅
  ∧ getFormDataForSchema "bike_insights" {[ "other" := {[ "a" := VNum 1 ]} ]} = ∅
  ∧ VObj (getFormDataForSchema "bike_insights" {[ "other" := {[ "a" := VNum 1 ]} ]})
    ≠ VUndefined.
Proof.
  apply getFormDataForSchema_unknown; [reflexivity|].
  apply (bool_decide_unpack _). vm_compute. exact I.
Defined.

(** C7 as stated fails on a name that the store inherits: with nothing
    stored under [constructor], what [getFormDataForSchema] returns is the
    member [constructor] of [Object.prototype], not an empty object. *)
Lemma getFormDataForSchema_inherited :
  (∅ : gmap string (gmap string value)) !! "constructor" = None
  ∧ getFormDataForSchema_any "constructor" ∅ = Member "constructor"
  ∧ getFormDataForSchema_any "constructor" ∅ ≠ Tree ∅.
Proof. split; [done|]. split; [by vm_compute|]. by vm_compute. Qed.

(** C1.  Removing the item at an index [i] inside a stored array makes the
    array one shorter, keeps the items below [i] where they were and moves
    every item above [i] one position down, so that no gap is left. *)
Theorem removeArrayItem_shifts (fd : gmap string (gmap string value))
    (currentSchema fieldName : string) (t : gmap string value)
    (l : list value) (i : Z) :
  fd !! currentSchema = Some t →
  t !! fieldName = Some (VArr l) →
  0 ≤ i < Z.of_nat (length l) →
  ∃ l',
    removeArrayItem currentSchema fieldName i fd
      = (Ok tt, <[currentSchema := <[fieldName := VArr l']> t]> fd)
    ∧ S (length l') = length l
    ∧ (∀ j : nat, (j < Z.to_nat i)%nat → l' !! j = l !! j)
    ∧ (∀ j : nat, (Z.to_nat i ≤ j)%nat → l' !! j = l !! S j).
Proof.
  intros Ht Hf Hi.
  exists (take (Z.to_nat i) l ++ drop (S (Z.to_nat i)) l).
  split; [|split; [|split]].
  - unfold removeArrayItem, setField, saveToStorage, field. js_simpl.
    rewrite Ht. simpl. rewrite Hf. simpl. rewrite Ht. simpl.
    by rewrite splice_one_inside.
  - apply remove_at_length. lia.
  - intros j Hj. apply remove_at_below; lia.
  - intros j Hj. apply remove_at_above; lia.
Qed.

Lemma removeArrayItem_shifts_witness :
  ∃ l',
    removeArrayItem "rm" "stores" 1
        {[ "rm" := {[ "stores" := VArr [VStr "a"; VStr "b"; VStr "c"] ]} ]}
      = (Ok tt, <["rm" := <["stores" := VArr l']> {[ "stores" := VArr [VStr "a"; VStr "b"; VStr "c"] ]}]>
                  {[ "rm" := {[ "stores" := VArr [VStr "a"; VStr "b"; VStr "c"] ]} ]})
    ∧ S (length l') = length [VStr "a"; VStr "b"; VStr "c"]
    ∧ (∀ j : nat, (j < Z.to_nat 1)%nat → l' !! j = [VStr "a"; VStr "b"; VStr "c"] !! j)
    ∧ (∀ j : nat, (Z.to_nat 1 ≤ j)%nat → l' !! j = [VStr "a"; VStr "b"; VStr "c"] !! S j).
Proof.
  apply removeArrayItem_shifts; [reflexivity | reflexivity | simpl; lia].
Defined.



Lemma setField_twice (fd : gmap string (gmap string value))
    (cs f : string) (t : gmap string value) (v w : value) :
  <[cs := <[f := w]> (<[f := v]> t)]> (<[cs := <[f := v]> t]> fd)
  = <[cs := <[f := w]> t]> fd.
Proof. by rewrite !insert_insert_eq. Qed.

(** What [stored_items] finds is found under names that are held or not
    inherited. *)
Lemma stored_items_found (fd : gmap string (gmap string value))
    (cs f : string) (l : list value) :
  stored_items fd cs f = Some l →
  inherits fd cs = false
  ∧ inherits (getFormDataForSchema cs fd) f = false
  ∧ (if truthy (field (getFormDataForSchema cs fd) f)
     then match field (getFormDataForSchema cs fd) f with
          | VArr l' => Some l'
          | _ => None
          end
     else Some []) = Some l.
Proof.
  unfold stored_items.
  destruct (inherits fd cs); [done|].
  by destruct (inherits (getFormDataForSchema cs fd) f).
Qed.

Lemma stored_items_held (fd : gmap string (gmap string value))
    (cs f : string) (t : gmap string value) (l : list value) :
  fd !! cs = Some t → t !! f = Some (VArr l) → stored_items fd cs f = Some l.
Proof.
  intros Ht Hf. unfold stored_items, getFormDataForSchema, field.
  rewrite (inherits_held _ _ _ Ht). rewrite Ht. simpl.
  by rewrite (inherits_held _ _ _ Hf), Hf.
Qed.

(** The closed form of [addArrayItem] on a field under which an array, or
    nothing, is found. *)
Lemma addArrayItem_closed (fd : gmap string (gmap string value))
    (cs f : string) (itemData : value) (l : list value) :
  stored_items fd cs f = Some l →
  addArrayItem cs f itemData fd
  = Some (Ok (length l),
          <[cs := <[f := VArr (l ++ [itemData])]> (getFormDataForSchema cs fd)]> fd).
Proof.
  intros Hst. apply stored_items_found in Hst as (Hcs & Hf & Hst).
  revert Hf Hst.
  unfold addArrayItem, ensureSchema, setField, saveToStorage,
    getFormDataForSchema, field.
  jsp_simpl. rewrite Hcs.
  destruct (fd !! cs) as [t|] eqn:Ht; simpl.
  - intros ->.
    destruct (truthy (default VUndefined (t !! f))) eqn:Htr; simpl.
    + destruct (default VUndefined (t !! f)); try done.
      intros [= ->]. by rewrite Ht.
    + intros [= <-]. rewrite Ht. simpl.
      rewrite lookup_insert_eq. simpl. by rewrite !insert_insert_eq.
  - intros ->. rewrite lookup_empty. simpl. intros [= <-].
    rewrite !lookup_insert_eq. simpl.
    by rewrite !insert_insert_eq.
Qed.

(** C2, as amended.  Under a schema name and a field name that are held by
    the store or are not names of members of [Object.prototype],
    [addArrayItem] appends the item to the array stored under the field,
    starting from an empty array when nothing is stored there; the stored
    array is then one longer, and the value returned is the length it had
    before, which is the index of the new item. *)
Theorem addArrayItem_appends (fd : gmap string (gmap string value))
    (currentSchema fieldName : string) (itemData : value) (l : list value) :
  stored_items fd currentSchema fieldName = Some l →
  let fd' := <[currentSchema := <[fieldName := VArr (l ++ [itemData])]>
                                  (getFormDataForSchema currentSchema fd)]> fd in
  addArrayItem currentSchema fieldName itemData fd = Some (Ok (length l), fd')
  ∧ stored_items fd' currentSchema fieldName = Some (l ++ [itemData])
  ∧ length (l ++ [itemData]) = S (length l)
  ∧ (l ++ [itemData]) !! length l = Some itemData.
Proof.
  intros Hst fd'. split; [|split; [|split]].
  - by apply addArrayItem_closed.
  - subst fd'. eapply stored_items_held; by rewrite lookup_insert_eq.
  - rewrite length_app. simpl. lia.
  - by rewrite lookup_app_r, Nat.sub_diag.
Qed.

(** Under names that are held or not inherited, [stored_items] is the
    array that the store holds, the empty one for nothing or a falsy
    value. *)
Lemma stored_items_plain (fd : gmap string (gmap string value))
    (cs f : string) :
  cs ∉ object_prototype_names → f ∉ object_prototype_names →
  stored_items fd cs f
  = if truthy (field (getFormDataForSchema cs fd) f)
    then match field (getFormDataForSchema cs fd) f with
         | VArr l => Some l
         | _ => None
         end
    else Some [].
Proof.
  intros Hcs Hf. unfold stored_items.
  by rewrite !inherits_plain by done.
Qed.

(** On a field that holds something else than an array, a string say,
    [push] is missing and nothing is stored. *)
Lemma addArrayItem_not_array (fd : gmap string (gmap string value))
    (currentSchema fieldName : string) (itemData : value) :
  currentSchema ∉ object_prototype_names →
  fieldName ∉ object_prototype_names →
  stored_items fd currentSchema fieldName = None →
  addArrayItem currentSchema fieldName itemData fd = Some (Throw TypeError, fd).
Proof.
  intros Hcs Hf. rewrite stored_items_plain by done.
  unfold addArrayItem, ensureSchema, setField, saveToStorage,
    getFormDataForSchema, field.
  jsp_simpl. rewrite (inherits_plain fd) by done.
  destruct (fd !! currentSchema) as [t|] eqn:Ht; simpl;
    [|by rewrite lookup_empty].
  rewrite (inherits_plain t) by done.
  destruct (truthy (default VUndefined (t !! fieldName))); simpl; [|done].
  by destruct (default VUndefined (t !! fieldName)).
Qed.

Lemma addArrayItem_appends_witness :
  let fd := {[ "rm" := {[ "stores" := VArr [VStr "a"] ]} ]} in
  let fd' := <["rm" := <["stores" := VArr ([VStr "a"] ++ [VStr "b"])]>
                          (getFormDataForSchema "rm" fd)]> fd in
  addArrayItem "rm" "stores" (VStr "b") fd = Some (Ok (length [VStr "a"]), fd')
  ∧ stored_items fd' "rm" "stores" = Some ([VStr "a"] ++ [VStr "b"])
  ∧ length ([VStr "a"] ++ [VStr "b"]) = S (length [VStr "a"])
  ∧ ([VStr "a"] ++ [VStr "b"]) !! length [VStr "a"] = Some (VStr "b").
Proof. apply addArrayItem_appends. reflexivity. Defined.

(** C2 as stated fails on a field name that the tree inherits: nothing is
    stored under [constructor], yet no array is created, since the member
    of [Object.prototype] is found there, and the call ends with a
    TypeError and nothing appended. *)
Lemma addArrayItem_inherited_name :
  let fd : gmap string (gmap string value) := {[ "rm" := ∅ ]} in
  (fd !! "rm" ≫= (.!! "constructor")) = None
  ∧ addArrayItem "rm" "constructor" (VObj ∅) fd = Some (Throw TypeError, fd).
Proof. intros fd. split; [done|]. by vm_compute. Qed.

Section JSON.

Variable JSON_stringify : value → string.
Variable JSON_parse : string → option value.
Variable convertToCSV : gmap string value → string.

(** [importData] ends in one of two ways: it throws with the store as it
    found it, or it returns after writing the tree of the given schema. *)
Lemma importData_cases (fd : gmap string (gmap string value))
    (currentSchema : string) (importedData : value)
    (mergeStrategy : option string) :
  (∃ e, importData JSON_parse currentSchema importedData mergeStrategy fd
        = (Throw e, fd))
  ∨ (∃ t, importData JSON_parse currentSchema importedData mergeStrategy fd
          = (Ok tt, <[currentSchema := t]> fd)
          ∧ (default "replace" mergeStrategy = "replace"
             ∨ default "replace" mergeStrategy = "merge")).
Proof.
  unfold importData, ensureSchema, saveToStorage, get. js_simpl.
  destruct (truthy importedData); simpl; [|by eauto].
  destruct importedData; simpl;
    repeat (case_match; simplify_eq/=);
    try (left; eexists; reflexivity);
    try (right; eexists; split; [reflexivity|]; rewrite ?String.eqb_eq in *; by auto);
    try (right; eexists; split; [by rewrite insert_insert_eq|]; rewrite ?String.eqb_eq in *; by auto).
Qed.


End JSON.



(** Nothing is exported from an empty tree. *)
Lemma exportData_empty (JSON_stringify : value → string)
    (convertToCSV : gmap string value → string)
    (fd : gmap string (gmap string value))
    (now today currentSchema format : string) :
  getFormDataForSchema currentSchema fd = ∅ →
  exportData JSON_stringify convertToCSV now today currentSchema format fd
  = (Throw (Error "No data to export"), fd).
Proof. intros Hempty. unfold exportData. js_simpl. by rewrite Hempty. Qed.

Section RoundTrip.

Variable JSON_stringify : value → string.
Variable JSON_parse : string → option value.
Variable convertToCSV : gmap string value → string.

(** The two laws of the platform's codec that the round trip rests on:
    parsing the text of JSON data gives the data back, and the empty text is
    not JSON. *)
Hypothesis JSON_parse_stringify :
  ∀ v, json_data v = true → JSON_parse (JSON_stringify v) = Some v.
Hypothesis JSON_parse_empty : JSON_parse "" = None.

Lemma export_document_json_data (now currentSchema : string)
    (data : gmap string value) :
  json_data (VObj data) = true →
  json_data (VObj (<["timestamp" := VStr now]>
                  (<["workflow_name" := VStr currentSchema]>
                  (<["form_data" := VObj data]> ∅)))) = true.
Proof.
  intros Hdata. apply json_data_object.
  repeat (apply map_Forall_insert_2; [done|]).
  apply map_Forall_empty.
Qed.

(** C5.  Exporting the tree of a schema as JSON and importing the exported
    content again with the ['replace'] strategy stores a tree equal to the
    exported one, when that tree is not empty and is JSON-serializable. *)
Theorem export_import_roundtrip (fd : gmap string (gmap string value))
    (currentSchema now today : string) (data : gmap string value) :
  fd !! currentSchema = Some data →
  data ≠ ∅ →
  json_data (VObj data) = true →
  ∃ file,
    exportData JSON_stringify convertToCSV now today currentSchema "json" fd
      = (Ok file, fd)
    ∧ ∀ fd2 : gmap string (gmap string value),
        importData JSON_parse currentSchema (VStr (content file)) (Some "replace") fd2
          = (Ok tt, <[currentSchema := data]> fd2)
        ∧ (<[currentSchema := data]> fd2) !! currentSchema = Some data.
Proof.
  intros Hcs Hne Hjson.
  pose proof (export_document_json_data now currentSchema data Hjson) as Hdoc.
  apply JSON_parse_stringify in Hdoc.
  eexists. split.
  - unfold exportData, getFormDataForSchema. js_simpl. rewrite Hcs. simpl.
    rewrite bool_decide_eq_false_2; [reflexivity|].
    by rewrite map_size_non_empty_iff.
  - intros fd2. split; [|by rewrite lookup_insert_eq].
    unfold importData, saveToStorage. js_simpl.
    destruct (String.eqb_spec
                (JSON_stringify
                   (VObj (<["timestamp" := VStr now]>
                         (<["workflow_name" := VStr currentSchema]>
                         (<["form_data" := VObj data]> ∅))))) "") as [Hempty|_].
    { rewrite Hempty, JSON_parse_empty in Hdoc. done. }
    simpl. rewrite Hdoc. simpl.
    rewrite lookup_insert_ne by done. rewrite lookup_insert_ne by done.
    rewrite lookup_insert_eq. simpl. done.
Qed.

End RoundTrip.

Lemma export_import_roundtrip_witness :
  let data : gmap string value :=
    {[ "stores" := VArr [VObj {[ "name" := VStr "Bikes"; "quantity" := VNum 0 ]}] ]} in
  let fd : gmap string (gmap string value) := {[ "bike_insights" := data ]} in
  ∃ file,
    exportData TextCodec.stringify TextCodec.csv "2024-01-01T00:00:00.000Z"
        "2024-01-01T00:00:00.000Z" "bike_insights" "json" fd
      = (Ok file, fd)
    ∧ ∀ fd2 : gmap string (gmap string value),
        importData TextCodec.parse "bike_insights" (VStr (content file))
            (Some "replace") fd2
          = (Ok tt, <["bike_insights" := data]> fd2)
        ∧ (<["bike_insights" := data]> fd2) !! "bike_insights" = Some data.
Proof.
  intros data fd.
  apply (export_import_roundtrip TextCodec.stringify TextCodec.parse TextCodec.csv
           (λ v _, TextCodecProps.parse_stringify v) TextCodecProps.parse_empty
           fd "bike_insights" "2024-01-01T00:00:00.000Z" "2024-01-01T00:00:00.000Z"
           data).
  - reflexivity.
  - intros Hempty.
    apply (f_equal (λ m : gmap string value, m !! "stores")) in Hempty.
    vm_compute in Hempty. discriminate.
  - vm_compute. reflexivity.
Defined.

End DataManagerProps.

(** ** Reference resolution *)

Module ResolverProps.
Import ImprovedDynamicFormGenerator.

(** C6.  Resolution is idempotent: a second call of [resolveReference] on
    the same [$ref], right after the first and with the same schema
    document, ends as the first did, with the same definition, the same
    not-found value or the same exception, and changes nothing more. *)
Theorem resolveReference_idempotent (ref : string) (g : generator) :
  (resolveReference ref (resolveReference ref g).2).1 = (resolveReference ref g).1
  ∧ (resolveReference ref (resolveReference ref g).2).2 = (resolveReference ref g).2.
Proof.
  unfold resolveReference. js_simpl.
  destruct (referenceCache g !! ref) as [cached|] eqn:Hcache; simpl.
  { by rewrite Hcache. }
  destruct (lookupReference (rawSchema g) ref) as [v|e] eqn:Hlook; simpl.
  - destruct (truthy v) eqn:Hv; simpl.
    + by rewrite lookup_insert_eq.
    + by rewrite Hcache, Hlook, Hv.
  - by rewrite Hcache, Hlook.
Qed.

Lemma get_loaded (raw : value) (k : string) :
  raw ≠ VNull → raw ≠ VUndefined → get raw k = Ok (get_own raw k).
Proof. by destruct raw. Qed.

Lemma get_own_truthy (x : value) (k : string) :
  truthy (get_opt x k) = true → get_own x k = get_opt x k.
Proof. by destruct x. Qed.

Lemma first_match_cons (v : value) (l : list value) :
  first_match (v :: l) = if truthy v then v else first_match l.
Proof.
  unfold first_match. rewrite filter_cons.
  destruct (truthy v); by case_decide.
Qed.

Lemma findVariation_first_match (raw : value) (vs : list string) :
  raw ≠ VNull → raw ≠ VUndefined →
  findVariation raw vs
  = Ok (head (filter (λ v, truthy v = true)
                (flat_map (λ variation,
                             [get_opt (get_own raw "schemas") variation;
                              get_opt (get_own raw "definitions") variation]) vs))).
Proof.
  intros Hnull Hundef. induction vs as [|variation vs IH]; [done|].
  cbn [findVariation flat_map app]. rewrite !get_loaded by done.
  rewrite !filter_cons.
  destruct (truthy (get_opt (get_own raw "schemas") variation)) eqn:Hs.
  { rewrite decide_True by done. by rewrite get_own_truthy. }
  rewrite decide_False by done.
  destruct (truthy (get_opt (get_own raw "definitions") variation)) eqn:Hd.
  { rewrite decide_True by done. by rewrite get_own_truthy. }
  by rewrite decide_False by done.
Qed.

Lemma findInDefinitions_first_match (raw : value) (defName : string) :
  raw ≠ VNull → raw ≠ VUndefined →
  findInDefinitions raw defName = Ok (first_match (candidates raw defName)).
Proof.
  intros Hnull Hundef. unfold findInDefinitions, candidates.
  rewrite !get_loaded by done. rewrite !first_match_cons.
  destruct (truthy (get_opt (get_own raw "definitions") defName)) eqn:Hd.
  { by rewrite get_own_truthy. }
  destruct (truthy (get_opt (get_own raw "schemas") defName)) eqn:Hs.
  { by rewrite get_own_truthy. }
  rewrite findVariation_first_match by done. unfold first_match.
  by destruct (head _).
Qed.

Lemma prefix_empty (s : string) : String.prefix "" s = true.
Proof. by destruct s. Qed.

Lemma prefix_append (p s : string) : String.prefix p (p +:+ s) = true.
Proof.
  induction p as [|c p IH]; simpl; [apply prefix_empty|].
  by destruct (ascii_dec c c).
Qed.

Lemma string_drop_append (p s : string) :
  string_drop (String.length p) (p +:+ s) = s.
Proof. induction p as [|c p IH]; simpl; [by destruct s | done]. Qed.

Lemma replace_first_unfold (pat s : string) :
  replace_first pat s
  = if String.prefix pat s then string_drop (String.length pat) s
    else match s with
         | EmptyString => EmptyString
         | String c s' => String c (replace_first pat s')
         end.
Proof. by destruct s. Qed.

Lemma replace_first_append (p s : string) : replace_first p (p +:+ s) = s.
Proof.
  by rewrite replace_first_unfold, prefix_append, string_drop_append.
Qed.

Lemma lookupReference_defs (raw : value) (name : string) :
  lookupReference raw ("#/$defs/" +:+ name) = findInDefinitions raw name.
Proof.
  unfold lookupReference, startsWith.
  by rewrite prefix_append, replace_first_append.
Qed.

Lemma lookupReference_definitions (raw : value) (name : string) :
  lookupReference raw ("#/definitions/" +:+ name) = findInDefinitions raw name.
Proof.
  unfold lookupReference, startsWith.
  rewrite (prefix_append "#/definitions/"), replace_first_append.
  reflexivity.
Qed.

Lemma lookupReference_schemas (raw : value) (name : string) :
  lookupReference raw ("#/schemas/" +:+ name)
  = match get raw "schemas" with
    | Throw e => Throw e
    | Ok schemas => Ok (get_opt schemas name)
    end.
Proof.
  unfold lookupReference, startsWith.
  rewrite (prefix_append "#/schemas/"), replace_first_append.
  reflexivity.
Qed.

Lemma resolveReference_uncached (ref : string) (g : generator) :
  referenceCache g !! ref = None →
  (resolveReference ref g).1 = lookupReference (rawSchema g) ref.
Proof.
  intros Hmiss. unfold resolveReference. js_simpl. rewrite Hmiss. simpl.
  destruct (lookupReference (rawSchema g) ref) as [v|e]; simpl; [|done].
  by destruct (truthy v).
Qed.

Lemma lookupReference_other (raw : value) (ref : string) :
  startsWith ref "#/$defs/" = false →
  startsWith ref "#/definitions/" = false →
  startsWith ref "#/schemas/" = false →
  lookupReference raw ref
  = match get raw "schemas" with
    | Throw e => Throw e
    | Ok schemas =>
        if truthy (get_opt schemas (strip_pointer_path ref))
        then Ok (get_opt schemas (strip_pointer_path ref))
        else findInDefinitions raw (strip_pointer_path ref)
    end.
Proof. unfold lookupReference. by intros -> -> ->. Qed.

(** C4, as amended.  With a schema document loaded and nothing cached for
    the [$ref]: a [$ref] that starts with [#/$defs/] or [#/definitions/] is
    stripped of that prefix, and the bare name is looked up in the
    [definitions] section and in the model map, then under each name variant
    in order (the name, the name after [RootModel_], the name without its
    first [RootModel_], its snake-case form, its camel-case form) in the
    model map and in the [definitions] section; the first definition found
    is the result, and [null] when there is none.  A [$ref] that starts with
    [#/schemas/] is looked up in the model map under its bare name only,
    without any variant, and is [undefined] when absent.  Any other [$ref]
    loses its leading [#/.../] path and is looked up in the model map and
    then as after [#/$defs/].  No exception is raised.  The names are made
    of ASCII characters, and neither a name nor one of its variants is the
    name of a member of [Object.prototype]. *)
Theorem resolveReference_lookup_order (g : generator) :
  rawSchema g ≠ VNull → rawSchema g ≠ VUndefined →
  (∀ name ref,
     (ref = "#/$defs/" +:+ name ∨ ref = "#/definitions/" +:+ name) →
     plain_name name →
     referenceCache g !! ref = None →
     (resolveReference ref g).1
     = Ok (first_match (candidates (rawSchema g) name)))
  ∧ (∀ name,
       name ∉ object_prototype_names →
       referenceCache g !! ("#/schemas/" +:+ name) = None →
       (resolveReference ("#/schemas/" +:+ name) g).1
       = Ok (get_opt (get_own (rawSchema g) "schemas") name))
  ∧ (∀ ref,
       startsWith ref "#/$defs/" = false →
       startsWith ref "#/definitions/" = false →
       startsWith ref "#/schemas/" = false →
       all_chars is_ascii ref = true →
       plain_name (strip_pointer_path ref) →
       referenceCache g !! ref = None →
       (resolveReference ref g).1
       = Ok (first_match
               (get_opt (get_own (rawSchema g) "schemas") (strip_pointer_path ref)
                  :: candidates (rawSchema g) (strip_pointer_path ref)))).
Proof.
  intros Hnull Hundef. split; [|split].
  - intros name ref Href _ Hmiss. rewrite resolveReference_uncached by done.
    destruct Href as [-> | ->].
    + rewrite lookupReference_defs. by apply findInDefinitions_first_match.
    + rewrite lookupReference_definitions.
      by apply findInDefinitions_first_match.
  - intros name _ Hmiss. rewrite resolveReference_uncached by done.
    rewrite lookupReference_schemas. by rewrite get_loaded.
  - intros ref H1 H2 H3 _ _ Hmiss. rewrite resolveReference_uncached by done.
    rewrite lookupReference_other by done. rewrite get_loaded by done.
    rewrite first_match_cons.
    destruct (truthy _); [done|]. by apply findInDefinitions_first_match.
Qed.

Lemma resolveReference_lookup_order_witness :
  let g := {| rawSchema :=
                VObj {[ "schemas" :=
                          VObj {[ "bike_stock" := VObj {[ "type" := VStr "object" ]} ]} ]};
              referenceCache := ∅ |} in
  (resolveReference ("#/$defs/" +:+ "BikeStock") g).1
  = Ok (first_match (candidates (rawSchema g) "BikeStock"))
  ∧ first_match (candidates (rawSchema g) "BikeStock")
    = VObj {[ "type" := VStr "object" ]}.
Proof.
  intros g. split.
  - apply (proj1 (resolveReference_lookup_order g
                    ltac:(discriminate) ltac:(discriminate)) "BikeStock");
      [by left | | reflexivity].
    split; [reflexivity|].
    apply (bool_decide_unpack _). vm_compute. exact I.
  - vm_compute. reflexivity.
Defined.

(** C4 as stated fails on a [$ref] into [#/schemas/]: the model map has the
    [RootModel_] variant of the name, which the resolver of the
    specification finds, and [resolveReference] answers [undefined]. *)
Lemma resolveReference_schemas_no_variants :
  let g := {| rawSchema :=
                VObj {[ "schemas" :=
                          VObj {[ "RootModel_Store" := VObj {[ "type" := VStr "object" ]} ]} ]};
              referenceCache := ∅ |} in
  resolveReference "#/schemas/Store" g = (Ok VUndefined, g)
  ∧ spec_resolve (rawSchema g) "#/schemas/Store" = VObj {[ "type" := VStr "object" ]}.
Proof. intros g. split; vm_compute; reflexivity. Qed.

End ResolverProps.

(** ** Fetching a schema *)

Module ArrayManagerProps.
Import ArrayManager.

Lemma fetchSchema_cases (fetch : string → fetched) (a : arrayManager)
    (workflowName : string) :
  truthy (default VUndefined (schemaCache a !! workflowName)) = false →
  workflowName ∉ object_prototype_names →
  match fetch (API_BASE_URL a +:+ "/schema/" +:+ workflowName +:+ "/") with
  | Response status (Some schema) =>
      if ok status then
        fetchSchema fetch workflowName a
        = Some (Ok schema,
                {| schemaCache := <[workflowName := schema]> (schemaCache a);
                   API_BASE_URL := API_BASE_URL a |})
      else
        fetchSchema fetch workflowName a
        = Some (Throw (Error ("Schema fetch failed: " +:+ workflowName)), a)
  | Response _ None | NetworkError =>
      fetchSchema fetch workflowName a
      = Some (Throw (Error ("Schema fetch failed: " +:+ workflowName)), a)
  end.
Proof.
  intros Hmiss Hplain. unfold fetchSchema. jsp_simpl.
  rewrite inherits_plain by done. rewrite Hmiss.
  destruct (fetch _) as [|status [schema|]]; simpl; try done.
  - by destruct (ok status).
  - by destruct (ok status).
Qed.

(** C8, as amended.  For a workflow name that the schema cache does not
    hold and that is not the name of a member of [Object.prototype],
    [fetchSchema] returns the parsed schema, and caches it, exactly when the
    response is 2xx and its body is JSON; it raises the error
    [Schema fetch failed], with the cache as it was, exactly when the fetch
    fails, the response is not 2xx, or the body of a 2xx response is not
    JSON.  A response that is not 2xx is never returned as a schema. *)
Theorem fetchSchema_outcomes (fetch : string → fetched) (a : arrayManager)
    (workflowName : string) :
  truthy (default VUndefined (schemaCache a !! workflowName)) = false →
  workflowName ∉ object_prototype_names →
  let url := API_BASE_URL a +:+ "/schema/" +:+ workflowName +:+ "/" in
  (∀ schema a',
     fetchSchema fetch workflowName a = Some (Ok schema, a')
     ↔ (∃ status, fetch url = Response status (Some schema) ∧ ok status = true)
       ∧ a' = {| schemaCache := <[workflowName := schema]> (schemaCache a);
                 API_BASE_URL := API_BASE_URL a |})
  ∧ (∀ e a',
       fetchSchema fetch workflowName a = Some (Throw e, a')
       ↔ (fetch url = NetworkError
          ∨ ∃ status body, fetch url = Response status body
                           ∧ (ok status = false ∨ body = None))
         ∧ e = Error ("Schema fetch failed: " +:+ workflowName) ∧ a' = a).
Proof.
  intros Hmiss Hplain url.
  pose proof (fetchSchema_cases fetch a workflowName Hmiss Hplain) as Hcases.
  fold url in Hcases.
  destruct (fetch url) as [|status [schema0|]] eqn:Hfetch;
    [| destruct (ok status) eqn:Hok |]; rewrite Hcases; clear Hcases.
  all: split; [intros schema a' | intros e a']; split; intros H.
  all: try (injection H as <- <-); try discriminate H.
  all: try (destruct H as [(st & Hr & Hst) ->]; simplify_eq; done).
  all: try (destruct H as ([Hr | (st & bd & Hr & [Hst | Hbd])] & -> & ->);
            simplify_eq; done).
  all: try (split; [eauto|done]).
  all: try (split; [|done]; right; eauto 6).
  all: try (split; [|done]; by left).
  all: try (right; do 2 eexists; split; [reflexivity|]; by eauto).
  all: destruct H as [H1 H2]; try destruct H1 as [Hr | (st & bd & Hr & [Hst | Hbd])];
    try destruct H1 as (st & Hr & Hst); simplify_eq; congruence.
Qed.

Lemma fetchSchema_outcomes_witness :
  let a := {| schemaCache := ∅;
              API_BASE_URL := "http://localhost:8000/api/v1/custom-workflows" |} in
  fetchSchema (λ _, Response 500 (Some (VObj ∅))) "bike_insights" a
  = Some (Throw (Error "Schema fetch failed: bike_insights"), a).
Proof.
  intros a.
  apply (proj2 (fetchSchema_outcomes (λ _, Response 500 (Some (VObj ∅))) a
                  "bike_insights" eq_refl
                  ltac:(apply (bool_decide_unpack _); vm_compute; exact I))).
  split; [|done].
  right. exists 500, (Some (VObj ∅)). split; [reflexivity | by left].
Defined.

(** C8 as stated fails on a 2xx response whose body is not JSON: the fetch
    has not failed and the status is 200, yet an error is raised and no
    schema is returned. *)
Lemma fetchSchema_ok_without_json :
  let a := {| schemaCache := ∅;
              API_BASE_URL := "http://localhost:8000/api/v1/custom-workflows" |} in
  ok 200 = true
  ∧ fetchSchema (λ _, Response 200 None) "bike_insights" a
    = Some (Throw (Error "Schema fetch failed: bike_insights"), a).
Proof. intros a. split; reflexivity. Qed.

(** Under a name that the cache inherits nothing is fetched: the member of
    [Object.prototype] is returned for a schema. *)
Lemma fetchSchema_inherited_name (fetch : string → fetched) :
  let a := {| schemaCache := ∅;
              API_BASE_URL := "http://localhost:8000/api/v1/custom-workflows" |} in
  schemaCache a !! "toString" = None
  ∧ fetchSchema fetch "toString" a = None.
Proof. intros a. split; [done|]. by vm_compute. Qed.

End ArrayManagerProps.

(** ** Selecting a union variant *)

Module WorkflowProps.
Import DynamicWorkflowManager.

Lemma updateFormData_store (fd : gmap string (gmap string value))
    (cs f : string) (x : value) :
  DataManager.updateFormData cs f x fd
  = (Ok tt, <[cs := <[f := x]> (default ∅ (fd !! cs))]> fd).
Proof.
  unfold DataManager.updateFormData, DataManager.ensureSchema,
    DataManager.setField, DataManager.saveToStorage.
  js_simpl. destruct (fd !! cs) as [t|] eqn:Ht; simpl.
  - by rewrite Ht.
  - rewrite lookup_insert_eq. simpl. by rewrite insert_insert_eq.
Qed.

Lemma initializeUnionFormData_over_string (fd : gmap string (gmap string value))
    (cs f v : string) (t : gmap string value) (schema : value) :
  fd !! cs = Some t → t !! f = Some (VStr v) → truthy schema = true →
  DataManager.initializeUnionFormData cs f schema fd
  = (Ok tt, <[cs := <[f := VObj (declared_defaults schema)]> t]> fd).
Proof.
  intros Ht Hf Hschema.
  unfold DataManager.initializeUnionFormData, DataManager.ensureSchema,
    DataManager.setField, DataManager.saveToStorage, DataManager.field,
    declared_defaults.
  js_simpl. rewrite Ht. simpl. rewrite Hf. simpl.
  rewrite orb_true_r. simpl.
  destruct schema; simpl in *; try done; by rewrite Ht.
Qed.

Lemma selectedUnionSchema_truthy (m : manager) (f v : string) (schema : value) :
  selectedUnionSchema m f v = Ok (Some schema) → truthy schema = true.
Proof.
  unfold selectedUnionSchema.
  repeat (case_match; simplify_eq/=); try done.
  intros [= <-]. by apply negb_false_iff.
Qed.

Lemma selectedUnionSchema_frame (m m' : manager) (f v : string) :
  currentSchema m' = currentSchema m → fieldCache m' = fieldCache m →
  schemaCache m' = schemaCache m →
  selectedUnionSchema m' f v = selectedUnionSchema m f v.
Proof. unfold selectedUnionSchema. by intros -> -> ->. Qed.

Section Rendering.

Variable generateUnionSchemaFields : string → value → value → outcome string.

(** [renderUnionFields] never throws; it leaves the caches alone, and the
    store too unless the schema of the option is found and rendered, in
    which case [initializeUnionFormData] has run on the store. *)
Lemma renderUnionFields_effect (m : manager) (f v : string) :
  let m' := (renderUnionFields generateUnionSchemaFields f v m).2 in
  currentSchema m' = currentSchema m
  ∧ schemaCache m' = schemaCache m
  ∧ fieldCache m' = fieldCache m
  ∧ dataManager m'
    = fd ← dataManager m;
      Some (match selectedUnionSchema m f v with
            | Ok (Some schema) =>
                match generateUnionSchemaFields f schema
                        (get_own (cached_union m f) "allSchemas") with
                | Ok _ =>
                    (DataManager.initializeUnionFormData (currentSchema m) f
                       schema fd).2
                | Throw _ => fd
                end
            | _ => fd
            end).
Proof.
  unfold renderUnionFields, initializeUnionFormData, delegate, cached_union.
  js_simpl.
  destruct (selectedUnionSchema m f v) as [[schema|]|e] eqn:Hsel; simpl;
    [| by destruct (dataManager m) | by destruct (dataManager m)].
  destruct (bool_decide (is_Some (dom m !! ("union-fields-" +:+ f))))
    eqn:Hdom; simpl.
  - destruct (generateUnionSchemaFields f schema _) as [html|e]; simpl;
      [|by destruct (dataManager m)].
    rewrite lookup_insert_eq. rewrite bool_decide_eq_true_2 by eauto. simpl.
    destruct (dataManager m) as [fd|] eqn:Hdm; simpl; [|done].
    by destruct (DataManager.initializeUnionFormData (currentSchema m) f schema fd)
      as [[[]|e] fd'].
  - destruct (generateUnionSchemaFields f schema _) as [html|e]; simpl;
      [|by destruct (dataManager m)].
    rewrite Hdom. simpl.
    destruct (dataManager m) as [fd|] eqn:Hdm; simpl; [|done].
    by destruct (DataManager.initializeUnionFormData (currentSchema m) f schema fd)
      as [[[]|e] fd'].
Qed.

(** What a selection does: the caches stay, the other fields of the store
    stay, and the selected field is overwritten with the declared defaults
    of the schema of the option when that schema is found and rendered, and
    with the bare value of the option otherwise. *)
Lemma selectUnionOption_effect (m : manager) (f v : string) :
  let m' := (selectUnionOption generateUnionSchemaFields f v m).2 in
  currentSchema m' = currentSchema m
  ∧ schemaCache m' = schemaCache m
  ∧ fieldCache m' = fieldCache m
  ∧ (∀ g, g ≠ f → stored m' g = stored m g)
  ∧ match dataManager m with
    | None => stored m' f = None
    | Some _ =>
        is_Some (dataManager m')
        ∧ stored m' f = Some (variant_data generateUnionSchemaFields m f v)
    end.
Proof.
  unfold selectUnionOption, updateFormData, delegate. js_simpl.
  destruct (dataManager m) as [fd|] eqn:Hdm; simpl.
  - rewrite updateFormData_store. simpl.
    set (t0 := default ∅ (fd !! currentSchema m)).
    set (fd1 := <[currentSchema m := <[f := VStr v]> t0]> fd).
    set (m1 := set_dataManager fd1 m).
    destruct (renderUnionFields_effect m1 f v) as (Hcs & Hsc & Hfc & Hstore).
    set (m' := (renderUnionFields generateUnionSchemaFields f v m1).2) in *.
    assert (Hold : ∀ g, g ≠ f → (<[f := VStr v]> t0) !! g = stored m g).
    { intros g Hg. rewrite lookup_insert_ne by done. unfold stored, t0.
      rewrite Hdm. simpl. by destruct (fd !! currentSchema m). }
    assert (selectedUnionSchema m1 f v = selectedUnionSchema m f v) as Hsel
      by done.
    assert (cached_union m1 f = cached_union m f) as Hcached by done.
    rewrite Hsel, Hcached in Hstore. simpl in Hstore.
    unfold variant_data.
    split; [exact Hcs|]. split; [exact Hsc|]. split; [exact Hfc|].
    assert (∀ x, dataManager m' = Some (<[currentSchema m := <[f := x]> t0]> fd) →
              (∀ g, g ≠ f → stored m' g = stored m g)
              ∧ is_Some (dataManager m') ∧ stored m' f = Some x) as Hends.
    { intros x Hm'. split; [|split].
      - intros g Hg. unfold stored at 1. rewrite Hcs, Hm'. simpl.
        rewrite lookup_insert_eq. simpl. rewrite lookup_insert_ne by done.
        rewrite <-(Hold g Hg). by rewrite lookup_insert_ne.
      - by eexists.
      - unfold stored. rewrite Hcs, Hm'. simpl.
        rewrite lookup_insert_eq. simpl. by rewrite lookup_insert_eq. }
    destruct (selectedUnionSchema m f v) as [[schema|]|e] eqn:Hfound;
      [destruct (generateUnionSchemaFields f schema _) as [html|e] |..].
    2-4: by apply Hends.
    apply Hends. rewrite Hstore.
    rewrite (initializeUnionFormData_over_string fd1 _ f v (<[f := VStr v]> t0));
      [| by unfold fd1; rewrite lookup_insert_eq
       | by rewrite lookup_insert_eq
       | by eapply selectedUnionSchema_truthy].
    simpl. unfold fd1. by rewrite !insert_insert_eq.
  - destruct (renderUnionFields_effect m f v) as (Hcs & Hsc & Hfc & Hstore).
    rewrite Hdm in Hstore. simpl in Hstore.
    repeat split; try done; intros; unfold stored; rewrite Hstore; simpl;
      by rewrite ?Hdm.
Qed.

(** What an edit of a property does to the field it is made on, and to the
    other fields of the schema. *)
Lemma updateUnionFieldData_field (fd fd' : gmap string (gmap string value))
    (cs f p : string) (v : value) (r : outcome unit) :
  DataManagerFields.updateUnionFieldData cs f p v fd = Some (r, fd') →
  (fd' !! cs ≫= (.!! f)) = UnionField.edited (fd !! cs ≫= (.!! f)) (p, v)
  ∧ (∀ g, g ≠ f → (fd' !! cs ≫= (.!! g)) = (fd !! cs ≫= (.!! g))).
Proof.
  unfold DataManagerFields.updateUnionFieldData, DataManagerFields.ensureField,
    DataManager.ensureSchema, DataManager.setField, DataManager.saveToStorage,
    DataManager.field, UnionField.edited.
  jsp_simpl.
  destruct (fd !! cs) as [t|] eqn:Ht; simpl.
  - destruct (t !! f) as [x|] eqn:Hx; simpl.
    + destruct (truthy x) eqn:Htr; simpl.
      * destruct (set_prop x p v) as [[parent'|e]|]; simpl; [| |done].
        -- rewrite Ht. simpl. intros [= <- <-].
           rewrite lookup_insert_eq. simpl. rewrite lookup_insert_eq.
           split; [done|]. intros g Hg. by rewrite lookup_insert_ne.
        -- intros [= <- <-]. rewrite Ht. simpl. by rewrite Hx.
      * rewrite Ht. simpl. rewrite lookup_insert_eq. simpl.
        intros [= <- <-]. rewrite lookup_insert_eq. simpl.
        rewrite insert_insert_eq, lookup_insert_eq.
        split; [done|]. intros g Hg. by rewrite lookup_insert_ne.
    + rewrite Ht. simpl. rewrite lookup_insert_eq. simpl.
      intros [= <- <-]. rewrite lookup_insert_eq. simpl.
      rewrite insert_insert_eq, lookup_insert_eq.
      split; [done|]. intros g Hg. by rewrite lookup_insert_ne.
  - rewrite ?lookup_empty. simpl. rewrite ?lookup_insert_eq. simpl.
    rewrite ?lookup_insert_eq. simpl.
    intros [= <- <-]. rewrite lookup_insert_eq. simpl.
    split; [by rewrite lookup_insert_eq|].
    intros g Hg. by rewrite !lookup_insert_ne by done.
Qed.

Lemma updateUnionFieldData_effect (m m' : manager) (f p : string) (v : value)
    (r : outcome unit) :
  UnionField.updateUnionFieldData f p v m = Some (r, m') →
  (is_Some (dataManager m) →
   stored m' f = UnionField.edited (stored m f) (p, v))
  ∧ (∀ g, g ≠ f → stored m' g = stored m g).
Proof.
  unfold UnionField.updateUnionFieldData, stored.
  destruct (dataManager m) as [fd|] eqn:Hdm; simpl.
  - destruct (DataManagerFields.updateUnionFieldData (currentSchema m) f p v fd)
      as [[r' fd']|] eqn:Hupdate; [|done].
    intros [= <- <-]. simpl.
    apply updateUnionFieldData_field in Hupdate as [Hf Hother].
    split; [done|]. intros g Hg. by apply Hother.
  - intros [= <- <-]. rewrite Hdm. split; [by intros [? ?]|done].
Qed.

Lemma resetFormData_stored (m : manager) (f : string) :
  currentSchema m ≠ "" → stored (WorkflowPage.resetFormData m).2 f = None.
Proof.
  intros Hname. unfold WorkflowPage.resetFormData, delegate, stored,
    DataManagerFields.resetFormData, DataManager.saveToStorage.
  js_simpl. rewrite (proj2 (String.eqb_neq _ "") Hname). simpl.
  destruct (dataManager m) as [fd|] eqn:Hdm; simpl; [|by rewrite Hdm].
  by rewrite lookup_insert_eq.
Qed.

(** C3.  After variant A of a union field was selected, and whatever was
    then done to the store, selecting variant B leaves under the field the
    declared default fields of B and nothing else when the schema of B is
    found and its fields are rendered, and the bare value of B in every
    other case: nothing that belonged to A stays.  And in every state that
    selections and edits reach, a union field holds at most one variant:
    what the last selection left under it with the edits made since.  The
    names of the schema at work, of the field and of the schemas of the
    options are names that a plain object does not inherit. *)
Theorem union_selection_exclusive (f : string) :
  f ∉ object_prototype_names →
  (∀ (m : manager) (A B : string)
     (edits : gmap string (gmap string value) → gmap string (gmap string value)),
     is_Some (dataManager m) →
     currentSchema m ∉ object_prototype_names →
     plain_refs (cached_union m f) = true →
     let mA := (selectUnionOption generateUnionSchemaFields f A m).2 in
     let mB := (selectUnionOption generateUnionSchemaFields f B
                  (edit_store edits mA)).2 in
     stored mB f = Some (variant_data generateUnionSchemaFields m f B)
     ∧ (∀ schemaB html,
          selectedUnionSchema m f B = Ok (Some schemaB) →
          generateUnionSchemaFields f schemaB
            (get_own (cached_union m f) "allSchemas") = Ok html →
          stored mB f = Some (VObj (declared_defaults schemaB))))
  ∧ (∀ m s,
       UnionField.reachable generateUnionSchemaFields f m s →
       UnionField.holds_one_variant m f s).
Proof.
  intros Hf. split.
  - intros m A B edits [fd Hdm] _ _ mA mB.
    destruct (selectUnionOption_effect m f A) as (HcsA & HscA & HfcA & _ & HA).
    rewrite Hdm in HA. destruct HA as [[fdA HdmA] _].
    fold mA in HcsA, HscA, HfcA, HdmA.
    destruct (selectUnionOption_effect (edit_store edits mA) f B)
      as (_ & _ & _ & _ & HB).
    unfold edit_store in HB at 1. rewrite HdmA in HB. simpl in HB.
    destruct HB as [_ HB]. fold mB in HB.
    assert (variant_data generateUnionSchemaFields (edit_store edits mA) f B
            = variant_data generateUnionSchemaFields m f B) as Hsame.
    { unfold variant_data, cached_union, edit_store. rewrite HdmA. simpl.
      rewrite HcsA, HfcA.
      by rewrite (selectedUnionSchema_frame m (set_dataManager (edits fdA) mA)). }
    rewrite Hsame in HB. split; [done|].
    intros schemaB html Hsel Hrender. rewrite HB.
    unfold variant_data. by rewrite Hsel, Hrender.
  - intros m s Hreach. unfold UnionField.holds_one_variant.
    induction Hreach
      as [m Hnone
         | m s v _ _ [fd Hdm] _ _
         | m s p v r m' _ IH Hdm _ _ Hedit
         | m s g v _ IH Hne _
         | m s g p v r m' _ IH Hne _ _ Hedit
         | m s _ _ Hname _
         | m s m' _ IH Hsame]; simpl.
    + done.
    + destruct (selectUnionOption_effect m f v) as (_ & _ & _ & _ & Hsel).
      rewrite Hdm in Hsel. by destruct Hsel as [_ ->].
    + apply updateUnionFieldData_effect in Hedit as [Hedit _].
      rewrite foldl_snoc, <-IH. by apply Hedit.
    + destruct (selectUnionOption_effect m g v) as (_ & _ & _ & Hother & _).
      rewrite Hother by done. exact IH.
    + apply updateUnionFieldData_effect in Hedit as [_ Hother].
      rewrite Hother by done. exact IH.
    + by apply resetFormData_stored.
    + by rewrite Hsame.
Qed.

End Rendering.

Lemma union_selection_exclusive_witness :
  let options :=
    VArr [ VObj {[ "value" := VStr "Mountain"; "schema_ref" := VStr "#/$defs/MountainBike" ]};
           VObj {[ "value" := VStr "Electric"; "schema_ref" := VStr "#/$defs/ElectricBike" ]} ] in
  let schemas :=
    VObj {[ "MountainBike" := VObj {[ "default_values" := VObj {[ "suspension" := VStr "full" ]} ]};
            "ElectricBike" := VObj {[ "default_values" := VObj {[ "battery" := VNum 500 ]} ]} ]} in
  let m :=
    {| dataManager := Some ∅;
       currentSchema := "bike_insights";
       schemaCache := ∅;
       fieldCache :=
         {[ "bike_insights_bike_union" :=
              VObj {[ "unionOptions" := options; "allSchemas" := schemas ]} ]};
       dom := {[ "union-fields-bike" := "" ]} |} in
  let render := λ (_ : string) (_ _ : value), Ok "<div></div>" in
  let edits := λ fd : gmap string (gmap string value),
    <["bike_insights" := {[ "bike" := VObj {[ "suspension" := VStr "hardtail" ]} ]}]> fd in
  let mA := (selectUnionOption render "bike" "Mountain" m).2 in
  let mB := (selectUnionOption render "bike" "Electric" (edit_store edits mA)).2 in
  let mE := match UnionField.updateUnionFieldData "bike" "suspension"
                    (VStr "hardtail") mA with
            | Some (_, m') => m'
            | None => mA
            end in
  stored mB "bike" = Some (variant_data render m "bike" "Electric")
  ∧ stored mA "bike" = Some (VObj {[ "suspension" := VStr "full" ]})
  ∧ stored mB "bike" = Some (VObj {[ "battery" := VNum 500 ]})
  ∧ UnionField.holds_one_variant mE "bike"
      {| UnionField.selection := Some (variant_data render m "bike" "Mountain");
         UnionField.edits := [("suspension", VStr "hardtail")] |}
  ∧ stored mE "bike" = Some (VObj {[ "suspension" := VStr "hardtail" ]}).
Proof.
  intros options schemas m render edits mA mB mE.
  assert ("bike" ∉ object_prototype_names) as Hbike
    by (apply (bool_decide_unpack _); vm_compute; exact I).
  assert (currentSchema m ∉ object_prototype_names) as Hcs
    by (apply (bool_decide_unpack _); vm_compute; exact I).
  split; [|split; [|split; [|split]]].
  - apply (proj1 (union_selection_exclusive render "bike" Hbike)
             m "Mountain" "Electric" edits);
      [by eexists | exact Hcs | vm_compute; reflexivity].
  - vm_compute. reflexivity.
  - vm_compute. reflexivity.
  - apply (proj2 (union_selection_exclusive render "bike" Hbike)).
    apply (UnionField.reachable_edit render "bike" mA
             {| UnionField.selection := Some (variant_data render m "bike" "Mountain");
                UnionField.edits := [] |}
             "suspension" (VStr "hardtail") (Ok tt) mE);
      [| by eexists | exact Hcs | discriminate | vm_compute; reflexivity].
    apply (UnionField.reachable_select render "bike" m
             {| UnionField.selection := None; UnionField.edits := [] |} "Mountain");
      [| by eexists | exact Hcs | vm_compute; reflexivity].
    by apply UnionField.reachable_unselected.
  - vm_compute. reflexivity.
Defined.

End WorkflowProps.

(** ** The other mutators of the store *)

Module DataManagerFieldsProps.
Import DataManager DataManagerFields.

Lemma array_put_inside (l : list value) (i : nat) (v : value) :
  (i < length l)%nat → array_put l i v = Some (<[i := v]> l).
Proof. intros Hi. unfold array_put. by rewrite decide_True. Qed.

Lemma array_put_end (l : list value) (v : value) :
  array_put l (length l) v = Some (l ++ [v]).
Proof.
  unfold array_put. rewrite decide_False by lia. by rewrite decide_True.
Qed.

Lemma ensureField_found (fd : gmap string (gmap string value))
    (cs f : string) (init x : value) (t : gmap string value) :
  fd !! cs = Some t → t !! f = Some x → truthy x = true →
  ensureField cs f init fd = (Ok x, fd).
Proof.
  intros Ht Hf Hx. unfold ensureField, ensureSchema, field. js_simpl.
  rewrite Ht. simpl. rewrite Hf. simpl. by rewrite Hx.
Qed.

Lemma ensureField_created (fd : gmap string (gmap string value))
    (cs f : string) (init : value) :
  truthy (field (getFormDataForSchema cs fd) f) = false →
  ensureField cs f init fd
  = (Ok init, <[cs := <[f := init]> (getFormDataForSchema cs fd)]> fd).
Proof.
  unfold ensureField, ensureSchema, setField, getFormDataForSchema, field.
  js_simpl. destruct (fd !! cs) as [t|] eqn:Ht; simpl.
  - intros ->. by rewrite Ht.
  - intros _. rewrite lookup_empty. simpl. rewrite lookup_insert_eq. simpl.
    by rewrite insert_insert_eq.
Qed.

Lemma setField_present (fd : gmap string (gmap string value))
    (cs f : string) (x : value) (t : gmap string value) :
  fd !! cs = Some t →
  setField cs f x fd = (Ok tt, <[cs := <[f := x]> t]> fd).
Proof. intros Ht. unfold setField. js_simpl. by rewrite Ht. Qed.



(** X2.  [initializeFormData] is idempotent: a second call with the same
    model, made in the state that the first call left, ends as the first
    did (with the TypeError of a model that is [null] or [undefined] when
    the first ended so, the entry of the schema being there by then) and
    changes nothing more.  The name of the schema is not the name of a
    member of [Object.prototype], and no default is declared for
    [__proto__]. *)
Theorem initializeFormData_idempotent (fd : gmap string (gmap string value))
    (currentSchema : string) (model : value) :
  currentSchema ∉ object_prototype_names →
  spread (get_own model "default_values") !! "__proto__" = None →
  let first := initializeFormData currentSchema model fd in
  initializeFormData currentSchema model first.2 = first
  ∧ is_Some (first.2 !! currentSchema).
Proof.
  intros _ _.
  unfold initializeFormData, ensureSchema, saveToStorage, get. js_simpl.
  destruct (fd !! currentSchema) as [t|] eqn:Ht; simpl;
    destruct model; simpl.
  all: rewrite ?Ht, ?lookup_insert_eq; simpl; try (split; [done|by eexists]).
  all: destruct (truthy _) eqn:Hdv; simpl.
  all: rewrite ?Ht, ?lookup_insert_eq; simpl; rewrite ?Hdv; simpl.
  all: rewrite ?lookup_insert_eq, ?insert_insert_eq; simpl.
  all: rewrite ?Ht; try (split; [done|by eexists]).
  all: rewrite ?(assoc_L (∪)), ?(idemp_L (∪)); by (split; [|eexists]).
Qed.

Lemma initializeFormData_idempotent_witness :
  let fd : gmap string (gmap string value) := ∅ in
  initializeFormData "rm" VNull fd = (Throw TypeError, {[ "rm" := ∅ ]})
  ∧ initializeFormData "rm" VNull (initializeFormData "rm" VNull fd).2
    = initializeFormData "rm" VNull fd
  ∧ is_Some ((initializeFormData "rm" VNull fd).2 !! "rm").
Proof.
  intros fd. split; [by vm_compute|].
  apply (initializeFormData_idempotent fd "rm" VNull); [|reflexivity].
  apply (bool_decide_unpack _). vm_compute. exact I.
Defined.

(** X3.  [resetFormData] followed by [exportData]: once a schema has been
    reset there is nothing to export for it, whatever the format; the empty
    name is not reset, so the export then goes as without the reset. *)
Theorem resetFormData_then_export (JSON_stringify : value → string)
    (convertToCSV : gmap string value → string)
    (fd : gmap string (gmap string value))
    (now today currentSchema format : string) :
  (resetFormData currentSchema;;
   exportData JSON_stringify convertToCSV now today currentSchema format) fd
  = if String.eqb currentSchema ""
    then exportData JSON_stringify convertToCSV now today currentSchema format fd
    else (Throw (Error "No data to export"), <[currentSchema := ∅]> fd).
Proof.
  unfold resetFormData, saveToStorage.
  destruct (String.eqb currentSchema "") eqn:Hname; js_simpl.
  - by destruct (exportData _ _ _ _ _ _ fd) as [[]].
  - unfold exportData, getFormDataForSchema. js_simpl.
    by rewrite lookup_insert_eq.
Qed.










(** *** Items of an array field *)

Lemma ensureField_items (fd : gmap string (gmap string value))
    (cs f : string) (l : list value) :
  stored_items fd cs f = Some l →
  ensureField cs f (VArr []) fd
  = (Ok (VArr l), <[cs := <[f := VArr l]> (getFormDataForSchema cs fd)]> fd).
Proof.
  intros Hst. apply DataManagerProps.stored_items_found in Hst as (_ & _ & Hst).
  destruct (truthy (field (getFormDataForSchema cs fd) f)) eqn:Htr.
  - unfold field, getFormDataForSchema in *.
    destruct (fd !! cs) as [t|] eqn:Ht; simpl in *;
      [|by rewrite lookup_empty in Htr].
    destruct (t !! f) as [x|] eqn:Hx; simpl in *; [|done].
    destruct x; try done. injection Hst as ->.
    rewrite (ensureField_found _ _ _ _ _ _ Ht Hx) by done.
    rewrite (insert_id t) by done. by rewrite insert_id.
  - injection Hst as <-. by apply ensureField_created.
Qed.

Lemma ensureArrayItem_present (fd : gmap string (gmap string value))
    (cs f : string) (i : nat) (t : gmap string value) (l : list value)
    (x : value) :
  fd !! cs = Some t → t !! f = Some (VArr l) → l !! i = Some x →
  truthy x = true →
  ensureArrayItem cs f i fd = Some (Ok (VArr l, x), fd).
Proof.
  intros Ht Hf Hi Hx. unfold ensureArrayItem. jsp_simpl.
  rewrite (ensureField_found _ _ _ _ _ _ Ht Hf) by done. simpl.
  rewrite Hi. simpl. by rewrite Hx.
Qed.

Lemma ensureArrayItem_end (fd : gmap string (gmap string value))
    (cs f : string) (l : list value) :
  stored_items fd cs f = Some l →
  ensureArrayItem cs f (length l) fd
  = Some (Ok (VArr (l ++ [VObj ∅]), VObj ∅),
          <[cs := <[f := VArr (l ++ [VObj ∅])]> (getFormDataForSchema cs fd)]> fd).
Proof.
  intros Hst. unfold ensureArrayItem. jsp_simpl.
  rewrite (ensureField_items _ _ _ _ Hst). simpl.
  rewrite lookup_ge_None_2 by done. simpl.
  rewrite array_put_end. simpl.
  unfold setField. js_simpl. rewrite lookup_insert_eq. simpl.
  by rewrite !insert_insert_eq.
Qed.



(** X8.  [updateArrayItemData] at the index just past the end of the array
    that is found under the field (the empty array when nothing is found;
    the names of the schema and of the field are held by the store or are
    not names of members of [Object.prototype]): the item is created, so
    the array grows by one item, which is the value itself for the empty
    property name and an object with the one property otherwise, the
    property not being [__proto__]. *)
Theorem updateArrayItemData_creates (fd : gmap string (gmap string value))
    (currentSchema fieldName propName : string) (v : value) (l : list value) :
  stored_items fd currentSchema fieldName = Some l →
  propName ≠ "__proto__" →
  let item' := if String.eqb propName "" then v else VObj {[ propName := v ]} in
  ∃ fd',
    updateArrayItemData currentSchema fieldName (length l) propName v fd
    = Some (Ok tt, fd')
    ∧ stored_items fd' currentSchema fieldName = Some (l ++ [item'])
    ∧ (∀ g, g ≠ fieldName →
         getFormDataForSchema currentSchema fd' !! g
         = getFormDataForSchema currentSchema fd !! g)
    ∧ (∀ other, other ≠ currentSchema → fd' !! other = fd !! other).
Proof.
  intros Hst _ item'.
  exists (<[currentSchema := <[fieldName := VArr (l ++ [item'])]>
                               (getFormDataForSchema currentSchema fd)]> fd).
  split; [|split; [|split]].
  - unfold updateArrayItemData. unfold mbind at 1, JSp_bind.
    rewrite (ensureArrayItem_end _ _ _ _ Hst).
    assert (∀ x, array_put (l ++ [VObj ∅]) (length l) x = Some (l ++ [x]))
      as Hput.
    { intros x. rewrite array_put_inside by (rewrite length_app; simpl; lia).
      f_equal. rewrite insert_app_r_alt by done.
      by rewrite Nat.sub_diag. }
    subst item'. destruct (String.eqb propName ""); jsp_simpl;
      rewrite Hput; simpl; unfold setField, saveToStorage; js_simpl;
      rewrite lookup_insert_eq; simpl; by rewrite !insert_insert_eq.
  - eapply DataManagerProps.stored_items_held; by rewrite lookup_insert_eq.
  - intros g Hg. unfold getFormDataForSchema at 1.
    rewrite lookup_insert_eq. simpl. by rewrite lookup_insert_ne.
  - intros other Hother. by rewrite lookup_insert_ne.
Qed.

Lemma updateArrayItemData_creates_witness :
  let fd : gmap string (gmap string value) :=
    {[ "rm" := {[ "stores" := VArr [VStr "a"] ]} ]} in
  ∃ fd',
    updateArrayItemData "rm" "stores" (length [VStr "a"]) "city" (VStr "Oslo") fd
    = Some (Ok tt, fd')
    ∧ stored_items fd' "rm" "stores"
      = Some ([VStr "a"] ++ [VObj {[ "city" := VStr "Oslo" ]}])
    ∧ (∀ g, g ≠ "stores" →
         getFormDataForSchema "rm" fd' !! g = getFormDataForSchema "rm" fd !! g)
    ∧ (∀ other, other ≠ "rm" → fd' !! other = fd !! other).
Proof.
  intros fd.
  by apply (updateArrayItemData_creates fd "rm" "stores" "city" (VStr "Oslo")
              [VStr "a"]).
Defined.

Lemma assign_nested_object (o p : gmap string value)
    (parentProp nestedProp : string) (v : value) :
  let y := default VUndefined (o !! parentProp) in
  (truthy y = false ∧ p = ∅) ∨ y = VObj p →
  assign_nested (VObj o) parentProp nestedProp v
  = Some (Ok (VObj (<[parentProp := VObj (<[nestedProp := v]> p)]> o))).
Proof.
  intros y Hy. unfold assign_nested. simpl. fold y.
  destruct Hy as [[Hfalsy ->]|Hobj].
  - rewrite Hfalsy. simpl. rewrite lookup_insert_eq. simpl.
    by rewrite insert_insert_eq.
  - rewrite Hobj. simpl. fold y. by rewrite Hobj.
Qed.

(** X9.  [updateArrayItemNestedObjectFieldData] on an item that is an
    object and has nothing under the parent property: a new object is
    created under the parent property and holds the nested property and
    nothing else; the other properties of the item and the other items stay
    as they were.  The parent property is not the name of a member of
    [Object.prototype], and the nested property is not [__proto__]. *)
Theorem updateArrayItemNestedObjectFieldData_sets
    (fd : gmap string (gmap string value))
    (currentSchema fieldName : string) (itemIndex : nat)
    (parentPropName nestedPropName : string) (v : value)
    (t o : gmap string value) (l : list value) :
  fd !! currentSchema = Some t →
  t !! fieldName = Some (VArr l) →
  l !! itemIndex = Some (VObj o) →
  parentPropName ∉ object_prototype_names →
  nestedPropName ≠ "__proto__" →
  truthy (default VUndefined (o !! parentPropName)) = false →
  ∃ l' o',
    updateArrayItemNestedObjectFieldData currentSchema fieldName itemIndex
      parentPropName nestedPropName v fd
    = Some (Ok tt, <[currentSchema := <[fieldName := VArr l']> t]> fd)
    ∧ length l' = length l
    ∧ l' !! itemIndex = Some (VObj o')
    ∧ o' !! parentPropName = Some (VObj {[ nestedPropName := v ]})
    ∧ (∀ q, q ≠ parentPropName → o' !! q = o !! q)
    ∧ (∀ j, j ≠ itemIndex → l' !! j = l !! j).
Proof.
  intros Ht Hf Hi _ _ Hy.
  exists (<[itemIndex := VObj (<[parentPropName := VObj {[ nestedPropName := v ]}]> o)]> l),
    (<[parentPropName := VObj {[ nestedPropName := v ]}]> o).
  assert (itemIndex < length l)%nat as Hlt by by eapply lookup_lt_Some.
  repeat split.
  - unfold updateArrayItemNestedObjectFieldData. unfold mbind at 1, JSp_bind.
    rewrite (ensureArrayItem_present _ _ _ _ _ _ _ Ht Hf Hi) by done.
    rewrite (assign_nested_object o ∅) by by left.
    jsp_simpl. rewrite array_put_inside by done. simpl.
    unfold setField, saveToStorage. js_simpl. by rewrite Ht.
  - by rewrite length_insert.
  - by rewrite list_lookup_insert_eq.
  - by rewrite lookup_insert_eq.
  - intros q Hq. by rewrite lookup_insert_ne.
  - intros j Hj. by rewrite list_lookup_insert_ne.
Qed.

Lemma updateArrayItemNestedObjectFieldData_sets_witness :
  let l := [VObj {[ "name" := VStr "a" ]}] in
  let t : gmap string value := {[ "stores" := VArr l ]} in
  let fd : gmap string (gmap string value) := {[ "rm" := t ]} in
  ∃ l' o',
    updateArrayItemNestedObjectFieldData "rm" "stores" 0 "address" "city"
      (VStr "Oslo") fd
    = Some (Ok tt, <["rm" := <["stores" := VArr l']> t]> fd)
    ∧ length l' = length l
    ∧ l' !! 0%nat = Some (VObj o')
    ∧ o' !! "address" = Some (VObj {[ "city" := VStr "Oslo" ]})
    ∧ (∀ q, q ≠ "address" → o' !! q = ({[ "name" := VStr "a" ]} : gmap string value) !! q)
    ∧ (∀ j, j ≠ 0%nat → l' !! j = l !! j).
Proof.
  intros l t fd.
  apply (updateArrayItemNestedObjectFieldData_sets fd "rm" "stores" 0 "address"
           "city" (VStr "Oslo") t {[ "name" := VStr "a" ]} l);
    [reflexivity|reflexivity|reflexivity| |discriminate|reflexivity].
  apply (bool_decide_unpack _). vm_compute. exact I.
Defined.

(** The closed form of [initializeArrayItemUnionFormData] on an item that is
    an object, with a schema at hand. *)
Lemma initializeArrayItemUnionFormData_closed
    (fd : gmap string (gmap string value)) (cs f : string) (i : nat)
    (prop : string) (schema : value) (t o : gmap string value)
    (l : list value) :
  schema ≠ VNull → schema ≠ VUndefined →
  fd !! cs = Some t → t !! f = Some (VArr l) → l !! i = Some (VObj o) →
  let y := default VUndefined (o !! prop) in
  let o' := if negb (truthy y) || negb (typeof_object y)
            then <[prop := VObj (spread (or_else (get_own schema "default_values")
                                                 (VObj ∅)))]> o
            else o in
  initializeArrayItemUnionFormData cs f i prop schema fd
  = Some (Ok tt, <[cs := <[f := VArr (<[i := VObj o']> l)]> t]> fd).
Proof.
  intros Hnull Hundef Ht Hf Hi y o'.
  assert (i < length l)%nat as Hlt by by eapply lookup_lt_Some.
  unfold initializeArrayItemUnionFormData. unfold mbind at 1, JSp_bind.
  rewrite (ensureArrayItem_present _ _ _ _ _ _ _ Ht Hf Hi) by done.
  simpl get_own. fold y. subst o'.
  destruct (negb (truthy y) || negb (typeof_object y)).
  - jsp_simpl. rewrite (ResolverProps.get_loaded schema) by done. simpl.
    rewrite array_put_inside by done. simpl.
    unfold setField, saveToStorage. js_simpl. by rewrite Ht.
  - jsp_simpl. unfold saveToStorage. js_simpl.
    rewrite list_insert_id by done. rewrite (insert_id t) by done.
    by rewrite insert_id.
Qed.



End DataManagerFieldsProps.

(** ** Statistics and import strategies *)

Module DataManagerReportsProps.
Import DataManager DataManagerReports.

Lemma analyzeEntry_balanced (v : value) :
  ∀ st, balanced st → balanced (analyzeEntry v st).
Proof.
  induction v as [| | | | |s|l _|o IH] using value_ind_deep; intros st [H1 H2];
    try (split; simpl; lia).
  - simpl. destruct (String.eqb s ""); split; simpl; lia.
  - simpl.
    assert (balanced (count_object st)) as Hstart by (split; simpl; lia).
    revert Hstart. generalize (count_object st). clear st H1 H2.
    induction o as [|k x o Hk Hfold IHo] using map_first_key_ind; intros st Hst.
    + by rewrite map_fold_empty.
    + rewrite map_fold_insert_first_key by done.
      apply map_Forall_insert in IH as [Hx Ho]; [|done].
      apply Hx. apply IHo; done.
Qed.

(** X11.  The counters of [getDataStats] add up: every field counted is
    either filled or empty, and every filled field is an array, an object
    or a simple value; this holds at every depth of nesting. *)
Theorem getDataStats_balanced (fd : gmap string (gmap string value))
    (currentSchema : string) :
  let st := getDataStats currentSchema fd in
  totalFields st = (filledFields st + emptyFields st)%nat
  ∧ filledFields st = (arrayFields st + objectFields st + simpleFields st)%nat.
Proof.
  intros st. subst st. unfold getDataStats, analyzeObject.
  change (balanced (map_fold (λ _ x acc, analyzeEntry x acc) no_stats
                      (getFormDataForSchema currentSchema fd))).
  apply (map_fold_weak_ind (λ r _, balanced r)).
  - by split.
  - intros k x m r _ Hr. by apply analyzeEntry_balanced.
Qed.


End DataManagerReportsProps.

(** ** Names in camel case and in snake case *)

Module CaseProps.

Lemma upper_lower_ascii (c : ascii) :
  is_upper c = true →
  is_lower (lower_ascii c) = true ∧ upper_ascii (lower_ascii c) = c.
Proof.
  destruct c as [[] [] [] [] [] [] [] []]; vm_compute; intros H;
    (discriminate H || by split).
Qed.

Lemma lower_upper_ascii (c : ascii) :
  is_lower c = true →
  is_upper (upper_ascii c) = true ∧ lower_ascii (upper_ascii c) = c.
Proof.
  destruct c as [[] [] [] [] [] [] [] []]; vm_compute; intros H;
    (discriminate H || by split).
Qed.

Lemma lower_ascii_other (c : ascii) : is_upper c = false → lower_ascii c = c.
Proof. unfold lower_ascii. by intros ->. Qed.

Lemma underscore_not_letter :
  is_upper "_" = false ∧ is_lower "_" = false.
Proof. by vm_compute. Qed.

Lemma is_upper_not_lower (c : ascii) : is_upper c = true → is_lower c = false.
Proof.
  destruct c as [[] [] [] [] [] [] [] []]; vm_compute; intros H;
    (discriminate H || done).
Qed.

Lemma snakeToCamel_unfold_lower (s : string) :
  has_underscore_lower s = false →
  snakeToCamel (toLowerCase (underscore_capitals s)) = s.
Proof.
  induction s as [|c s IH]; [done|].
  cbn [has_underscore_lower]. intros Hs.
  apply orb_false_iff in Hs as [Hhere Hrest]. specialize (IH Hrest).
  cbn [underscore_capitals]. destruct (is_upper c) eqn:Hup.
  - cbn [toLowerCase].
    destruct (upper_lower_ascii c Hup) as [Hlow Hback].
    change (lower_ascii "_") with "_"%char.
    cbn [snakeToCamel]. change (Ascii.eqb "_" "_") with true. cbv iota.
    rewrite Hlow, Hback. by rewrite IH.
  - cbn [toLowerCase]. rewrite (lower_ascii_other c Hup).
    cbn [snakeToCamel]. destruct (Ascii.eqb c "_") eqn:Hc.
    + apply Ascii.eqb_eq in Hc as ->. simpl in Hhere.
      destruct s as [|d s]; [done|].
      (* the character after the underscore is not a small letter *)
      cbn [underscore_capitals] in *. destruct (is_upper d) eqn:Hd.
      * cbn [toLowerCase] in *. change (lower_ascii "_") with "_"%char in *.
        change (is_lower "_") with false. cbv iota. by rewrite IH.
      * cbn [toLowerCase] in *. rewrite (lower_ascii_other d Hd) in *.
        rewrite Hhere. by rewrite IH.
    + by rewrite IH.
Qed.

(** X13.  [camelToSnake] then [snakeToCamel] gives a name back, for a name
    of ASCII characters that starts neither with a capital letter nor with
    an underscore and in which no underscore stands before a small letter:
    the camel-case names. *)
Theorem snakeToCamel_camelToSnake (str : string) :
  all_chars is_ascii str = true →
  starts_with_char (λ c, is_upper c || Ascii.eqb c "_") str = false →
  has_underscore_lower str = false →
  snakeToCamel (camelToSnake str) = str.
Proof.
  intros _ Hstart Hbreak. unfold camelToSnake.
  assert (drop_leading_underscore (toLowerCase (underscore_capitals str))
          = toLowerCase (underscore_capitals str)) as ->.
  { destruct str as [|c s]; [done|]. simpl in Hstart.
    apply orb_false_iff in Hstart as [Hup Hc].
    cbn [underscore_capitals]. rewrite Hup. cbn [toLowerCase].
    rewrite (lower_ascii_other c Hup). unfold drop_leading_underscore.
    destruct c as [[] [] [] [] [] [] [] []]; try done. }
  by apply snakeToCamel_unfold_lower.
Qed.

Lemma snakeToCamel_camelToSnake_witness :
  snakeToCamel (camelToSnake "bikeStock_V2") = "bikeStock_V2".
Proof. by apply snakeToCamel_camelToSnake. Defined.

Lemma camelToSnake_fold_lower (n : nat) :
  ∀ s, (String.length s ≤ n)%nat →
  all_chars (λ c, negb (is_upper c)) s = true →
  toLowerCase (underscore_capitals (snakeToCamel s)) = s.
Proof.
  induction n as [|n IH]; intros [|c s] Hlen Hno; try done;
    [simpl in Hlen; lia|].
  simpl in Hlen. cbn [all_chars] in Hno.
  apply andb_true_iff in Hno as [Hc Hs]. apply negb_true_iff in Hc.
  cbn [snakeToCamel]. destruct (Ascii.eqb c "_") eqn:Hunder.
  - apply Ascii.eqb_eq in Hunder as ->.
    destruct s as [|d s]; [done|].
    destruct (is_lower d) eqn:Hd.
    + destruct (lower_upper_ascii d Hd) as [Hup Hback].
      cbn [underscore_capitals]. rewrite Hup. cbn [toLowerCase].
      change (lower_ascii "_") with "_"%char. rewrite Hback.
      cbn [all_chars] in Hs. apply andb_true_iff in Hs as [_ Hs].
      rewrite IH; [done| simpl in Hlen; lia | done].
    + cbn [underscore_capitals]. change (is_upper "_") with false. cbv iota.
      cbn [toLowerCase]. change (lower_ascii "_") with "_"%char.
      rewrite IH; [done| lia | done].
  - cbn [underscore_capitals]. rewrite Hc. cbn [toLowerCase].
    rewrite (lower_ascii_other c Hc).
    rewrite IH; [done| lia | done].
Qed.

(** X14.  [snakeToCamel] then [camelToSnake] gives a name back, for a name
    of ASCII characters without capital letters that does not start with an
    underscore: the snake-case names. *)
Theorem camelToSnake_snakeToCamel (str : string) :
  all_chars is_ascii str = true →
  all_chars (λ c, negb (is_upper c)) str = true →
  starts_with_char (λ c, Ascii.eqb c "_") str = false →
  camelToSnake (snakeToCamel str) = str.
Proof.
  intros _ Hno Hstart. unfold camelToSnake.
  rewrite (camelToSnake_fold_lower (String.length str)) by done.
  destruct str as [|c s]; [done|]. simpl in Hstart.
  unfold drop_leading_underscore.
  destruct c as [[] [] [] [] [] [] [] []]; try done.
Qed.

Lemma camelToSnake_snakeToCamel_witness :
  camelToSnake (snakeToCamel "bike_stock_2") = "bike_stock_2".
Proof. by apply camelToSnake_snakeToCamel. Defined.

End CaseProps.

(** ** Schema checks, the cache of references and component mapping *)

Module SchemaAnalysisProps.
Import ImprovedDynamicFormGenerator SchemaAnalysis.

Lemma findVariation_loaded (raw : value) (vs : list string) :
  raw ≠ VNull → raw ≠ VUndefined → ∃ r, findVariation raw vs = Ok r.
Proof.
  intros Hnull Hundef. induction vs as [|v vs [r IH]]; simpl; [by eexists|].
  rewrite !ResolverProps.get_loaded by done.
  destruct (truthy _); [by eexists|]. destruct (truthy _); [by eexists|].
  by exists r.
Qed.

Lemma findInDefinitions_loaded (raw : value) (defName : string) :
  raw ≠ VNull → raw ≠ VUndefined → ∃ v, findInDefinitions raw defName = Ok v.
Proof.
  intros Hnull Hundef. unfold findInDefinitions.
  rewrite !ResolverProps.get_loaded by done.
  destruct (truthy _); [by eexists|]. destruct (truthy _); [by eexists|].
  destruct (findVariation_loaded raw (variations defName) Hnull Hundef)
    as [[found|] ->]; by eexists.
Qed.

Lemma lookupReference_loaded (raw : value) (ref : string) :
  raw ≠ VNull → raw ≠ VUndefined → ∃ v, lookupReference raw ref = Ok v.
Proof.
  intros Hnull Hundef. unfold lookupReference.
  rewrite !ResolverProps.get_loaded by done.
  destruct (startsWith ref "#/$defs/"); [by apply findInDefinitions_loaded|].
  destruct (startsWith ref "#/definitions/");
    [by apply findInDefinitions_loaded|].
  destruct (startsWith ref "#/schemas/"); [by eexists|].
  destruct (truthy (get_opt (get_own raw "schemas") (strip_pointer_path ref)));
    [by eexists|].
  by apply findInDefinitions_loaded.
Qed.

Lemma lookupReference_unloaded (raw : value) (ref : string) :
  raw = VNull ∨ raw = VUndefined → lookupReference raw ref = Throw TypeError.
Proof.
  intros [-> | ->]; unfold lookupReference, findInDefinitions; simpl;
    by repeat destruct (startsWith ref _).
Qed.

(** X15.  When [resolveReference] throws.  For a reference that is not in
    the cache: with no schema loaded ([rawSchema] is [null], as the
    constructor leaves it) the call ends in a TypeError and changes
    nothing; with a schema loaded it returns, keeps [rawSchema], and the
    cache afterwards is the old one with at most the reference added, under
    the value returned, which is then truthy. *)
Theorem resolveReference_throws_unloaded (ref : string) (g : generator) :
  referenceCache g !! ref = None →
  (rawSchema g = VNull ∨ rawSchema g = VUndefined →
     resolveReference ref g = (Throw TypeError, g))
  ∧ (rawSchema g ≠ VNull → rawSchema g ≠ VUndefined →
     ∃ v g',
       resolveReference ref g = (Ok v, g')
       ∧ rawSchema g' = rawSchema g
       ∧ referenceCache g'
         = if truthy v then <[ref := v]> (referenceCache g) else referenceCache g).
Proof.
  intros Hmiss. split.
  - intros Hraw. unfold resolveReference. js_simpl. rewrite Hmiss. simpl.
    by rewrite lookupReference_unloaded.
  - intros Hnull Hundef. unfold resolveReference. js_simpl. rewrite Hmiss.
    simpl.
    destruct (lookupReference_loaded (rawSchema g) ref Hnull Hundef) as [v ->].
    simpl. destruct (truthy v) eqn:Hv; simpl.
    + eexists v, _. split; [reflexivity|]. simpl. by rewrite Hv.
    + exists v, g. split; [reflexivity|]. by rewrite Hv.
Qed.

Lemma resolveReference_throws_unloaded_witness :
  let g := {| rawSchema := VNull; referenceCache := ∅ |} in
  (rawSchema g = VNull ∨ rawSchema g = VUndefined →
     resolveReference "#/$defs/Store" g = (Throw TypeError, g))
  ∧ (rawSchema g ≠ VNull → rawSchema g ≠ VUndefined →
     ∃ v g',
       resolveReference "#/$defs/Store" g = (Ok v, g')
       ∧ rawSchema g' = rawSchema g
       ∧ referenceCache g'
         = if truthy v then <["#/$defs/Store" := v]> (referenceCache g)
           else referenceCache g).
Proof.
  intros g. by apply (resolveReference_throws_unloaded "#/$defs/Store" g).
Defined.

(** X16.  The cache of references outlives the schema.  [generateForm]
    replaces [rawSchema] and keeps [referenceCache], so a reference that was
    resolved to a truthy value is answered with that same value whatever
    schema is loaded afterwards, while a reference that was not found is
    looked up again in the new schema. *)
Theorem resolveReference_after_load (ref : string) (g g' : generator)
    (v schema : value) :
  resolveReference ref g = (Ok v, g') →
  (truthy v = true →
     resolveReference ref (load schema g') = (Ok v, load schema g'))
  ∧ (truthy v = false → referenceCache g !! ref = None →
     (resolveReference ref (load schema g')).1 = lookupReference schema ref).
Proof.
  unfold resolveReference. js_simpl.
  destruct (referenceCache g !! ref) as [cached|] eqn:Hcache; simpl.
  - intros [= -> <-]. split.
    + intros _. simpl. by rewrite Hcache.
    + by intros _ [=].
  - destruct (lookupReference (rawSchema g) ref) as [w|e] eqn:Hlook; simpl;
      [|done].
    destruct (truthy w) eqn:Hw; simpl; intros [= -> <-]; split.
    + intros _. simpl. by rewrite lookup_insert_eq.
    + by rewrite Hw.
    + by rewrite Hw.
    + intros _ _. simpl. rewrite Hcache. simpl.
      destruct (lookupReference schema ref) as [u|]; simpl; [|done].
      by destruct (truthy u).
Qed.

Lemma resolveReference_after_load_witness :
  let store_model := VObj {[ "type" := VStr "object" ]} in
  let g := {| rawSchema := VObj {[ "schemas" := VObj {[ "Store" := store_model ]} ]};
              referenceCache := ∅ |} in
  let g' := {| rawSchema := rawSchema g;
               referenceCache := {[ "#/schemas/Store" := store_model ]} |} in
  let schema := VObj {[ "schemas" := VObj ∅ ]} in
  (truthy store_model = true →
     resolveReference "#/schemas/Store" (load schema g')
     = (Ok store_model, load schema g'))
  ∧ (truthy store_model = false → referenceCache g !! "#/schemas/Store" = None →
     (resolveReference "#/schemas/Store" (load schema g')).1
     = lookupReference schema "#/schemas/Store").
Proof.
  intros store_model g g' schema.
  apply (resolveReference_after_load "#/schemas/Store" g g' store_model schema).
  by vm_compute.
Defined.

(** X17.  A schema that [validateSchemaIntegrity] accepts can be loaded and
    resolved against: it has a truthy [workflow_name] and a [schemas] object
    or array that is not empty, and with it as [rawSchema] no call of
    [resolveReference] throws. *)
Theorem validateSchemaIntegrity_valid (schema : value) (g : generator)
    (ref : string) :
  isValid (validateSchemaIntegrity schema) = true →
  truthy (get_own schema "workflow_name") = true
  ∧ typeof_object (get_own schema "schemas") = true
  ∧ (0 < keys_count (get_own schema "schemas"))%nat
  ∧ errors (validateSchemaIntegrity schema) = []
  ∧ ∃ v g', resolveReference ref (load schema g) = (Ok v, g').
Proof.
  unfold validateSchemaIntegrity.
  destruct (negb (truthy schema) || negb (typeof_object schema)) eqn:Hobj;
    [done|].
  apply orb_false_iff in Hobj as [Htruthy _]. apply negb_false_iff in Htruthy.
  destruct (negb (truthy (get_own schema "workflow_name"))) eqn:Hname; [done|].
  destruct (negb (truthy (get_own schema "schemas"))
            || negb (typeof_object (get_own schema "schemas"))) eqn:Hschemas;
    [done|].
  apply orb_false_iff in Hschemas as [_ Hso]. apply negb_false_iff in Hso.
  apply negb_false_iff in Hname.
  destruct (bool_decide (keys_count (get_own schema "schemas") = 0%nat))
    eqn:Hkeys; [done|].
  apply bool_decide_eq_false in Hkeys. simpl. intros _.
  repeat split; [done|done|lia|].
  assert (schema ≠ VNull ∧ schema ≠ VUndefined) as [Hnull Hundef]
    by by destruct schema.
  unfold resolveReference. js_simpl.
  destruct (referenceCache g !! ref) as [cached|]; simpl; [by eexists _, _|].
  destruct (lookupReference_loaded schema ref Hnull Hundef) as [v ->]. simpl.
  destruct (truthy v); by eexists _, _.
Qed.

Lemma validateSchemaIntegrity_valid_witness :
  let schema :=
    VObj {[ "workflow_name" := VStr "bike_insights";
            "schemas" := VObj {[ "RootModel" := VObj ∅ ]} ]} in
  let g := {| rawSchema := VNull; referenceCache := ∅ |} in
  truthy (get_own schema "workflow_name") = true
  ∧ typeof_object (get_own schema "schemas") = true
  ∧ (0 < keys_count (get_own schema "schemas"))%nat
  ∧ errors (validateSchemaIntegrity schema) = []
  ∧ ∃ v g', resolveReference "#/$defs/Store" (load schema g) = (Ok v, g').
Proof.
  intros schema g.
  apply (validateSchemaIntegrity_valid schema g "#/$defs/Store").
  by vm_compute.
Defined.

Ltac decide_in := apply (bool_decide_unpack _); vm_compute; exact I.
Ltac refute_in H :=
  apply (bool_decide_pack _) in H; vm_compute in H; destruct H.

Lemma literal_lookup_range (m : list (string * string)) (k : string) :
  literal_lookup m k = VUndefined
  ∨ ∃ v, literal_lookup m k = VStr v ∧ v ∈ m.*2.
Proof.
  induction m as [|[k' v] m IH]; simpl; [by left|].
  destruct (String.eqb k' k).
  - right. exists v. split; [done|]. apply elem_of_cons. by left.
  - destruct IH as [IH|(w & Hw & Hin)]; [by left|].
    right. exists w. split; [done|]. apply elem_of_cons. by right.
Qed.

Lemma literal_get_plain (m : list (string * string)) (k : value) :
  plain_key k = true →
  ∃ mapped, literal_get m k = Some mapped
            ∧ (mapped = VUndefined ∨ ∃ v, mapped = VStr v ∧ v ∈ m.*2).
Proof.
  unfold literal_get, plain_key. intros Hplain.
  destruct k; try done; try (eexists; split; [reflexivity|by left]).
  apply negb_true_iff in Hplain. rewrite Hplain.
  eexists; split; [reflexivity|]. apply literal_lookup_range.
Qed.

Lemma mapUIComponent_range (fieldDef : value) :
  fieldDef ≠ VNull → fieldDef ≠ VUndefined →
  plain_key (get_own fieldDef "ui_component") = true →
  ∃ component,
    mapUIComponent fieldDef = Some (Ok (VStr component))
    ∧ component ∈ "textarea" :: "select" :: "dynamic-array" :: input_types.
Proof.
  intros Hnull Hundef Hplain. unfold mapUIComponent.
  destruct (literal_get_plain componentMap _ Hplain) as (mapped & -> & Hmapped).
  generalize (get_own fieldDef "type") (get_own fieldDef "format")
    (get_own fieldDef "enum").
  intros type format enum.
  assert (∃ component,
            (if truthy mapped then Some (Ok mapped)
             else if strict_eq_string type "string" then
               if strict_eq_string format "email" then Some (Ok (VStr "email"))
               else if strict_eq_string format "date" then Some (Ok (VStr "date"))
               else if strict_eq_string format "url" then Some (Ok (VStr "url"))
               else if strict_eq_string format "textarea"
                    then Some (Ok (VStr "textarea"))
               else Some (Ok (VStr "text"))
             else if strict_eq_string type "number"
                     || strict_eq_string type "integer"
             then Some (Ok (VStr "number"))
             else if strict_eq_string type "boolean"
                  then Some (Ok (VStr "checkbox"))
             else if strict_eq_string type "array"
                  then Some (Ok (VStr "dynamic-array"))
             else if truthy enum then Some (Ok (VStr "select"))
             else Some (Ok (VStr "text")))
            = Some (Ok (VStr component))
            ∧ component ∈ "textarea" :: "select" :: "dynamic-array" :: input_types)
    as Hbody.
  { destruct Hmapped as [-> | (v & -> & Hv)].
    - simpl.
      repeat match goal with
             | |- context [if ?b then _ else _] => destruct b
             end; eexists; (split; [reflexivity|decide_in]).
    - unfold componentMap in Hv. simpl in Hv.
      repeat (apply elem_of_cons in Hv as [-> | Hv];
              [simpl; eexists; split; [reflexivity|decide_in]|]).
      by apply elem_of_nil in Hv. }
  by destruct fieldDef.
Qed.

(** X18.  [mapInputType] always lands on an input type that HTML has: for a
    field definition whose [ui_component], if any, is a scalar that does not
    name a member of [Object.prototype], the result is one of [text],
    [number], [email], [date], [url], [checkbox] and [radio]; the components
    without an input type of their own ([textarea], [select],
    [dynamic-array]) come out as [text]. *)
Theorem mapInputType_range (fieldDef : value) :
  fieldDef ≠ VNull → fieldDef ≠ VUndefined →
  plain_key (get_own fieldDef "ui_component") = true →
  ∃ component t,
    mapUIComponent fieldDef = Some (Ok (VStr component))
    ∧ mapInputType fieldDef = Some (Ok (VStr t))
    ∧ t ∈ input_types
    ∧ (component ∈ input_types → t = component)
    ∧ (component ∉ input_types → t = "text").
Proof.
  intros Hnull Hundef Hplain.
  destruct (mapUIComponent_range fieldDef Hnull Hundef Hplain)
    as (component & Hcomp & Hin).
  assert (∃ t, (mapped ← literal_get inputTypeMap (VStr component);
                Some (Ok (or_else mapped (VStr "text"))))
               = Some (Ok (VStr t))
               ∧ t ∈ input_types
               ∧ (component ∈ input_types → t = component)
               ∧ (component ∉ input_types → t = "text"))
    as (t & Ht & Hrange & Hsame & Hother).
  { unfold input_types in Hin.
    repeat (apply elem_of_cons in Hin as [-> | Hin];
            [eexists; split; [reflexivity|];
             split; [decide_in|];
             split; intros Hc;
               first [reflexivity | refute_in Hc | exfalso; apply Hc; decide_in]|]).
    by apply elem_of_nil in Hin. }
  exists component, t. split; [done|]. split; [|done].
  unfold mapInputType. by rewrite Hcomp.
Qed.

Lemma mapInputType_range_witness :
  let fieldDef := VObj {[ "ui_component" := VStr "union_select";
                          "type" := VStr "number" ]} in
  ∃ component t,
    mapUIComponent fieldDef = Some (Ok (VStr component))
    ∧ mapInputType fieldDef = Some (Ok (VStr t))
    ∧ t ∈ input_types
    ∧ (component ∈ input_types → t = component)
    ∧ (component ∉ input_types → t = "text").
Proof.
  intros fieldDef.
  apply (mapInputType_range fieldDef); [discriminate|discriminate|].
  by vm_compute.
Defined.

End SchemaAnalysisProps.

(** ** Collecting form data from the page, checking the items of an array *)

Module FormCollectionProps.
Import FormCollection.

(** X19.  The identifier that [generateFieldHtml] gives to the input of a
    field, [field-] followed by the name of the field, is parsed back to
    that name by [parseFieldNameFromId], whatever the name. *)
Theorem parseFieldNameFromId_field (fieldName : string) :
  parseFieldNameFromId ("field-" +:+ fieldName) = fieldName.
Proof.
  unfold parseFieldNameFromId, startsWith.
  rewrite ResolverProps.prefix_append.
  apply ResolverProps.replace_first_append.
Qed.

Lemma split_on_whole (sep : ascii) (s : string) :
  all_chars (λ c, negb (Ascii.eqb c sep)) s = true → split_on sep s = [s].
Proof.
  induction s as [|c s IH]; [done|]. cbn [all_chars split_on].
  intros [Hc Hs]%andb_true_iff. apply negb_true_iff in Hc. rewrite Hc.
  by rewrite IH.
Qed.

Lemma split_on_not_nil (sep : ascii) (s : string) : split_on sep s ≠ [].
Proof.
  destruct s as [|c s]; [done|]. cbn [split_on].
  destruct (Ascii.eqb c sep); [done|]. by destruct (split_on sep s).
Qed.

Lemma split_on_append (sep : ascii) (a b : string) :
  list.last (split_on sep (a +:+ String sep b)) = list.last (split_on sep b)
  ∧ (2 ≤ length (split_on sep (a +:+ String sep b)))%nat.
Proof.
  induction a as [|c a [IHlast IHlen]].
  - change ("" +:+ String sep b) with (String sep b).
    cbn [split_on]. rewrite Ascii.eqb_refl.
    pose proof (split_on_not_nil sep b).
    destruct (split_on sep b) eqn:Hb; [done|]. split; [done|simpl; lia].
  - change (String c a +:+ String sep b) with (String c (a +:+ String sep b)).
    cbn [split_on]. destruct (Ascii.eqb c sep).
    + pose proof (split_on_not_nil sep (a +:+ String sep b)).
      destruct (split_on sep (a +:+ String sep b)) eqn:Hab; [done|].
      split; [done|simpl; lia].
    + destruct (split_on sep (a +:+ String sep b)) as [|first rest] eqn:Hab;
        [simpl in IHlen; lia|].
      split; [|done].
      destruct rest; [simpl in IHlen; lia|done].
Qed.

(** X20.  The identifier that [generateNestedObjectFieldHtml] gives to the
    input of a property of a nested object, the name of the parent field,
    a dash and the name of the property, is parsed to the name of the
    property alone when that name has no dash (and the identifier does not
    happen to start with [field-] or [nested-]): the parent field is not
    part of what [collectFormDataFromDOM] files the value under. *)
Theorem parseFieldNameFromId_nested_input (parentFieldName propName : string) :
  all_chars (λ c, negb (Ascii.eqb c "-")) propName = true →
  startsWith (parentFieldName +:+ "-" +:+ propName) "field-" = false →
  startsWith (parentFieldName +:+ "-" +:+ propName) "nested-" = false →
  parseFieldNameFromId (parentFieldName +:+ "-" +:+ propName) = propName.
Proof.
  intros Hdash Hfield Hnested. unfold parseFieldNameFromId.
  rewrite Hfield, Hnested.
  change ("-" +:+ propName) with (String "-" propName).
  destruct (split_on_append "-" parentFieldName propName) as [Hlast Hlen].
  rewrite bool_decide_true by done. rewrite Hlast.
  by rewrite split_on_whole.
Qed.

Lemma parseFieldNameFromId_nested_input_witness :
  parseFieldNameFromId ("address" +:+ "-" +:+ "city") = "city".
Proof. by apply parseFieldNameFromId_nested_input. Defined.

Lemma no_array_on_undefined (keys : list string) :
  no_array_on VUndefined keys = true.
Proof. induction keys as [|k [|k' keys] IH]; done. Qed.

Lemma no_array_on_cons (current : value) (key key2 : string)
    (rest : list string) :
  no_array_on current (key :: key2 :: rest)
  = match get_own current key with
    | VArr _ => false
    | child => no_array_on child (key2 :: rest)
    end.
Proof. done. Qed.

Lemma no_array_on_empty (keys : list string) :
  no_array_on (VObj ∅) keys = true.
Proof.
  destruct keys as [|k [|k' keys]]; try done.
  rewrite no_array_on_cons.
  replace (get_own (VObj ∅) k) with VUndefined
    by (simpl; by rewrite lookup_empty).
  apply no_array_on_undefined.
Qed.

Lemma set_path_cons (current : value) (key key2 : string)
    (rest : list string) (v : value) :
  key ≠ "__proto__" →
  set_path current (key :: key2 :: rest) v
  = match (if negb (truthy (get_own current key))
              || negb (typeof_object (get_own current key))
           then set_prop current key (VObj ∅)
           else Some (Ok current)) with
    | Some (Ok current1) =>
        match set_path (get_own current1 key) (key2 :: rest) v with
        | Some (Ok child) => set_prop current1 key child
        | r => r
        end
    | r => r
    end.
Proof.
  intros Hkey. cbn [set_path].
  by rewrite (proj2 (String.eqb_neq key "__proto__") Hkey).
Qed.

Lemma set_path_object (v : value) (keys : list string) :
  ∀ o : gmap string value,
  keys ≠ [] →
  "__proto__" ∉ keys →
  no_array_on (VObj o) keys = true →
  ∃ o', set_path (VObj o) keys v = Some (Ok (VObj o'))
        ∧ get_path (VObj o') keys = v
        ∧ ∀ k, head keys ≠ Some k → o' !! k = o !! k.
Proof.
  induction keys as [|key keys IH]; intros o Hne Hproto Hclear; [done|].
  apply not_elem_of_cons in Hproto as [Hkey Hproto].
  destruct keys as [|key2 rest].
  - exists (<[key := v]> o). split; [|split].
    + cbn [set_path].
      by rewrite (proj2 (String.eqb_neq key "__proto__")) by done.
    + simpl. by rewrite lookup_insert_eq.
    + intros k Hk. rewrite lookup_insert_ne; [done|]. by intros ->.
  - rewrite set_path_cons by done. rewrite no_array_on_cons in Hclear.
    set (keys := key2 :: rest) in *.
    assert (∃ oc : gmap string value,
              no_array_on (VObj oc) keys = true
              ∧ (if negb (truthy (get_own (VObj o) key))
                    || negb (typeof_object (get_own (VObj o) key))
                 then set_prop (VObj o) key (VObj ∅)
                 else Some (Ok (VObj o)))
                = Some (Ok (VObj (<[key := VObj oc]> o))))
      as (oc & Hoc & ->).
    { destruct (get_own (VObj o) key) as [| | | | | |l|oc] eqn:Hchild;
        try done;
        try (exists ∅; split; [apply no_array_on_empty|];
             cbn [typeof_object negb]; rewrite ?orb_true_r; reflexivity).
      exists oc. split; [done|]. cbn [get_own] in Hchild.
      destruct (o !! key) as [y|] eqn:Hy; simpl in Hchild; [|done].
      subst y. cbn [truthy typeof_object negb orb].
      by rewrite insert_id. }
    replace (get_own (VObj (<[key := VObj oc]> o)) key) with (VObj oc)
      by (simpl; by rewrite lookup_insert_eq).
    destruct (IH oc ltac:(done) Hproto Hoc) as (oc' & -> & Hget & _).
    exists (<[key := VObj oc']> o). split; [|split].
    + simpl. by rewrite insert_insert_eq.
    + change (get_path (VObj (<[key := VObj oc']> o)) (key :: keys))
        with (get_path (get_own (VObj (<[key := VObj oc']> o)) key) keys).
      replace (get_own (VObj (<[key := VObj oc']> o)) key) with (VObj oc')
        by (simpl; by rewrite lookup_insert_eq).
      exact Hget.
    + intros k Hk. rewrite lookup_insert_ne; [done|]. by intros ->.
Qed.

(** X21.  [setNestedValue] on an object, along a path on which no array is
    met and none of whose keys is [__proto__]: the call goes through, the
    value is then read back along the same path, objects having been put
    where the path met nothing, a scalar or a member of [Object.prototype],
    and the properties of the object other than the first key of the path
    are as before. *)
Theorem setNestedValue_reads_back (o : gmap string value) (path : string)
    (v : value) :
  "__proto__" ∉ split_on "." path →
  no_array_on (VObj o) (split_on "." path) = true →
  ∃ o',
    setNestedValue (VObj o) path v = Some (Ok (VObj o'))
    ∧ get_path (VObj o') (split_on "." path) = v
    ∧ ∀ k, head (split_on "." path) ≠ Some k → o' !! k = o !! k.
Proof.
  intros Hproto Hclear. unfold setNestedValue.
  apply set_path_object; [apply split_on_not_nil | done | done].
Qed.

Lemma setNestedValue_reads_back_witness :
  let o : gmap string value :=
    {[ "address" := VStr "unknown"; "name" := VStr "a" ]} in
  ∃ o',
    setNestedValue (VObj o) "address.city" (VStr "Oslo") = Some (Ok (VObj o'))
    ∧ get_path (VObj o') (split_on "." "address.city") = VStr "Oslo"
    ∧ ∀ k, head (split_on "." "address.city") ≠ Some k → o' !! k = o !! k.
Proof.
  intros o.
  apply (setNestedValue_reads_back o "address.city" (VStr "Oslo")); [|done].
  apply (bool_decide_unpack _). vm_compute. exact I.
Defined.

(** On a path that goes through [__proto__] the call has no image: the
    assignment lands in [Object.prototype] or is dropped. *)
Lemma setNestedValue_proto (o : gmap string value) (v : value) :
  setNestedValue (VObj o) "__proto__" v = None
  ∧ setNestedValue (VObj o) "__proto__.x" v = None.
Proof. split; reflexivity. Qed.

Lemma errors_of_items (fieldName : string) (l : list value) :
  ∀ f : nat → nat,
  length (omap id (imap (λ index item,
                           if is_empty_item item
                           then Some (fieldName +:+ "[" +:+ pretty (f index) +:+ "] is empty")
                           else None) l))
  = length (filter (λ x, is_empty_item x = true) l).
Proof.
  induction l as [|x l IH]; intros f; [done|].
  rewrite imap_cons. cbn [omap]. rewrite filter_cons.
  specialize (IH (f ∘ S)). unfold compose in IH.
  destruct (is_empty_item x); simpl.
  - f_equal. exact IH.
  - exact IH.
Qed.

(** X22.  [validateArrayData] accepts exactly the arrays none of whose
    items is an empty object or an empty array, and reports one error for
    each such item; what is not an array gets the one error about that. *)
Theorem validateArrayData_valid (currentSchema fieldName : string)
    (data : value) :
  (SchemaAnalysis.isValid (validateArrayData currentSchema fieldName data) = true
   ↔ ∃ l, data = VArr l ∧ Forall (λ x, is_empty_item x = false) l)
  ∧ (∀ l, data = VArr l →
       length (SchemaAnalysis.errors (validateArrayData currentSchema fieldName data))
       = length (filter (λ x, is_empty_item x = true) l))
  ∧ ((∀ l, data ≠ VArr l) →
       SchemaAnalysis.errors (validateArrayData currentSchema fieldName data)
       = [fieldName +:+ " must be an array"]).
Proof.
  split; [|split].
  - destruct data as [| | | | | |l|]; simpl;
      try (split; [done|by intros (l & [=] & _)]).
    pose proof (errors_of_items fieldName l id) as Hlen. simpl in Hlen.
    rewrite bool_decide_eq_true, Hlen. split.
    + intros Hnone. exists l. split; [done|].
      apply list.Forall_forall. intros x Hx.
      destruct (is_empty_item x) eqn:Hempty; [|done].
      assert (x ∈ filter (λ x, is_empty_item x = true) l) as Hin
        by by apply list_elem_of_filter.
      destruct (filter _ l); [by apply elem_of_nil in Hin|done].
    + intros (l' & [= <-] & Hall). clear Hlen.
      induction Hall as [|x l0 Hx _ IH]; [done|].
      rewrite filter_cons, decide_False; [exact IH|]. by rewrite Hx.
  - intros l ->. simpl. apply (errors_of_items fieldName l id).
  - intros Hnot. destruct data; try done. by destruct (Hnot l).
Qed.

Lemma validateArrayData_valid_witness :
  let data := VArr [VObj {[ "name" := VStr "a" ]}; VObj ∅] in
  (SchemaAnalysis.isValid (validateArrayData "rm" "stores" data) = true
   ↔ ∃ l, data = VArr l ∧ Forall (λ x, is_empty_item x = false) l)
  ∧ (∀ l, data = VArr l →
       length (SchemaAnalysis.errors (validateArrayData "rm" "stores" data))
       = length (filter (λ x, is_empty_item x = true) l))
  ∧ ((∀ l, data ≠ VArr l) →
       SchemaAnalysis.errors (validateArrayData "rm" "stores" data)
       = ["stores" +:+ " must be an array"]).
Proof.
  intros data. apply (validateArrayData_valid "rm" "stores" data).
Defined.

End FormCollectionProps.

(** ** Loading a schema, adding an item *)

Module WorkflowPageProps.
Import DynamicWorkflowManager WorkflowPage.

Lemma keeps_ret {A} (P : manager → Prop) (a : A) : keeps P (mret a).
Proof. by intros m Hm. Qed.

Lemma keeps_bind {A B} (P : manager → Prop) (c : JS manager A)
    (k : A → JS manager B) :
  keeps P c → (∀ a, keeps P (k a)) → keeps P (c ≫= k).
Proof.
  intros Hc Hk m Hm. unfold mbind, JS_bind.
  specialize (Hc m Hm). destruct (c m) as [[a|e] m']; simpl in *; [|done].
  by apply Hk.
Qed.

Lemma keeps_lift {A} (P : manager → Prop) (r : outcome A) : keeps P (lift r).
Proof. by intros m Hm. Qed.

Lemma keeps_throw {A} (P : manager → Prop) (e : exn) :
  keeps P (throw e : JS manager A).
Proof. by intros m Hm. Qed.

Lemma keeps_try_catch {A} (P : manager → Prop) (body : JS manager A)
    (handler : exn → JS manager A) :
  keeps P body → (∀ e, keeps P (handler e)) → keeps P (try_catch body handler).
Proof.
  intros Hbody Hhandler m Hm. unfold try_catch.
  specialize (Hbody m Hm). destruct (body m) as [[a|e] m']; simpl in *; [done|].
  by apply Hhandler.
Qed.

Lemma keeps_get {A} (P : manager → Prop) (k : manager → JS manager A) :
  (∀ m, P m → P (k m m).2) → keeps P (get_state ≫= k).
Proof. intros Hk m Hm. by apply Hk. Qed.

Section Loading.

Variable fetch : string → ArrayManager.fetched.
Variable generateFormFromSchema :
  manager → value → value → outcome string * gmap string value.
Variable generateArrayItemHtml :
  manager → string → string → nat → value → value
  → outcome string * gmap string value.

Lemma fetchSchema_same_store (workflowName : string) (m : manager) :
  same_store m (fetchSchema fetch workflowName m).2.
Proof.
  unfold fetchSchema, same_store. js_simpl.
  destruct (truthy _); simpl; [done|].
  destruct (fetch _) as [|status [schema|]]; simpl; try done;
    by destruct (negb (ArrayManager.ok status)).
Qed.

Lemma fetchSchema_keeps (name : string) (fd : gmap string (gmap string value))
    (workflowName : string) :
  keeps (works_on name fd) (fetchSchema fetch workflowName).
Proof.
  intros m [Hname (fd' & Hdm & Hframe)].
  destruct (fetchSchema_same_store workflowName m) as (Hsame & Hcs & _).
  split; [by rewrite Hcs|]. exists fd'. by rewrite Hsame.
Qed.

Lemma initializeFormData_frame (cs : string) (model : value)
    (fd : gmap string (gmap string value)) (other : string) :
  other ≠ cs →
  (DataManagerFields.initializeFormData cs model fd).2 !! other = fd !! other.
Proof.
  intros Hother.
  unfold DataManagerFields.initializeFormData, DataManager.ensureSchema,
    DataManager.saveToStorage, get.
  js_simpl.
  destruct (fd !! cs) as [t|]; simpl; destruct model; simpl;
    rewrite ?lookup_insert_ne by done; try done.
  all: destruct (truthy _); simpl; by rewrite ?lookup_insert_ne by done.
Qed.

Lemma initializeFormData_keeps (name : string)
    (fd : gmap string (gmap string value)) (model : value) :
  keeps (works_on name fd) (initializeFormData model).
Proof.
  intros m [Hname (fd' & Hdm & Hframe)].
  unfold initializeFormData, delegate. js_simpl. rewrite Hdm, Hname.
  pose proof (initializeFormData_frame name model fd') as Hinit.
  destruct (DataManagerFields.initializeFormData name model fd') as [r fd''].
  simpl in *. split; [done|]. exists fd''. split; [done|].
  intros other Hother. rewrite Hinit by done. by apply Hframe.
Qed.

Lemma loadSchemaForm_keeps (name : string)
    (fd : gmap string (gmap string value)) (schemaName : string) :
  keeps (works_on name fd) (loadSchemaForm fetch generateFormFromSchema schemaName).
Proof.
  unfold loadSchemaForm.
  apply keeps_try_catch; [|intros e; apply keeps_ret].
  apply keeps_bind; [apply fetchSchema_keeps|]. intros schema.
  apply keeps_bind; [apply keeps_lift|]. intros schemas.
  apply keeps_bind; [apply keeps_lift|]. intros rootModel.
  apply keeps_bind; [apply keeps_lift|]. intros _.
  apply keeps_get. intros m Hm.
  destruct (generateFormFromSchema m rootModel schemas) as [formHtml cache].
  assert (works_on name fd (set_fieldCache cache m)) as Hcache
    by by destruct Hm.
  unfold mbind, JS_bind, put_state, lift.
  destruct formHtml as [html|e]; simpl; [|done].
  by apply initializeFormData_keeps.
Qed.

Lemma loadSchemaForm_returns (schemaName : string) (m : manager) :
  (loadSchemaForm fetch generateFormFromSchema schemaName m).1 = Ok tt.
Proof.
  unfold loadSchemaForm, try_catch.
  match goal with
  | |- context [match ?body m with _ => _ end] =>
      by destruct (body m) as [[[]|e] m']
  end.
Qed.

(** X23.  [selectSchema] ends with an empty form for the schema selected.
    Whatever the network answers and whatever the generation of the form
    does, the call does not throw; afterwards the schema selected is the
    one at work and, with a store at hand and a name that is not empty, its
    tree in the store is empty: the default values that [loadSchemaForm]
    stored are discarded by the reset that follows it.  The trees of the
    other schemas are as before. *)
Theorem selectSchema_resets (schemaName : string) (m : manager)
    (fd : gmap string (gmap string value)) :
  dataManager m = Some fd →
  schemaName ≠ "" →
  ∃ m' fd',
    selectSchema fetch generateFormFromSchema schemaName m = (Ok tt, m')
    ∧ currentSchema m' = schemaName
    ∧ dataManager m' = Some fd'
    ∧ fd' !! schemaName = Some ∅
    ∧ ∀ other, other ≠ schemaName → fd' !! other = fd !! other.
Proof.
  intros Hdm Hname. unfold selectSchema.
  unfold mbind at 1 2 3, JS_bind, get_state, put_state.
  assert (works_on schemaName fd (set_currentSchema schemaName m)) as Hstart.
  { split; [done|]. by exists fd. }
  pose proof (loadSchemaForm_keeps schemaName fd schemaName _ Hstart) as Hload.
  pose proof (loadSchemaForm_returns schemaName (set_currentSchema schemaName m))
    as Hok.
  destruct (loadSchemaForm fetch generateFormFromSchema schemaName
              (set_currentSchema schemaName m)) as [r m1].
  simpl in Hok, Hload. subst r.
  destruct Hload as [Hcs (fd1 & Hdm1 & Hframe)].
  unfold resetFormData, delegate, DataManagerFields.resetFormData,
    DataManager.saveToStorage.
  js_simpl. rewrite Hdm1, Hcs.
  assert (String.eqb schemaName "" = false) as ->
    by by apply String.eqb_neq.
  simpl. eexists _, _. split; [reflexivity|]. simpl.
  split; [done|]. split; [done|]. split; [by rewrite lookup_insert_eq|].
  intros other Hother. rewrite lookup_insert_ne by done. by apply Hframe.
Qed.

End Loading.

Lemma selectSchema_resets_witness :
  let fetch := λ _ : string,
    ArrayManager.Response 200
      (Some (VObj {[ "schemas" :=
                VObj {[ "RootModel" :=
                   VObj {[ "default_values" := VObj {[ "city" := VStr "Oslo" ]} ]} ]} ]})) in
  let generate := λ (m : manager) (_ _ : value), (Ok "", fieldCache m) in
  let m := {| dataManager := Some {[ "bike_sales" := {[ "n" := VNum 1 ]} ]};
              currentSchema := "bike_sales"; schemaCache := ∅;
              fieldCache := ∅; dom := ∅ |} in
  ∃ m' fd',
    selectSchema fetch generate "bike_stock" m = (Ok tt, m')
    ∧ currentSchema m' = "bike_stock"
    ∧ dataManager m' = Some fd'
    ∧ fd' !! "bike_stock" = Some ∅
    ∧ ∀ other, other ≠ "bike_stock" →
        fd' !! other = ({[ "bike_sales" := {[ "n" := VNum 1 ]} ]}
                          : gmap string (gmap string value)) !! other.
Proof.
  intros fetch generate m.
  by apply (selectSchema_resets fetch generate "bike_stock" m).
Defined.

Lemma ends_with_bind {A B} (P : outcome A → manager → Prop)
    (Q : outcome B → manager → Prop) (c : JSp manager A)
    (k : A → JSp manager B) (m : manager) :
  ends_with P c m →
  (∀ e m', P (Throw e) m' → Q (Throw e) m') →
  (∀ a m', P (Ok a) m' → ends_with Q (k a) m') →
  ends_with Q (c ≫= k) m.
Proof.
  intros (r & m' & Hc & HP) Hthrow Hok. unfold ends_with, mbind, JSp_bind.
  rewrite Hc. destruct r as [a|e]; [by apply Hok|].
  eexists _, _. split; [done|]. by apply Hthrow.
Qed.

Lemma ends_with_lift {A B} (Q : outcome B → manager → Prop) (r : outcome A)
    (k : A → JSp manager B) (m : manager) :
  (∀ e, Q (Throw e) m) →
  (∀ a, r = Ok a → ends_with Q (k a) m) →
  ends_with Q (covered (lift r) ≫= k) m.
Proof.
  intros Hthrow Hok. unfold mbind, JSp_bind, covered, lift.
  destruct r as [a|e]; [by apply Hok|]. by eexists _, _.
Qed.

Lemma ends_with_get {B} (Q : outcome B → manager → Prop)
    (k : manager → JSp manager B) (m : manager) :
  ends_with Q (k m) m → ends_with Q (covered get_state ≫= k) m.
Proof. done. Qed.

Lemma ends_with_put {B} (Q : outcome B → manager → Prop)
    (k : JSp manager B) (m m' : manager) :
  ends_with Q k m' → ends_with Q (covered (put_state m');; k) m.
Proof. done. Qed.

Lemma ends_with_ret {A} (Q : outcome A → manager → Prop) (a : A)
    (m : manager) :
  Q (Ok a) m → ends_with Q (mret a) m.
Proof. intros HQ. by eexists _, _. Qed.

Lemma updateArrayItemData_last (fd : gmap string (gmap string value))
    (cs f : string) (l : list value) (t : gmap string value) (v : value) :
  DataManagerFields.updateArrayItemData cs f (length l) "" v
    (<[cs := <[f := VArr (l ++ [VObj ∅])]> t]> fd)
  = Some (Ok tt, <[cs := <[f := VArr (l ++ [v])]> t]> fd).
Proof.
  unfold DataManagerFields.updateArrayItemData. unfold mbind at 1, JSp_bind.
  rewrite (DataManagerFieldsProps.ensureArrayItem_present _ cs f (length l)
             (<[f := VArr (l ++ [VObj ∅])]> t) (l ++ [VObj ∅]) (VObj ∅));
    [|by rewrite lookup_insert_eq|by rewrite lookup_insert_eq
     |by rewrite lookup_app_r, Nat.sub_diag|done].
  jsp_simpl.
  rewrite DataManagerFieldsProps.array_put_inside
    by (rewrite length_app; simpl; lia).
  simpl. unfold DataManager.setField, DataManager.saveToStorage. js_simpl.
  rewrite lookup_insert_eq. simpl. rewrite !insert_insert_eq.
  rewrite insert_app_r_alt by done. by rewrite Nat.sub_diag.
Qed.

Lemma ends_with_bind_ok {A B} (Q : outcome B → manager → Prop)
    (c : JSp manager A) (k : A → JSp manager B) (m m' : manager) (a : A) :
  c m = Some (Ok a, m') → ends_with Q (k a) m' → ends_with Q (c ≫= k) m.
Proof. intros Hc Hk. unfold ends_with, mbind, JSp_bind. by rewrite Hc. Qed.

Lemma ends_with_lift_ok {A B} (Q : outcome B → manager → Prop) (r : outcome A)
    (k : A → JSp manager B) (m : manager) (a : A) :
  r = Ok a → ends_with Q (k a) m → ends_with Q (covered (lift r) ≫= k) m.
Proof. by intros ->. Qed.

Lemma get_Ok (x : value) (k : string) (a : value) :
  get x k = Ok a → a = get_own x k.
Proof. destruct x; simpl; congruence. Qed.

(** The schema of the items is found in a schema document that has a
    [schemas] section, by a reference that is a string and not the empty
    one. *)
Lemma item_schema_found (schema field : value) :
  truthy (item_schema schema field) = true →
  ∃ r, get_opt (get_own field "items") "$ref" = VStr r
       ∧ r ≠ ""
       ∧ schema ≠ VNull ∧ schema ≠ VUndefined
       ∧ get_own schema "schemas" ≠ VNull
       ∧ get_own schema "schemas" ≠ VUndefined
       ∧ item_schema schema field
         = or_else (get_own (get_own schema "schemas") (last_segment r))
             (get_opt (get_opt (get_own (get_own schema "schemas") "RootModel")
                               "definitions") (last_segment r)).
Proof.
  unfold item_schema.
  destruct (get_opt (get_own field "items") "$ref") as [| | | | |r| |];
    try done.
  destruct (String.eqb r "") eqn:Hr; [done|].
  apply String.eqb_neq in Hr. intros Hfound. exists r.
  assert (get_own schema "schemas" ≠ VNull
          ∧ get_own schema "schemas" ≠ VUndefined) as [Hnull Hundef].
  { destruct (get_own schema "schemas"); try done. }
  repeat split; try done; intros ->; by apply Hundef.
Qed.

Section Adding.

Variable fetch : string → ArrayManager.fetched.
Variable generateArrayItemHtml :
  manager → string → string → nat → value → value
  → outcome string * gmap string value.

(** [addArrayItem] never throws and adds at most one item, the empty object
    or a copy of the declared defaults of the schema of the items. *)
Lemma addArrayItem_ends (currentSchema fieldName : string) (field : value)
    (m : manager) :
  currentSchema ∉ object_prototype_names →
  fieldName ∉ object_prototype_names →
  let schema := match (fetchSchema fetch currentSchema m).1 with
                | Ok schema => schema
                | Throw _ => VUndefined
                end in
  ∃ m',
    addArrayItem fetch generateArrayItemHtml currentSchema fieldName field m
    = Some (Ok tt, m')
    ∧ one_item_more currentSchema fieldName (item_schema schema field) m m'.
Proof.
  intros Hcs Hf schema. unfold addArrayItem.
  match goal with
  | |- context [try_catch_p ?body _] =>
      assert (ends_with (λ _ m', one_item_more currentSchema fieldName
                                   (item_schema schema field) m m')
                body m) as (r & m' & Hbody & Hgood)
  end.
  { eapply (ends_with_bind
              (λ r m0, same_store m m0
                       ∧ r = (fetchSchema fetch currentSchema m).1)).
    { pose proof (fetchSchema_same_store fetch currentSchema m) as Hsame.
      unfold ends_with, covered.
      destruct (fetchSchema fetch currentSchema m) as [r0 m0].
      by eexists _, _. }
    { intros e m0 [(Hdm & _) _]. by left. }
    intros schema0 m0 [(Hdm0 & Hcs0 & Hdom0) Hschema].
    assert (schema = schema0) as <- by (unfold schema; by rewrite <-Hschema).
    apply ends_with_get.
    destruct (negb (bool_decide (is_Some (dom m0 !! ("array-" +:+ fieldName))))).
    { apply ends_with_ret. by left. }
    eapply (ends_with_bind
              (λ r m1, match r with
                       | Throw _ => dataManager m1 = dataManager m
                       | Ok itemIndex =>
                           ∃ fd l,
                             dataManager m = Some fd
                             ∧ DataManager.stored_items fd currentSchema fieldName
                               = Some l
                             ∧ itemIndex = length l
                             ∧ dataManager m1
                               = Some (<[currentSchema :=
                                           <[fieldName := VArr (l ++ [VObj ∅])]>
                                             (DataManager.getFormDataForSchema
                                                currentSchema fd)]> fd)
                       end)).
    { unfold ends_with, on_dataManager. rewrite Hdm0.
      destruct (dataManager m) as [fd|] eqn:Hfd; [|by eexists _, _].
      destruct (DataManager.stored_items fd currentSchema fieldName)
        as [l|] eqn:Hst.
      - rewrite (DataManagerProps.addArrayItem_closed _ _ _ _ _ Hst).
        eexists _, _. split; [reflexivity|]. by exists fd, l.
      - rewrite (DataManagerProps.addArrayItem_not_array _ _ _ _ Hcs Hf Hst).
        by eexists _, _. }
    { intros e m1 Hm1. by left. }
    intros itemIndex m1 (fd & l & Hfd & Hst & -> & Hdm1).
    assert (∀ m2, dataManager m2 = dataManager m1 →
              one_item_more currentSchema fieldName (item_schema schema field)
                m m2) as Hempty.
    { intros m2 Hm2. right. left. exists fd, l. by rewrite Hm2. }
    apply ends_with_lift; [intros e; by apply Hempty|]. intros items Hitems.
    apply get_Ok in Hitems as ->.
    destruct (negb (truthy (get_opt (get_own field "items") "$ref"))) eqn:Href;
      [apply ends_with_ret; by apply Hempty|].
    destruct (get_opt (get_own field "items") "$ref") as [| | | | |ref| |]
      eqn:Hrefv;
      try (eexists _, _; split; [reflexivity|by apply Hempty]).
    apply ends_with_lift; [intros e; by apply Hempty|]. intros schemas Hschemas.
    apply get_Ok in Hschemas as ->.
    apply ends_with_lift; [intros e; by apply Hempty|]. intros direct Hdirect.
    apply get_Ok in Hdirect as ->.
    assert (item_schema schema field
            = or_else (get_own (get_own schema "schemas") (last_segment ref))
                (get_opt (get_opt (get_own (get_own schema "schemas") "RootModel")
                                  "definitions") (last_segment ref)))
      as <-.
    { unfold item_schema. rewrite Hrefv.
      simpl in Href. apply negb_false_iff, negb_true_iff in Href.
      by rewrite Href. }
    destruct (negb (truthy (item_schema schema field))) eqn:HitemSchema;
      [apply ends_with_ret; by apply Hempty|].
    apply negb_false_iff in HitemSchema.
    apply ends_with_get.
    destruct (generateArrayItemHtml m1 currentSchema fieldName (length l)
                (item_schema schema field) (get_own schema "schemas"))
      as [itemHtml cache].
    apply ends_with_put.
    apply ends_with_lift; [intros e; by apply Hempty|]. intros html _.
    apply ends_with_lift; [intros e; by apply Hempty|].
    intros default_values Hdefaults. apply get_Ok in Hdefaults as ->.
    unfold ends_with, on_dataManager. simpl. rewrite Hdm1.
    rewrite updateArrayItemData_last.
    eexists _, _. split; [reflexivity|]. right. right.
    split; [done|]. by exists fd, l. }
  unfold try_catch_p. rewrite Hbody.
  destruct r as [[]|e]; by exists m'.
Qed.

(** When everything is at hand, the item that [addArrayItem] adds is the
    copy of the declared defaults. *)
Lemma addArrayItem_defaults (currentSchema fieldName : string)
    (field schema : value) (m : manager)
    (fd : gmap string (gmap string value)) (l : list value) :
  dataManager m = Some fd →
  (fetchSchema fetch currentSchema m).1 = Ok schema →
  is_Some (dom m !! ("array-" +:+ fieldName)) →
  DataManager.stored_items fd currentSchema fieldName = Some l →
  field ≠ VNull → field ≠ VUndefined →
  truthy (item_schema schema field) = true →
  (∀ m1, ∃ html,
     (generateArrayItemHtml m1 currentSchema fieldName (length l)
        (item_schema schema field) (get_own schema "schemas")).1 = Ok html) →
  ∃ m',
    addArrayItem fetch generateArrayItemHtml currentSchema fieldName field m
    = Some (Ok tt, m')
    ∧ item_added currentSchema fieldName
        (declared_defaults (item_schema schema field)) m m'.
Proof.
  intros Hdm Hfetch Hcontainer Hst Hnull Hundef Hfound Hmarkup.
  destruct (item_schema_found _ _ Hfound)
    as (ref & Href & Hne & Hs1 & Hs2 & Hs3 & Hs4 & Hitem).
  unfold addArrayItem.
  match goal with
  | |- context [try_catch_p ?body _] =>
      assert (ends_with (λ r m', r = Ok tt
                                 ∧ item_added currentSchema fieldName
                                     (declared_defaults (item_schema schema field))
                                     m m')
                body m) as (r & m' & Hbody & -> & Hgood)
  end.
  { pose proof (fetchSchema_same_store fetch currentSchema m)
      as (Hdm0 & Hcs0 & Hdom0).
    destruct (fetchSchema fetch currentSchema m) as [r0 m0] eqn:Hfetched.
    simpl in Hfetch, Hdm0, Hcs0, Hdom0. subst r0.
    eapply ends_with_bind_ok; [unfold covered; by rewrite Hfetched|].
    apply ends_with_get. rewrite Hdom0.
    rewrite bool_decide_eq_true_2 by done. simpl.
    set (fd1 := <[currentSchema := <[fieldName := VArr (l ++ [VObj ∅])]>
                   (DataManager.getFormDataForSchema currentSchema fd)]> fd).
    eapply (ends_with_bind_ok _ _ _ _ (set_dataManager fd1 m0)).
    { unfold on_dataManager. rewrite Hdm0, Hdm.
      by rewrite (DataManagerProps.addArrayItem_closed _ _ _ _ _ Hst). }
    eapply ends_with_lift_ok; [by apply ResolverProps.get_loaded|].
    rewrite Href. simpl.
    rewrite (proj2 (String.eqb_neq ref "") Hne). simpl.
    eapply ends_with_lift_ok; [by apply ResolverProps.get_loaded|].
    eapply ends_with_lift_ok; [by apply ResolverProps.get_loaded|].
    rewrite <-Hitem. rewrite Hfound. simpl.
    apply ends_with_get.
    destruct (Hmarkup (set_dataManager fd1 m0)) as [html Hhtml].
    destruct (generateArrayItemHtml (set_dataManager fd1 m0) currentSchema
                fieldName (length l) (item_schema schema field)
                (get_own schema "schemas")) as [itemHtml cache].
    simpl in Hhtml. subst itemHtml.
    apply ends_with_put.
    eapply ends_with_lift_ok; [reflexivity|].
    eapply ends_with_lift_ok.
    { apply ResolverProps.get_loaded; by destruct (item_schema schema field). }
    unfold ends_with, on_dataManager. simpl. unfold fd1.
    rewrite updateArrayItemData_last.
    eexists _, _. split; [reflexivity|]. split; [done|]. by exists fd, l. }
  unfold try_catch_p. rewrite Hbody. by exists m'.
Qed.

(** X24.  [ArrayManager.addArrayItem] and [addArrayItemByName] never throw
    and add at most one item.  Whatever the network answers, whatever the
    field definition holds and whatever the generation of the markup does,
    the call ends without an exception, and the store is either unchanged
    or has, at the end of the array under the field, one more item: the
    empty object, or a copy of the declared defaults of the schema of the
    items of the field.  It is that copy whenever the schema document is
    got, the container of the array is on the page, an array or nothing is
    found under the field, the field definition names the schema of its
    items, the schema document holds it, and the markup of the item is
    generated.  The names of the schema at work and of the field are not
    names of members of [Object.prototype], and neither is the name of the
    schema of the items. *)
Theorem addArrayItem_one_item_more (currentSchema fieldName : string)
    (m : manager) :
  currentSchema ∉ object_prototype_names →
  fieldName ∉ object_prototype_names →
  let got := match (fetchSchema fetch currentSchema m).1 with
             | Ok schema => schema
             | Throw _ => VUndefined
             end in
  let cached :=
    default VUndefined (fieldCache m !! (currentSchema +:+ "_" +:+ fieldName)) in
  (∀ field,
     plain_item_ref field = true →
     ∃ m',
       addArrayItem fetch generateArrayItemHtml currentSchema fieldName field m
       = Some (Ok tt, m')
       ∧ one_item_more currentSchema fieldName (item_schema got field) m m')
  ∧ (plain_item_ref cached = true →
     currentSchema +:+ "_" +:+ fieldName ∉ object_prototype_names →
     ∃ m',
       addArrayItemByName fetch generateArrayItemHtml currentSchema fieldName m
       = Some (Ok tt, m')
       ∧ one_item_more currentSchema fieldName (item_schema got cached) m m')
  ∧ (∀ field schema fd l,
       plain_item_ref field = true →
       dataManager m = Some fd →
       (fetchSchema fetch currentSchema m).1 = Ok schema →
       is_Some (dom m !! ("array-" +:+ fieldName)) →
       DataManager.stored_items fd currentSchema fieldName = Some l →
       field ≠ VNull → field ≠ VUndefined →
       truthy (item_schema schema field) = true →
       (∀ m1, ∃ html,
          (generateArrayItemHtml m1 currentSchema fieldName (length l)
             (item_schema schema field) (get_own schema "schemas")).1 = Ok html) →
       ∃ m',
         addArrayItem fetch generateArrayItemHtml currentSchema fieldName field m
         = Some (Ok tt, m')
         ∧ item_added currentSchema fieldName
             (declared_defaults (item_schema schema field)) m m'
         ∧ (fieldCache m !! (currentSchema +:+ "_" +:+ fieldName) = Some field →
            addArrayItemByName fetch generateArrayItemHtml currentSchema
              fieldName m = Some (Ok tt, m'))).
Proof.
  intros Hcs Hf got cached. split; [|split].
  - intros field _. by apply addArrayItem_ends.
  - intros _ _. unfold addArrayItemByName.
    change (∃ m', (if negb (truthy cached) then mret tt
                   else addArrayItem fetch generateArrayItemHtml currentSchema
                          fieldName cached) m = Some (Ok tt, m')
                  ∧ one_item_more currentSchema fieldName
                      (item_schema got cached) m m').
    destruct (negb (truthy cached)); [|by apply addArrayItem_ends].
    exists m. split; [done|]. by left.
  - intros field schema fd l _ Hdm Hfetch Hcontainer Hst Hnull Hundef Hfound
      Hmarkup.
    destruct (addArrayItem_defaults currentSchema fieldName field schema m fd l)
      as (m' & Hadd & Hgood); try done.
    exists m'. split; [done|]. split; [done|].
    intros Hcached. unfold addArrayItemByName.
    change ((if negb (truthy (default VUndefined
                                (fieldCache m !! (currentSchema +:+ "_" +:+ fieldName))))
             then mret tt
             else addArrayItem fetch generateArrayItemHtml currentSchema
                    fieldName
                    (default VUndefined
                       (fieldCache m !! (currentSchema +:+ "_" +:+ fieldName))))
              m = Some (Ok tt, m')).
    rewrite Hcached. simpl.
    assert (truthy field = true) as ->; [|done].
    destruct (item_schema_found _ _ Hfound) as (ref & Href & _).
    by destruct field.
Qed.

End Adding.

Lemma addArrayItem_one_item_more_witness :
  let schema :=
    VObj {[ "schemas" :=
              VObj {[ "Order" :=
                        VObj {[ "default_values" :=
                                  VObj {[ "quantity" := VNum 1 ]} ]} ]} ]} in
  let field := VObj {[ "items" := VObj {[ "$ref" := VStr "#/$defs/Order" ]} ]} in
  let m := {| dataManager := Some ∅; currentSchema := "rm";
              schemaCache := {[ "rm" := schema ]}; fieldCache := ∅;
              dom := {[ "array-orders" := "" ]} |} in
  let fetch := λ _ : string, ArrayManager.NetworkError in
  let markup := λ (m1 : manager) (_ _ : string) (_ : nat) (_ _ : value),
                  (Ok "<div></div>", fieldCache m1) in
  declared_defaults (item_schema schema field) = {[ "quantity" := VNum 1 ]}
  ∧ ∃ m',
      addArrayItem fetch markup "rm" "orders" field m = Some (Ok tt, m')
      ∧ item_added "rm" "orders" (declared_defaults (item_schema schema field))
          m m'.
Proof.
  intros schema field m fetch markup. split; [by vm_compute|].
  destruct (proj2 (proj2 (addArrayItem_one_item_more fetch markup "rm" "orders" m
                            ltac:(apply (bool_decide_unpack _); vm_compute; exact I)
                            ltac:(apply (bool_decide_unpack _); vm_compute; exact I)))
              field schema ∅ [])
    as (m' & Hadd & Hgood & _);
    [by vm_compute | reflexivity | by vm_compute | by eexists | by vm_compute
    | discriminate | discriminate | by vm_compute
    | intros m1; by eexists |].
  by exists m'.
Defined.

Section UnionSelect.

Variable unionSelectMarkup : string → value → value → outcome string.
Variable generateUnionSchemaFields : string → value → value → outcome string.



End UnionSelect.


Lemma selectedArrayItemUnionSchema_truthy (m : manager) (cs f : string)
    (i : nat) (p v : string) (schema : value) :
  selectedArrayItemUnionSchema m cs f i p v = Ok (Some schema) →
  truthy schema = true.
Proof.
  unfold selectedArrayItemUnionSchema.
  repeat (case_match; simplify_eq/=); try done.
  intros [= <-]. by apply negb_false_iff.
Qed.

Lemma updateArrayItemData_property (fd : gmap string (gmap string value))
    (cs f : string) (i : nat) (p : string) (v : value)
    (t o : gmap string value) (l : list value) :
  fd !! cs = Some t → t !! f = Some (VArr l) → l !! i = Some (VObj o) →
  p ≠ "" →
  DataManagerFields.updateArrayItemData cs f i p v fd
  = Some (Ok tt, <[cs := <[f := VArr (<[i := VObj (<[p := v]> o)]> l)]> t]> fd).
Proof.
  intros Ht Hf Hi Hp.
  assert (i < length l)%nat as Hlt by by eapply lookup_lt_Some.
  unfold DataManagerFields.updateArrayItemData. unfold mbind at 1, JSp_bind.
  rewrite (DataManagerFieldsProps.ensureArrayItem_present _ _ _ _ _ _ _ Ht Hf Hi)
    by done.
  assert (String.eqb p "" = false) as -> by by apply String.eqb_neq.
  jsp_simpl.
  rewrite DataManagerFieldsProps.array_put_inside by done. simpl.
  unfold DataManager.setField, DataManager.saveToStorage. js_simpl.
  by rewrite Ht.
Qed.

Section ArrayItemUnion.

Variable generateArrayItemUnionSchemaFields :
  string → string → nat → string → value → outcome string.

(** X26.  Selecting a variant for a union property of an array item.  On an
    item that is an object, [selectArrayItemUnionOption] ends without an
    exception and leaves under the property the declared defaults of the
    schema of the option when that schema is found and its fields are
    rendered, and the bare value of the option in every other case,
    whatever the property held before: nothing of a variant selected
    earlier stays.  The other properties of the item, the other items and
    the length of the array are untouched.  The property is not
    [__proto__], and the options name their schemas by names that are not
    names of members of [Object.prototype]. *)
Theorem selectArrayItemUnionOption_effect (m : manager)
    (fd : gmap string (gmap string value))
    (currentSchema fieldName : string) (itemIndex : nat)
    (propName selectedValue : string)
    (t o : gmap string value) (l : list value) :
  dataManager m = Some fd →
  fd !! currentSchema = Some t →
  t !! fieldName = Some (VArr l) →
  l !! itemIndex = Some (VObj o) →
  propName ≠ "" →
  propName ≠ "__proto__" →
  plain_refs (cached_item_union m currentSchema fieldName itemIndex propName)
  = true →
  ∃ m' l' o',
    selectArrayItemUnionOption generateArrayItemUnionSchemaFields currentSchema
      fieldName itemIndex propName selectedValue m = Some (Ok tt, m')
    ∧ dataManager m'
      = Some (<[currentSchema := <[fieldName := VArr l']> t]> fd)
    ∧ length l' = length l
    ∧ (∀ j, j ≠ itemIndex → l' !! j = l !! j)
    ∧ l' !! itemIndex = Some (VObj o')
    ∧ (∀ q, q ≠ propName → o' !! q = o !! q)
    ∧ o' !! propName
      = Some (item_variant_data generateArrayItemUnionSchemaFields m
                currentSchema fieldName itemIndex propName selectedValue).
Proof.
  intros Hdm Ht Hf Hi Hp _ _. unfold item_variant_data.
  assert (itemIndex < length l)%nat as Hlt by by eapply lookup_lt_Some.
  set (o1 := <[propName := VStr selectedValue]> o).
  set (l1 := <[itemIndex := VObj o1]> l).
  set (fd1 := <[currentSchema := <[fieldName := VArr l1]> t]> fd).
  set (m1 := set_dataManager fd1 m).
  (* the two ways the selection ends *)
  assert (∀ m', dataManager m' = Some fd1 →
            ∃ l' o',
              dataManager m'
              = Some (<[currentSchema := <[fieldName := VArr l']> t]> fd)
              ∧ length l' = length l
              ∧ (∀ j, j ≠ itemIndex → l' !! j = l !! j)
              ∧ l' !! itemIndex = Some (VObj o')
              ∧ (∀ q, q ≠ propName → o' !! q = o !! q)
              ∧ o' !! propName = Some (VStr selectedValue))
    as Hbare.
  { intros m' Hm'. exists l1, o1. split; [done|].
    split; [by apply length_insert|].
    split; [intros j Hj; by apply list_lookup_insert_ne|].
    split; [by apply list_lookup_insert_eq|].
    split; [intros q Hq; by apply lookup_insert_ne|].
    by apply lookup_insert_eq. }
  unfold selectArrayItemUnionOption. unfold mbind at 1, JSp_bind.
  unfold on_dataManager at 1. rewrite Hdm.
  rewrite (updateArrayItemData_property _ _ _ _ _ _ _ _ _ Ht Hf Hi Hp).
  fold o1 l1 fd1 m1.
  unfold renderArrayItemUnionFields, try_catch_p.
  unfold mbind at 1, JSp_bind, covered at 1, get_state.
  assert (selectedArrayItemUnionSchema m1 currentSchema fieldName itemIndex
            propName selectedValue
          = selectedArrayItemUnionSchema m currentSchema fieldName itemIndex
              propName selectedValue) as Hsame by done.
  unfold mbind at 1, JSp_bind, covered at 1, lift at 1. rewrite Hsame.
  destruct (selectedArrayItemUnionSchema m currentSchema fieldName itemIndex
              propName selectedValue) as [[schema|]|e] eqn:Hsel;
    [| destruct (Hbare m1 eq_refl) as (l' & o' & H'); by exists m1, l', o'
     | destruct (Hbare m1 eq_refl) as (l' & o' & H'); by exists m1, l', o'].
  set (container := "union-fields-" +:+ fieldName +:+ "-"
                    +:+ pretty itemIndex +:+ "-" +:+ propName).
  set (m2 := if bool_decide (is_Some (dom m1 !! container))
             then set_dom (<[container := ""]> (dom m1)) m1 else m1).
  assert (dataManager m2 = Some fd1) as Hdm2
    by (unfold m2; by destruct (bool_decide _)).
  unfold mbind at 1, JSp_bind, covered at 1.
  assert ((if bool_decide (is_Some (dom m1 !! container))
           then put_state (set_dom (<[container := ""]> (dom m1)) m1)
           else mret tt) m1 = (Ok tt, m2)) as ->
    by (unfold m2; by destruct (bool_decide _)).
  unfold mbind at 1, JSp_bind, covered at 1, lift at 1.
  destruct (generateArrayItemUnionSchemaFields currentSchema fieldName
              itemIndex propName schema) as [fieldsHtml|e];
    [|destruct (Hbare m2 Hdm2) as (l' & o' & H'); by exists m2, l', o'].
  unfold mbind at 1, JSp_bind, covered at 1, get_state.
  set (m3 := if bool_decide (is_Some (dom m2 !! container))
             then set_dom (<[container := fieldsHtml]> (dom m2)) m2 else m2).
  assert (dataManager m3 = Some fd1) as Hdm3.
  { transitivity (dataManager m2); [|exact Hdm2].
    unfold m3. by destruct (bool_decide (is_Some (dom m2 !! container))). }
  unfold mbind at 1, JSp_bind, covered at 1.
  assert ((if bool_decide (is_Some (dom m2 !! container))
           then put_state (set_dom (<[container := fieldsHtml]> (dom m2)) m2)
           else mret tt) m2 = (Ok tt, m3)) as ->
    by (unfold m3; by destruct (bool_decide (is_Some (dom m2 !! container)))).
  unfold on_dataManager. rewrite Hdm3.
  assert (truthy schema = true) as Hschema
    by by eapply selectedArrayItemUnionSchema_truthy.
  rewrite (DataManagerFieldsProps.initializeArrayItemUnionFormData_closed
             fd1 currentSchema fieldName itemIndex propName schema
             (<[fieldName := VArr l1]> t) o1 l1);
    [| by destruct schema | by destruct schema
     | by unfold fd1; rewrite lookup_insert_eq
     | by rewrite lookup_insert_eq
     | by unfold l1; rewrite list_lookup_insert_eq].
  unfold o1 at 1 2. rewrite lookup_insert_eq. simpl.
  rewrite orb_true_r.
  eexists _, _, _. split; [reflexivity|]. simpl.
  unfold fd1, l1. rewrite !insert_insert_eq, list_insert_insert_eq.
  split; [reflexivity|].
  split; [by apply length_insert|].
  split; [intros j Hj; by apply list_lookup_insert_ne|].
  split; [by apply list_lookup_insert_eq|].
  split.
  - intros q Hq. unfold o1. by rewrite !lookup_insert_ne.
  - by rewrite lookup_insert_eq.
Qed.

End ArrayItemUnion.

Lemma selectArrayItemUnionOption_effect_witness :
  let render := λ (_ _ : string) (_ : nat) (_ : string) (_ : value),
                  Ok "<div></div>" : outcome string in
  let o : gmap string value :=
    {[ "payment" := VObj {[ "iban" := VStr "NO93" ]}; "total" := VNum 5 ]} in
  let l := [VObj o] in
  let t : gmap string value := {[ "orders" := VArr l ]} in
  let fd : gmap string (gmap string value) := {[ "rm" := t ]} in
  let m := {| dataManager := Some fd; currentSchema := "rm"; schemaCache := ∅;
              fieldCache :=
                {[ "rm_orders_0_payment_union" :=
                     VObj {[ "unionOptions" :=
                               VArr [VObj {[ "value" := VStr "card";
                                             "schema_ref" := VStr "#/$defs/Card" ]}];
                             "allSchemas" :=
                               VObj {[ "Card" :=
                                         VObj {[ "default_values" :=
                                                   VObj {[ "number" := VStr "" ]} ]} ]} ]} ]};
              dom := ∅ |} in
  ∃ m' l' o',
    selectArrayItemUnionOption render "rm" "orders" 0 "payment" "card" m
    = Some (Ok tt, m')
    ∧ dataManager m' = Some (<["rm" := <["orders" := VArr l']> t]> fd)
    ∧ length l' = length l
    ∧ (∀ j, j ≠ 0%nat → l' !! j = l !! j)
    ∧ l' !! 0%nat = Some (VObj o')
    ∧ (∀ q, q ≠ "payment" → o' !! q = o !! q)
    ∧ o' !! "payment" = Some (VObj {[ "number" := VStr "" ]}).
Proof.
  intros render o l t fd m.
  by apply (selectArrayItemUnionOption_effect render m fd "rm" "orders" 0
              "payment" "card" t o l).
Defined.

Section Exporting.

Variable JSON_stringify : value → string.
Variable convertToCSV : gmap string value → string.
Variable collected : gmap string value.
Variable downloadFile : DataManager.export_file → outcome unit.
Variable platform_message : exn → string.

(** X29.  [DynamicWorkflowManager.exportData] exports the store and never
    the page.  The guard of the method counts the fields that
    [getFormDataForSchema] returns, which are those of the page when the
    store has none for the schema; the export itself reads the store.  So
    with values on the page and none in the store the user is told that the
    export failed for want of data, and whenever a file is downloaded it is
    the file that [DataManager.exportData] makes from the store. *)
Theorem exportData_store_only (now today : string) (m : manager)
    (fd : gmap string (gmap string value)) :
  dataManager m = Some fd →
  currentSchema m ≠ "" →
  let stored := DataManager.getFormDataForSchema (currentSchema m) fd in
  let result := exportData JSON_stringify convertToCSV collected downloadFile
                  platform_message now today m in
  (size stored = 0%nat → size collected ≠ 0%nat →
     result = Alert "Export failed: No data to export")
  ∧ (size stored = 0%nat → size collected = 0%nat →
     result = Alert "No data to export. Please fill out the form first.")
  ∧ (∀ file, result = Download file →
       size stored ≠ 0%nat
       ∧ DataManager.exportData JSON_stringify convertToCSV now today
           (currentSchema m) "json" fd = (Ok file, fd)
       ∧ downloadFile file = Ok tt).
Proof.
  intros Hdm Hname stored result. subst result.
  unfold exportData, getFormDataForSchema. rewrite Hdm. fold stored.
  assert (String.eqb (currentSchema m) "" = false) as ->
    by by apply String.eqb_neq.
  simpl.
  destruct (bool_decide (size stored = 0%nat)) eqn:Hstored.
  - apply bool_decide_eq_true in Hstored.
    destruct (bool_decide (size collected = 0%nat)) eqn:Hpage.
    + apply bool_decide_eq_true in Hpage. by repeat split.
    + apply bool_decide_eq_false in Hpage.
      assert (stored = ∅) as Hempty by by apply map_size_empty_iff.
      rewrite (DataManagerProps.exportData_empty _ _ _ _ _ _ _ Hempty).
      by repeat split.
  - apply bool_decide_eq_false in Hstored. rewrite bool_decide_false by done.
    split; [done|]. split; [done|]. intros file.
    unfold DataManager.exportData. js_simpl. fold stored.
    rewrite bool_decide_false by done. simpl.
    destruct (downloadFile _) as [[]|e] eqn:Hdownload; [|done].
    intros [= <-]. by rewrite Hdownload.
Qed.

End Exporting.

Lemma exportData_store_only_witness :
  let m := {| dataManager := Some {[ "rm" := ∅ ]}; currentSchema := "rm";
              schemaCache := ∅; fieldCache := ∅; dom := ∅ |} in
  let collected : gmap string value := {[ "city" := VStr "Oslo" ]} in
  let fd : gmap string (gmap string value) := {[ "rm" := ∅ ]} in
  let stored := DataManager.getFormDataForSchema (currentSchema m) fd in
  let result := exportData TextCodec.stringify TextCodec.csv collected
                  (λ _, Ok tt) (λ _, "") "2026-01-01T00:00:00.000Z"
                  "2026-01-01T00:00:00.000Z" m in
  (size stored = 0%nat → size collected ≠ 0%nat →
     result = Alert "Export failed: No data to export")
  ∧ (size stored = 0%nat → size collected = 0%nat →
     result = Alert "No data to export. Please fill out the form first.")
  ∧ (∀ file, result = Download file →
       size stored ≠ 0%nat
       ∧ DataManager.exportData TextCodec.stringify TextCodec.csv
           "2026-01-01T00:00:00.000Z" "2026-01-01T00:00:00.000Z"
           (currentSchema m) "json" fd = (Ok file, fd)
       ∧ (λ _ : DataManager.export_file, Ok tt : outcome unit) file = Ok tt).
Proof.
  intros m collected fd.
  by apply (exportData_store_only TextCodec.stringify TextCodec.csv collected
              (λ _, Ok tt) (λ _, "") "2026-01-01T00:00:00.000Z"
              "2026-01-01T00:00:00.000Z" m fd).
Defined.

Section Workflows.

Variable fetch : string → ArrayManager.fetched.

Lemma loadWorkflow_pushes (workflowName : string) (w : workflows) :
  ∃ workflow m,
    loadWorkflow fetch workflowName w
    = (Ok tt, set_availableWorkflows (availableWorkflows w ++ [VObj workflow])
                (set_core m w))
    ∧ workflow !! "name" = Some (VStr workflowName)
    ∧ same_store (core w) m.
Proof.
  unfold loadWorkflow, try_catch, on_core, push_workflow.
  unfold mbind at 1, JS_bind.
  pose proof (fetchSchema_same_store fetch workflowName (core w)) as Hsame.
  destruct (fetchSchema fetch workflowName (core w)) as [[schema|e] m].
  2: { js_simpl. eexists _, m. split; [reflexivity|].
       split; [by rewrite lookup_insert_eq|done]. }
  simpl in Hsame. js_simpl.
  destruct (get schema "schemas") as [schemas|e]; simpl.
  2: { eexists _, m. split; [reflexivity|].
       split; [by rewrite lookup_insert_eq|done]. }
  destruct (get schemas "RootModel") as [rootModel|e]; simpl.
  2: { eexists _, m. split; [reflexivity|].
       split; [by rewrite lookup_insert_eq|done]. }
  destruct (getSchemaTitle rootModel workflowName) as [schemaTitle|e]; simpl.
  2: { eexists _, m. split; [reflexivity|].
       split; [by rewrite lookup_insert_eq|done]. }
  destruct (get rootModel "description") as [description|e]; simpl.
  2: { eexists _, m. split; [reflexivity|].
       split; [by rewrite lookup_insert_eq|done]. }
  eexists _, m. split; [reflexivity|].
  split; [by rewrite lookup_insert_eq|done].
Qed.

Lemma loadWorkflows_pushes (names : list string) :
  ∀ w, ∃ loaded m,
    loadWorkflows fetch names w
    = (Ok tt, set_availableWorkflows (availableWorkflows w ++ loaded)
                (set_core m w))
    ∧ (λ x, get_own x "name") <$> loaded = VStr <$> names
    ∧ same_store (core w) m.
Proof.
  induction names as [|name names IH]; intros w.
  - exists [], (core w). split; [|done]. simpl. rewrite app_nil_r.
    by destruct w.
  - cbn [loadWorkflows]. unfold mbind, JS_bind.
    destruct (loadWorkflow_pushes name w) as (workflow & m & -> & Hname & Hsame).
    destruct (IH (set_availableWorkflows (availableWorkflows w ++ [VObj workflow])
                    (set_core m w))) as (loaded & m' & -> & Hnames & Hsame').
    exists (VObj workflow :: loaded), m'. simpl. split; [|split].
    + by rewrite <- app_assoc.
    + rewrite Hname. simpl. f_equal. exact Hnames.
    + destruct Hsame as (H1 & H2 & H3), Hsame' as (H1' & H2' & H3').
      simpl in *. unfold same_store. by rewrite H1', H2', H3'.
Qed.

(** X30.  [fetchAvailableWorkflows] always lists the four workflows.
    Whatever the network answers for each of them, a call that finds no
    other load under way ends without an exception with one entry for each
    of the four names, in their order, the entry of a workflow whose schema
    could not be used being a fallback; it marks the schemas as loaded,
    clears the flag of the load under way and leaves the store and the
    schema at work alone.  A call that finds a load under way changes
    nothing. *)
Theorem fetchAvailableWorkflows_lists_all (w : workflows) :
  (isLoadingWorkflows w = true →
     fetchAvailableWorkflows fetch w = (Ok tt, w))
  ∧ (isLoadingWorkflows w = false →
     ∃ w',
       fetchAvailableWorkflows fetch w = (Ok tt, w')
       ∧ (λ x, get_own x "name") <$> availableWorkflows w'
         = VStr <$> workflowNames
       ∧ schemasLoaded w' = true
       ∧ isLoadingWorkflows w' = false
       ∧ same_store (core w) (core w')).
Proof.
  unfold fetchAvailableWorkflows. split; intros Hflag.
  - unfold mbind, JS_bind, get_state. by rewrite Hflag.
  - unfold mbind at 1, JS_bind, get_state. rewrite Hflag.
    unfold mbind at 1, JS_bind, put_state.
    unfold finally, try_catch. unfold mbind at 1, JS_bind, get_state.
    unfold mbind at 1, JS_bind, put_state.
    unfold mbind at 1, JS_bind.
    destruct (loadWorkflows_pushes workflowNames
                (set_schemasLoaded false
                   (set_availableWorkflows [] (set_isLoadingWorkflows true w))))
      as (loaded & m & -> & Hnames & Hsame).
    unfold mbind, JS_bind. eexists. split; [reflexivity|]. simpl.
    split; [exact Hnames|]. split; [done|]. split; [done|]. exact Hsame.
Qed.

End Workflows.

Lemma fetchAvailableWorkflows_lists_all_witness :
  let fetch := λ _ : string, ArrayManager.NetworkError in
  let w := {| core := {| dataManager := None; currentSchema := "";
                         schemaCache := ∅; fieldCache := ∅; dom := ∅ |};
              availableWorkflows := []; schemasLoaded := false;
              isLoadingWorkflows := false |} in
  ∃ w',
    fetchAvailableWorkflows fetch w = (Ok tt, w')
    ∧ (λ x, get_own x "name") <$> availableWorkflows w'
      = VStr <$> workflowNames
    ∧ schemasLoaded w' = true
    ∧ isLoadingWorkflows w' = false
    ∧ same_store (core w) (core w').
Proof.
  intros fetch w.
  by apply (proj2 (fetchAvailableWorkflows_lists_all fetch w)).
Defined.

End WorkflowPageProps.

(** ** Indices of array items *)

Module ItemIndexProps.
Import DataManager DataManagerFields.

Lemma splice_one_negative (l : list value) (i : Z) :
  l ≠ [] → i < 0 →
  let k := Z.to_nat (Z.max (Z.of_nat (length l) + i) 0) in
  (k < length l)%nat ∧ splice l i 1 = take k l ++ drop (S k) l.
Proof.
  intros Hne Hi k. subst k.
  assert (0 < length l)%nat by (destruct l; [done|simpl; lia]).
  split; [lia|].
  unfold splice. replace (i <? 0) with true by lia.
  rewrite (Z.max_l 1 0) by lia. rewrite Z.min_l by lia.
  do 2 f_equal. lia.
Qed.

(** X27.  [removeArrayItem] with a negative index is not a no-op: the index
    counts from the end of the stored array, [-1] removing the last item,
    and an index below minus the length removes the first item.  The array
    is one shorter and closed up as for an index inside it. *)
Theorem removeArrayItem_negative (fd : gmap string (gmap string value))
    (currentSchema fieldName : string) (t : gmap string value)
    (l : list value) (i : Z) :
  fd !! currentSchema = Some t →
  t !! fieldName = Some (VArr l) →
  l ≠ [] →
  i < 0 →
  let k := Z.to_nat (Z.max (Z.of_nat (length l) + i) 0) in
  ∃ l',
    removeArrayItem currentSchema fieldName i fd
      = (Ok tt, <[currentSchema := <[fieldName := VArr l']> t]> fd)
    ∧ S (length l') = length l
    ∧ (∀ j : nat, (j < k)%nat → l' !! j = l !! j)
    ∧ (∀ j : nat, (k ≤ j)%nat → l' !! j = l !! S j).
Proof.
  intros Ht Hf Hne Hi k.
  destruct (splice_one_negative l i Hne Hi) as [Hk Hsplice]. fold k in Hk, Hsplice.
  exists (take k l ++ drop (S k) l). split; [|split; [|split]].
  - unfold removeArrayItem, setField, saveToStorage, field. js_simpl.
    rewrite Ht. simpl. rewrite Hf. simpl. rewrite Ht. simpl.
    by rewrite Hsplice.
  - by apply remove_at_length.
  - intros j Hj. by apply remove_at_below.
  - intros j Hj. by apply remove_at_above.
Qed.

Lemma removeArrayItem_negative_witness :
  let l := [VStr "a"; VStr "b"; VStr "c"] in
  let t : gmap string value := {[ "stores" := VArr l ]} in
  let fd : gmap string (gmap string value) := {[ "rm" := t ]} in
  let k := Z.to_nat (Z.max (Z.of_nat (length l) + -1) 0) in
  ∃ l',
    removeArrayItem "rm" "stores" (-1) fd
      = (Ok tt, <["rm" := <["stores" := VArr l']> t]> fd)
    ∧ S (length l') = length l
    ∧ (∀ j : nat, (j < k)%nat → l' !! j = l !! j)
    ∧ (∀ j : nat, (k ≤ j)%nat → l' !! j = l !! S j).
Proof.
  intros l t fd.
  by apply (removeArrayItem_negative fd "rm" "stores" t l (-1)).
Defined.




End ItemIndexProps.
